(** * nocomms: the comment removers, the newline normaliser and the
      extension dispatch, as Rocq functions

    The Go sources are embedded shallowly.  A Go [string] that holds valid
    UTF-8 is represented by the sequence of its code points ([text]); this is
    what [[]rune(s)] yields, and because every token the scanners look for
    (a newline, a comment token, a quote, a backtick, ...) is ASCII, cutting the byte
    string at such a token and decoding the pieces gives the same result as
    decoding first and cutting the rune sequence.  Where the source adds a
    BYTE offset (the result of [strings.Index]) to a RUNE index, the model
    does the same, with the byte width of every rune computed by [utf8_len].

    Per-line character loops carry an explicit [fuel]; each iteration
    consumes at least one rune, so the length of the line is enough fuel.
    A slice expression [runes[a:b]] may end after [len(runes)] as long as
    it ends within [cap(runes)]: it then reads the spare storage of the
    slice, which [[]rune(s)] leaves zeroed, and it is a run-time panic
    beyond the capacity.  The capacity is the choice of the Go runtime
    ([GoRuntime]); a panic is reported as [None]. *)

From Stdlib Require Import Ascii String.
From Stdlib Require Import ZArith List Bool Lia Arith.
Import ListNotations.

Set Implicit Arguments.

(* ------------------------------------------------------------------ *)
(** ** Runes and text *)

Definition rune := Z.
Definition text := list rune.

Notation "a == b" := (Z.eqb a b) (at level 70, no associativity).

Definition NL : rune := 10%Z.
Definition HT : rune := 9%Z.
Definition VT : rune := 11%Z.
Definition FF : rune := 12%Z.
Definition CR : rune := 13%Z.
Definition SP : rune := 32%Z.
Definition DQUOTE : rune := 34%Z.
Definition HASH : rune := 35%Z.
Definition SQUOTE : rune := 39%Z.
Definition STAR : rune := 42%Z.
Definition MINUS : rune := 45%Z.
Definition SLASH : rune := 47%Z.
Definition LESS : rune := 60%Z.
Definition BSLASH : rune := 92%Z.
Definition UNDERSCORE : rune := 95%Z.
Definition BTICK : rune := 96%Z.
Definition LOWER_R : rune := 114%Z.

Definition rune_of_ascii (c : ascii) : rune := Z.of_N (N_of_ascii c).

(** [T "abc"] is the text of an ASCII literal. *)
Fixpoint T (s : string) : text :=
  match s with
  | EmptyString => []
  | String c s' => rune_of_ascii c :: T s'
  end.

(** Number of bytes [utf8.EncodeRune] writes for a rune (an invalid rune is
    written as U+FFFD, three bytes). *)
Definition utf8_len (r : rune) : nat :=
  if (r <? 0)%Z then 3
  else if (r <? 128)%Z then 1
  else if (r <? 2048)%Z then 2
  else if (r <? 65536)%Z then 3
  else if (r <=? 1114111)%Z then 4
  else 3.

Fixpoint byte_len (s : text) : nat :=
  match s with
  | [] => 0
  | c :: tl => utf8_len c + byte_len tl
  end.

Fixpoint has_prefix (p s : text) : bool :=
  match p, s with
  | [], _ => true
  | _ :: _, [] => false
  | a :: p', b :: s' => (a == b) && has_prefix p' s'
  end.

(** Rune offset of the first occurrence of [sep] in [s]. *)
Fixpoint index (sep s : text) : option nat :=
  match s with
  | [] => if has_prefix sep [] then Some 0 else None
  | _ :: tl => if has_prefix sep s then Some 0 else option_map S (index sep tl)
  end.

(** [strings.Index(string(s), sep)]: the BYTE offset of the first
    occurrence. *)
Definition byte_index (sep s : text) : option nat :=
  option_map (fun k => byte_len (firstn k s)) (index sep s).

(** What the Go runtime decides: [rune_cap n] is the capacity of the slice
    that [[]rune(s)] returns for a string of [n] runes.  It is at least
    [n] (the gc runtime takes a buffer of 32 runes for a short string and
    rounds the size up to a size class otherwise), and the storage between
    the length and the capacity is zeroed.  Only the spare room
    [rune_cap n - n] matters below. *)
Class GoRuntime : Type := { rune_cap : nat -> nat }.

(** [s[:n]] for a slice [s] of runes that has [room] zeroed elements of
    spare capacity after its [len(s)] elements: the first [n] elements of
    [s], or all of [s] followed by [n - len(s)] zero runes when [n] exceeds
    the length and stays within the capacity; a panic beyond the
    capacity.  A suffix [runes[j:]] has the same spare room as [runes]. *)
Definition slice_to (room : nat) (s : text) (n : nat) : option text :=
  if n <=? length s then Some (firstn n s)
  else if n - length s <=? room then Some (s ++ repeat 0%Z (n - length s))
  else None.

(** [strings.Split(s, "\n")]. *)
Fixpoint Split (s : text) : list text :=
  match s with
  | [] => [[]]
  | c :: tl =>
      if c == NL then [] :: Split tl
      else match Split tl with
           | l :: ls => (c :: l) :: ls
           | [] => [[c]]
           end
  end.

Definition is_blank (c : rune) : bool := (c == SP) || (c == HT).

(** [strings.TrimRight(s, cutset)] for a cutset given as a predicate. *)
Fixpoint TrimRightFunc (cut : rune -> bool) (s : text) : text :=
  match s with
  | [] => []
  | c :: tl =>
      match TrimRightFunc cut tl with
      | [] => if cut c then [] else [c]
      | t => c :: t
      end
  end.

Fixpoint TrimLeftFunc (cut : rune -> bool) (s : text) : text :=
  match s with
  | [] => []
  | c :: tl => if cut c then TrimLeftFunc cut tl else s
  end.

(** [strings.TrimRight(s, " \t")]. *)
Definition TrimRight (s : text) : text := TrimRightFunc is_blank s.

(** [unicode.IsSpace]. *)
Definition IsSpace (r : rune) : bool :=
  (((9 <=? r) && (r <=? 13)) || (r == 32) || (r == 133) || (r == 160)
   || (r == 5760) || ((8192 <=? r) && (r <=? 8202))
   || (r == 8232) || (r == 8233) || (r == 8239) || (r == 8287) || (r == 12288))%Z.

(** [strings.TrimSpace]. *)
Definition TrimSpace (s : text) : text :=
  TrimRightFunc IsSpace (TrimLeftFunc IsSpace s).

Fixpoint text_eqb (a b : text) : bool :=
  match a, b with
  | [], [] => true
  | x :: a', y :: b' => (x == y) && text_eqb a' b'
  | _, _ => false
  end.

Fixpoint takeWhile (p : rune -> bool) (s : text) : text :=
  match s with
  | [] => []
  | c :: tl => if p c then c :: takeWhile p tl else []
  end.

Fixpoint dropWhile (p : rune -> bool) (s : text) : text :=
  match s with
  | [] => []
  | c :: tl => if p c then dropWhile p tl else s
  end.

(** The line terminator the line loops write: nothing after the last line
    ([i < len(lines)-1] fails), a newline otherwise. *)
Definition eol (last : bool) : text := if last then [] else [NL].

Definition count_nl (s : text) : nat := length (filter (fun c => c == NL) s).

(** A document given line by line (joined with newlines), for examples. *)
Fixpoint doc (ls : list text) : text :=
  match ls with
  | [] => []
  | [l] => l
  | l :: rest => l ++ NL :: doc rest
  end.

(** The loop [for i, line := range lines] with the cross-line state [S]
    threaded through; [body] receives whether the line is the last one and
    returns what it appended to [result]. *)
Fixpoint for_lines (S : Type) (body : S -> bool -> text -> text * S)
    (st : S) (lines : list text) : text * S :=
  match lines with
  | [] => ([], st)
  | line :: rest =>
      let '(out, st1) := body st (match rest with [] => true | _ => false end) line in
      let '(outs, st2) := for_lines body st1 rest in
      (out ++ outs, st2)
  end.

(** The same loop for a body that can panic. *)
Fixpoint for_lines_opt (S : Type) (body : S -> bool -> text -> option (text * S))
    (st : S) (lines : list text) : option (text * S) :=
  match lines with
  | [] => Some ([], st)
  | line :: rest =>
      match body st (match rest with [] => true | _ => false end) line with
      | None => None
      | Some (out, st1) =>
          match for_lines_opt body st1 rest with
          | None => None
          | Some (outs, st2) => Some (out ++ outs, st2)
          end
      end
  end.

Definition emit (A : Type) (c : rune) (r : text * A) : text * A :=
  (c :: fst r, snd r).

Definition emits (A : Type) (s : text) (r : text * A) : text * A :=
  (s ++ fst r, snd r).

Definition emit_opt (A : Type) (c : rune) (r : option (text * A)) : option (text * A) :=
  option_map (emit c) r.

Definition emits_opt (A : Type) (s : text) (r : option (text * A)) : option (text * A) :=
  option_map (emits s) r.

(* ------------------------------------------------------------------ *)
(** ** comments_yaml.go: removeYAMLComments *)

(** The character loop of one line ([for j := 0; j < len(runes); j++]);
    the arguments are the loop's locals and [runes[j:]]. *)
Fixpoint yaml_scan (inString : bool) (stringDelim : rune) (escaped : bool)
    (runes : text) : text :=
  match runes with
  | [] => []
  | ch :: tl =>
      if escaped then ch :: yaml_scan inString stringDelim false tl
      else if (ch == BSLASH) && inString && (stringDelim == DQUOTE) then
        ch :: yaml_scan inString stringDelim true tl
      else
        match tl with
        | c1 :: tl1 =>
            if inString && (stringDelim == SQUOTE) && (ch == SQUOTE) && (c1 == SQUOTE) then
              ch :: c1 :: yaml_scan inString stringDelim false tl1
            else if ((ch == DQUOTE) || (ch == SQUOTE)) && negb inString then
              ch :: yaml_scan true ch false tl
            else if inString && (ch == stringDelim) then
              ch :: yaml_scan false 0%Z false tl
            else if inString then ch :: yaml_scan inString stringDelim false tl
            else if ch == HASH then []
            else ch :: yaml_scan inString stringDelim false tl
        | [] =>
            if ((ch == DQUOTE) || (ch == SQUOTE)) && negb inString then
              ch :: yaml_scan true ch false tl
            else if inString && (ch == stringDelim) then
              ch :: yaml_scan false 0%Z false tl
            else if inString then ch :: yaml_scan inString stringDelim false tl
            else if ch == HASH then []
            else ch :: yaml_scan inString stringDelim false tl
        end
  end.

Definition yaml_line (st : unit) (last : bool) (line : text) : text * unit :=
  (TrimRight (yaml_scan false 0%Z false line) ++ eol last, st).

Definition removeYAMLComments (content : text) : text :=
  fst (for_lines yaml_line tt (Split content)).

(* ------------------------------------------------------------------ *)
(** ** removeGoComments *)

Record go_state := GoState {
  go_inBlockComment : bool;
  go_inRawStringMultiline : bool
}.

(** The character loop of one line.  The result is [cleaned] and the values
    the loop leaves in [inBlockComment] and [inRawStringMultiline] (both are
    false when the loop is entered). *)
Fixpoint go_scan (fuel : nat) (inString inRawString inRune escaped : bool)
    (runes : text) : text * go_state :=
  match fuel with
  | O => ([], GoState false false)
  | S fuel' =>
    match runes with
    | [] => ([], GoState false false)
    | ch :: tl =>
        if escaped then emit ch (go_scan fuel' inString inRawString inRune false tl)
        else if (ch == BSLASH) && (inString || inRune) then
          emit ch (go_scan fuel' inString inRawString inRune true tl)
        else if (ch == BTICK) && negb inString && negb inRune then
          if negb inRawString then
            match index [BTICK] tl with
            | None => (ch :: tl, GoState false true)
            | Some _ => emit ch (go_scan fuel' inString true inRune false tl)
            end
          else emit ch (go_scan fuel' inString false inRune false tl)
        else if (ch == SQUOTE) && negb inString && negb inRawString then
          emit ch (go_scan fuel' inString inRawString (negb inRune) false tl)
        else if (ch == DQUOTE) && negb inRawString && negb inRune then
          emit ch (go_scan fuel' (negb inString) inRawString inRune false tl)
        else if inString || inRawString || inRune then
          emit ch (go_scan fuel' inString inRawString inRune false tl)
        else if has_prefix [SLASH; STAR] runes then
          match byte_index [STAR; SLASH] (skipn 2 runes) with
          | Some endIdx =>
              go_scan fuel' inString inRawString inRune false (skipn (endIdx + 4) runes)
          | None => ([], GoState true false)
          end
        else if has_prefix [SLASH; SLASH] runes then ([], GoState false false)
        else emit ch (go_scan fuel' inString inRawString inRune false tl)
    end
  end.

(** From [var cleaned strings.Builder] to the end of the loop body;
    [written] is what the body already appended to [result]. *)
Definition go_normal (written : text) (last : bool) (line : text) : text * go_state :=
  let '(cleaned, st) := go_scan (length line) false false false false line in
  (written ++ TrimRight cleaned ++ eol last, st).

(** The block-comment continuation followed by the rest of the body. *)
Definition go_block (written : text) (inBlockComment : bool) (last : bool)
    (line : text) : text * go_state :=
  if inBlockComment then
    match index [STAR; SLASH] line with
    | Some idx => go_normal written last (skipn (idx + 2) line)
    | None => (written ++ [NL], GoState true false)
    end
  else go_normal written last line.

Definition go_line (st : go_state) (last : bool) (line : text) : text * go_state :=
  if go_inRawStringMultiline st then
    match index [BTICK] line with
    | Some idx =>
        go_block (firstn (idx + 1) line) (go_inBlockComment st) last (skipn (idx + 1) line)
    | None => (line ++ eol last, st)
    end
  else go_block [] (go_inBlockComment st) last line.

Definition go_run (content : text) : text * go_state :=
  for_lines go_line (GoState false false) (Split content).

Definition removeGoComments (content : text) : text := fst (go_run content).

(* ------------------------------------------------------------------ *)
(** ** removeJSComments *)

Record js_state := JsState {
  js_inBlockComment : bool;
  js_inTemplateLiteralMultiline : bool
}.

(** [escapeCount]: the backslashes immediately before a position, counted
    backwards; [before] is the text before the position, nearest rune
    first. *)
Definition escapeCount (before : text) : nat :=
  length (takeWhile (fun c => c == BSLASH) before).

(** The search for a backtick preceded by an even number of backslashes,
    used both for the look-ahead on the opening line and for the lines of a
    multi-line template literal. *)
Fixpoint js_find_close (before : text) (rest : text) : bool :=
  match rest with
  | [] => false
  | c :: tl =>
      if (c == BTICK) && Nat.even (escapeCount before) then true
      else js_find_close (c :: before) tl
  end.

Fixpoint js_scan (fuel : nat) (inString inTemplateLiteral : bool) (stringChar : rune)
    (escaped : bool) (runes : text) : text * js_state :=
  match fuel with
  | O => ([], JsState false false)
  | S fuel' =>
    match runes with
    | [] => ([], JsState false false)
    | ch :: tl =>
        if escaped then emit ch (js_scan fuel' inString inTemplateLiteral stringChar false tl)
        else if (ch == BSLASH) && (inString || inTemplateLiteral) then
          emit ch (js_scan fuel' inString inTemplateLiteral stringChar true tl)
        else if negb inTemplateLiteral && ((ch == DQUOTE) || (ch == SQUOTE)) then
          if negb inString then emit ch (js_scan fuel' true inTemplateLiteral ch false tl)
          else if ch == stringChar then
            emit ch (js_scan fuel' false inTemplateLiteral 0%Z false tl)
          else emit ch (js_scan fuel' inString inTemplateLiteral stringChar false tl)
        else if (ch == BTICK) && negb inString then
          if negb inTemplateLiteral then
            if js_find_close [] tl then
              emit ch (js_scan fuel' inString true stringChar false tl)
            else (runes, JsState false true)
          else emit ch (js_scan fuel' inString false stringChar false tl)
        else if inString || inTemplateLiteral then
          emit ch (js_scan fuel' inString inTemplateLiteral stringChar false tl)
        else if has_prefix [SLASH; STAR] runes then
          match byte_index [STAR; SLASH] (skipn 2 runes) with
          | Some endIdx =>
              js_scan fuel' inString inTemplateLiteral stringChar false
                (skipn (endIdx + 4) runes)
          | None => ([], JsState true false)
          end
        else if has_prefix [SLASH; SLASH] runes then ([], JsState false false)
        else emit ch (js_scan fuel' inString inTemplateLiteral stringChar false tl)
    end
  end.

(** From [var cleaned strings.Builder] to the end of the loop body: when the
    loop left [inTemplateLiteralMultiline] set, [cleaned] is not written. *)
Definition js_normal (last : bool) (line : text) : text * js_state :=
  let '(cleaned, st) := js_scan (length line) false false 0%Z false line in
  ((if js_inTemplateLiteralMultiline st then [] else TrimRight cleaned) ++ eol last, st).

Definition js_line (st : js_state) (last : bool) (line : text) : text * js_state :=
  if js_inTemplateLiteralMultiline st then
    (line ++ eol last,
     JsState (js_inBlockComment st) (negb (js_find_close [] line)))
  else if js_inBlockComment st then
    match index [STAR; SLASH] line with
    | Some idx => js_normal last (skipn (idx + 2) line)
    | None => ([NL], JsState true false)
    end
  else js_normal last line.

Definition js_run (content : text) : text * js_state :=
  for_lines js_line (JsState false false) (Split content).

Definition removeJSComments (content : text) : text := fst (js_run content).

(* ------------------------------------------------------------------ *)
(** ** removePythonComments *)

(** Cross-line state: [inMultilineString] and [multilineDelim]. *)
Definition py_state : Type := bool * text.

Definition is_triple (runes : text) : bool :=
  has_prefix [SQUOTE; SQUOTE; SQUOTE] runes || has_prefix [DQUOTE; DQUOTE; DQUOTE] runes.

(** The loop [for j < len(runes)], entered with the runes from [j] on;
    [room] is the spare capacity of [runes]. *)
Fixpoint py_scan (room : nat) (fuel : nat) (inString : bool) (stringDelim : rune)
    (escaped : bool) (runes : text) : option (text * py_state) :=
  match fuel with
  | O => Some ([], (false, []))
  | S fuel' =>
    match runes with
    | [] => Some ([], (false, []))
    | ch :: tl =>
        if escaped then emit_opt ch (py_scan room fuel' inString stringDelim false tl)
        else if (ch == BSLASH) && inString then
          emit_opt ch (py_scan room fuel' inString stringDelim true tl)
        else if negb inString && (2 <? length runes) && is_triple runes then
          let multilineDelim := firstn 3 runes in
          match byte_index multilineDelim (skipn 3 runes) with
          | Some endIdx =>
              match slice_to room runes (3 + endIdx + 3) with
              | Some s =>
                  emits_opt s
                    (py_scan room fuel' inString stringDelim false (skipn (3 + endIdx + 3) runes))
              | None => None
              end
          | None => Some (runes, (true, multilineDelim))
          end
        else if ((ch == DQUOTE) || (ch == SQUOTE)) && negb inString then
          emit_opt ch (py_scan room fuel' true ch false tl)
        else if inString && (ch == stringDelim) then
          emit_opt ch (py_scan room fuel' false 0%Z false tl)
        else if inString then emit_opt ch (py_scan room fuel' inString stringDelim false tl)
        else if ch == HASH then Some ([], (false, []))
        else emit_opt ch (py_scan room fuel' inString stringDelim false tl)
    end
  end.

Definition py_line {rt : GoRuntime} (st : py_state) (last : bool) (line : text)
  : option (text * py_state) :=
  let '(inMultilineString, multilineDelim) := st in
  if inMultilineString then
    Some (line ++ eol last,
          match index multilineDelim line with
          | Some _ => (false, [])
          | None => (true, multilineDelim)
          end)
  else
    match py_scan (rune_cap (length line) - length line) (length line)
            false 0%Z false line with
    | None => None
    | Some (cleaned, st') =>
        Some ((if fst st' then [] else TrimRight cleaned) ++ eol last, st')
    end.

Definition py_run {rt : GoRuntime} (content : text) : option (text * py_state) :=
  for_lines_opt py_line (false, []) (Split content).

Definition removePythonComments {rt : GoRuntime} (content : text) : option text :=
  option_map fst (py_run content).

(* ------------------------------------------------------------------ *)
(** ** removeRustComments *)

(** Cross-line state: [inBlockComment] and [blockCommentDepth]. *)
Definition rust_state : Type := bool * Z.

(** The nesting scan, written twice in the source (over the bytes of a
    continuation line and over [runes[j+2:]] on the opening line) with the
    same steps: the text after the [*/] that brings the depth to 0, or
    nothing and the depth reached at the end of the line. *)
Fixpoint rust_block (depth : Z) (line : text) : option text * Z :=
  match line with
  | [] => (None, depth)
  | c :: rest =>
      match rest with
      | c2 :: rest2 =>
          if (c == SLASH) && (c2 == STAR) then rust_block (depth + 1) rest2
          else if (c == STAR) && (c2 == SLASH) then
            if (depth - 1 == 0)%Z then (Some rest2, (depth - 1)%Z)
            else rust_block (depth - 1) rest2
          else rust_block depth rest
      | [] => rust_block depth rest
      end
  end.

(** The raw-string look-ahead at an [r], on [runes[j+1:]]: the number of
    hashes and, when a double quote follows them, the text after that
    quote. *)
Definition rust_raw_open (tl : text) : option (nat * text) :=
  let hashCount := length (takeWhile (fun c => c == HASH) tl) in
  match skipn hashCount tl with
  | q :: body => if q == DQUOTE then Some (hashCount, body) else None
  | [] => None
  end.

(** The loop [for j < len(runes)], entered with the runes from [j] on;
    [room] is the spare capacity of [runes]. *)
Fixpoint rust_scan (room : nat) (fuel : nat) (inString inRawString inChar escaped : bool)
    (depth : Z) (runes : text) : option (text * rust_state) :=
  match fuel with
  | O => Some ([], (false, depth))
  | S fuel' =>
    match runes with
    | [] => Some ([], (false, depth))
    | ch :: tl =>
        if escaped then emit_opt ch (rust_scan room fuel' inString inRawString inChar false depth tl)
        else if (ch == BSLASH) && (inString || inChar) then
          emit_opt ch (rust_scan room fuel' inString inRawString inChar true depth tl)
        else
          match (if negb inString && negb inChar && (ch == LOWER_R) && (1 <? length runes)
                 then rust_raw_open tl else None) with
          | Some (hashCount, body) =>
              let delimiter := DQUOTE :: repeat HASH hashCount in
              emits_opt (firstn (hashCount + 2) runes)
                match byte_index delimiter body with
                | Some endIdx =>
                    match slice_to room body (endIdx + length delimiter) with
                    | Some s =>
                        emits_opt s
                          (rust_scan room fuel' inString false inChar false depth
                             (skipn (endIdx + length delimiter) body))
                    | None => None
                    end
                | None => Some (body, (false, depth))
                end
          | None =>
              if (ch == SQUOTE) && negb inString && negb inRawString then
                emit_opt ch (rust_scan room fuel' inString inRawString (negb inChar) false depth tl)
              else if (ch == DQUOTE) && negb inRawString && negb inChar then
                emit_opt ch (rust_scan room fuel' (negb inString) inRawString inChar false depth tl)
              else if inString || inRawString || inChar then
                emit_opt ch (rust_scan room fuel' inString inRawString inChar false depth tl)
              else if has_prefix [SLASH; STAR] runes then
                match rust_block 1 (skipn 2 runes) with
                | (Some rest, d) => rust_scan room fuel' inString inRawString inChar false d rest
                | (None, d) => Some ([], (true, d))
                end
              else if has_prefix [SLASH; SLASH] runes then Some ([], (false, depth))
              else emit_opt ch (rust_scan room fuel' inString inRawString inChar false depth tl)
          end
    end
  end.

Definition rust_normal {rt : GoRuntime} (last : bool) (depth : Z) (line : text)
  : option (text * rust_state) :=
  match rust_scan (rune_cap (length line) - length line) (length line)
          false false false false depth line with
  | None => None
  | Some (cleaned, st') => Some (TrimRight cleaned ++ eol last, st')
  end.

Definition rust_line {rt : GoRuntime} (st : rust_state) (last : bool) (line : text)
  : option (text * rust_state) :=
  let '(inBlockComment, blockCommentDepth) := st in
  if inBlockComment then
    match rust_block blockCommentDepth line with
    | (Some rest, d) => rust_normal last d rest
    | (None, d) => Some ([NL], (true, d))
    end
  else rust_normal last blockCommentDepth line.

Definition rust_run {rt : GoRuntime} (content : text) : option (text * rust_state) :=
  for_lines_opt rust_line (false, 0%Z) (Split content).

Definition removeRustComments {rt : GoRuntime} (content : text) : option text :=
  option_map fst (rust_run content).

(* ------------------------------------------------------------------ *)
(** ** comments_terraform.go: removeTerraformComments *)

Definition isAlphanumeric (r : rune) : bool :=
  (((97 <=? r) && (r <=? 122)) || ((65 <=? r) && (r <=? 90))
   || ((48 <=? r) && (r <=? 57)))%Z.

Definition is_delim_rune (r : rune) : bool := isAlphanumeric r || (r == UNDERSCORE).

Definition not_nl (r : rune) : bool := negb (r == NL).

(** The inner loop of a double-quoted string, entered after the opening
    quote: what it writes and where the outer loop resumes. *)
Fixpoint tf_string (runes : text) : text * text :=
  match runes with
  | [] => ([], [])
  | c :: tl =>
      if c == BSLASH then
        match tl with
        | c1 :: tl1 => let '(s, rest) := tf_string tl1 in (c :: c1 :: s, rest)
        | [] => ([c], [])
        end
      else if c == DQUOTE then ([c], tl)
      else let '(s, rest) := tf_string tl in (c :: s, rest)
  end.

(** The loop that copies a heredoc, entered right after the delimiter has
    been read on the trigger line. *)
Fixpoint tf_heredoc (fuel : nat) (delimiterStr : text) (runes : text) : text * text :=
  match fuel with
  | O => ([], runes)
  | S fuel' =>
    match runes with
    | [] => ([], [])
    | _ :: _ =>
        let line := takeWhile not_nl runes in
        let rest := dropWhile not_nl runes in
        if text_eqb (TrimSpace line) delimiterStr then
          match rest with
          | nl :: rest' => (line ++ [nl], rest')
          | [] => (line, [])
          end
        else
          match rest with
          | nl :: rest' => emits (line ++ [nl]) (tf_heredoc fuel' delimiterStr rest')
          | [] => (line, [])
          end
    end
  end.

(** The loop that skips a block comment, entered after the opening token. *)
Fixpoint tf_skip_block (runes : text) : text :=
  match runes with
  | [] => []
  | c :: tl =>
      match tl with
      | c1 :: tl1 => if (c == STAR) && (c1 == SLASH) then tl1 else tf_skip_block tl
      | [] => tf_skip_block tl
      end
  end.

(** The comment checks and the regular-character case of the main loop, at
    [runes[i:]]: what is written and where the next iteration starts.
    [runes[i]] is read without a bounds check: it panics ([None]) when the
    failed heredoc probe has moved [i] to the end. *)
Definition tf_tail (runes : text) : option (text * text) :=
  match runes with
  | [] => None
  | c :: tl =>
      if c == HASH then Some ([], dropWhile not_nl runes)
      else if has_prefix [SLASH; SLASH] runes then Some ([], dropWhile not_nl runes)
      else if has_prefix [SLASH; STAR] runes then Some ([], tf_skip_block (skipn 2 runes))
      else Some ([c], tl)
  end.

(** One iteration of the main loop [for i < len(runes)], at [runes[i:]]
    (not empty). *)
Definition tf_step (runes : text) : option (text * text) :=
  match runes with
  | [] => Some ([], [])
  | c :: tl =>
      if c == DQUOTE then
        let '(s, rest) := tf_string tl in Some (c :: s, rest)
      else if (2 <? length runes) && has_prefix [LESS; LESS] runes then
        let r1 := skipn 2 runes in
        let r2 := if has_prefix [MINUS] r1 then skipn 1 r1 else r1 in
        let delimiter := takeWhile is_delim_rune r2 in
        let r3 := dropWhile is_delim_rune r2 in
        if 0 <? length delimiter then
          let '(body, r4) := tf_heredoc (length r3) delimiter r3 in
          Some (firstn (length runes - length r3) runes ++ body, r4)
        else tf_tail r2
      else tf_tail runes
  end.

Fixpoint tf_main (fuel : nat) (runes : text) : option text :=
  match fuel with
  | O => Some []
  | S fuel' =>
    match runes with
    | [] => Some []
    | _ :: _ =>
        match tf_step runes with
        | None => None
        | Some (out, rest) => option_map (app out) (tf_main fuel' rest)
        end
    end
  end.

Definition removeTerraformComments (code : text) : option text :=
  tf_main (length code) code.

(* ------------------------------------------------------------------ *)
(** ** collapseExcessiveNewlines *)

(** The class [\s] of Go's regexp syntax: tab, newline, form feed, carriage
    return and space. *)
Definition re_space (r : rune) : bool :=
  (r == HT) || (r == NL) || (r == FF) || (r == CR) || (r == SP).

(** [\s*\n] matched at the head of [s] the way a backtracking matcher with a
    greedy star does (Go's leftmost-first semantics): the text after the
    match. *)
Fixpoint re_spaces_nl (s : text) : option text :=
  match s with
  | [] => None
  | c :: tl =>
      if re_space c then
        match re_spaces_nl tl with
        | Some r => Some r
        | None => if c == NL then Some tl else None
        end
      else None
  end.

(** The pattern [\n\s+\n] matched at the head of [s]. *)
Definition re_match_here (s : text) : option text :=
  match s with
  | c :: c1 :: tl => if (c == NL) && re_space c1 then re_spaces_nl tl else None
  | _ => None
  end.

(** [re.Match]: the pattern matches somewhere. *)
Fixpoint re_Match (s : text) : bool :=
  match s with
  | [] => false
  | _ :: tl => match re_match_here s with Some _ => true | None => re_Match tl end
  end.

(** [re.ReplaceAllString(content, "\n")]: the leftmost matches, none
    overlapping, each replaced by one newline. *)
Fixpoint re_ReplaceAll (fuel : nat) (s : text) : text :=
  match fuel with
  | O => s
  | S fuel' =>
    match s with
    | [] => []
    | c :: tl =>
        match re_match_here s with
        | Some rest => NL :: re_ReplaceAll fuel' rest
        | None => c :: re_ReplaceAll fuel' tl
        end
    end
  end.

(** The loop [for re.Match(content) { content = re.ReplaceAllString(...) }]. *)
Fixpoint collapse_loop (fuel : nat) (content : text) : text :=
  match fuel with
  | O => content
  | S fuel' =>
      if re_Match content
      then collapse_loop fuel' (re_ReplaceAll (length content) content)
      else content
  end.

Definition collapseExcessiveNewlines (content : text) : text :=
  collapse_loop (length content) content.

(* ------------------------------------------------------------------ *)
(** ** main.go: processFile and the file loop of run *)

(** [filepath.Ext]: the suffix beginning at the final dot in the final
    element of the path, empty if there is no dot. *)
Fixpoint ext_from_end (rev_path : list ascii) (suffix : list ascii) : list ascii :=
  match rev_path with
  | [] => []
  | c :: before =>
      if Ascii.eqb c "/"%char then []
      else if Ascii.eqb c "."%char then c :: suffix
      else ext_from_end before (c :: suffix)
  end.

Definition Ext (path : string) : string :=
  string_of_list_ascii (ext_from_end (rev (list_ascii_of_string path)) []).

Inductive error : Type :=
| ErrReadFile
| ErrUnsupportedFileType (Extension : string)
| ErrWriteFile.

(** What running a piece of Go code gives: a value, or a run-time panic. *)
Inductive run_result (A : Type) : Type :=
| Returns (a : A)
| Panics.
Arguments Panics {A}.


(** The [switch ext] of processFile: the cleaned text, or the error of the
    default case. *)
Definition clean_by_ext {rt : GoRuntime} (ext : string) (content : text)
  : run_result (error + text) :=
  if (ext =? ".js")%string || (ext =? ".ts")%string
     || (ext =? ".jsx")%string || (ext =? ".tsx")%string then
    Returns (inr (removeJSComments content))
  else if (ext =? ".go")%string then Returns (inr (removeGoComments content))
  else if (ext =? ".py")%string then
    match removePythonComments content with Some c => Returns (inr c) | None => Panics end
  else if (ext =? ".rs")%string then
    match removeRustComments content with Some c => Returns (inr c) | None => Panics end
  else if (ext =? ".tf")%string || (ext =? ".tfvars")%string then
    match removeTerraformComments content with Some c => Returns (inr c) | None => Panics end
  else if (ext =? ".yaml")%string || (ext =? ".yml")%string then
    Returns (inr (removeYAMLComments content))
  else Returns (inl (ErrUnsupportedFileType ext)).

(** The files the program can see: the content of every readable path, and
    whether a path can be written. *)
Record world := World {
  contents : string -> option text;
  writable : string -> bool
}.

Definition write_file (w : world) (path : string) (data : text) : world :=
  World (fun p => if (p =? path)%string then Some data else contents w p) (writable w).

(** processFile: the error it returns ([None] is Go's [nil]) and the world it
    leaves. *)
Definition processFile {rt : GoRuntime} (w : world) (inputPath : string)
  : run_result (option error * world) :=
  match contents w inputPath with
  | None => Returns (Some ErrReadFile, w)
  | Some content =>
      match clean_by_ext (Ext inputPath) content with
      | Panics => Panics
      | Returns (inl e) => Returns (Some e, w)
      | Returns (inr cleaned) =>
          if writable w inputPath then Returns (None, write_file w inputPath cleaned)
          else Returns (Some ErrWriteFile, w)
      end
  end.

Section Run.

Context {rt : GoRuntime}.

(** The collaborators of the file loop: the git-ignore probe and the
    decision of the timestamp cache (with [config.ForceProcess] and the
    cache-failure fallback folded in). *)
Variable isGitIgnored : string -> bool.
Variable shouldProcess : string -> bool.

(** The loop [for _, file := range config.Files] of [run] (not in
    cache-only mode): the files handed on to the batches, the number of
    skipped files, and the world. *)
Fixpoint run_files (w : world) (files : list string) (processedFiles : list string)
    (skippedFiles : nat) : run_result (list string * nat * world) :=
  match files with
  | [] => Returns (processedFiles, skippedFiles, w)
  | file :: rest =>
      if isGitIgnored file then run_files w rest processedFiles (S skippedFiles)
      else if negb (shouldProcess file) then run_files w rest processedFiles (S skippedFiles)
      else
        match processFile w file with
        | Panics => Panics
        | Returns (Some (ErrUnsupportedFileType _), w') =>
            run_files w' rest processedFiles (S skippedFiles)
        | Returns (Some _, w') => run_files w' rest processedFiles skippedFiles
        | Returns (None, w') => run_files w' rest (processedFiles ++ [file]) skippedFiles
        end
  end.

End Run.

(* ================================================================== *)
(** * More of the program *)

(* ------------------------------------------------------------------ *)
(** ** main.go: formatFile *)

(** The command that the [switch ext] of formatFile builds, as the
    argument vector of [exec.Command]; [None] is the default case. *)
Definition formatter_command (file : string) : option (list string) :=
  let ext := Ext file in
  if (ext =? ".go")%string then Some ["go"; "fmt"; file]%string
  else if (ext =? ".js")%string || (ext =? ".ts")%string
          || (ext =? ".jsx")%string || (ext =? ".tsx")%string then
    Some ["biome"; "format"; "--write"; file]%string
  else if (ext =? ".py")%string then Some ["ruff"; "format"; file]%string
  else if (ext =? ".rs")%string then Some ["rustfmt"; file]%string
  else if (ext =? ".tf")%string || (ext =? ".tfvars")%string then
    Some ["terraform"; "fmt"; file]%string
  else if (ext =? ".yaml")%string || (ext =? ".yml")%string then
    Some ["yamlfmt"; file]%string
  else None.

Inductive format_error : Type :=
| ErrFormatterFailed.

(** formatFile, with [run] telling whether a command exits without error
    ([cmd.CombinedOutput]). *)
Definition formatFile (run : list string -> bool) (file : string) : option format_error :=
  match formatter_command file with
  | None => None
  | Some cmd => if run cmd then None else Some ErrFormatterFailed
  end.

(* ------------------------------------------------------------------ *)
(** ** main.go: processBatches *)

Inductive batches_error (E : Type) : Type :=
| ErrBatchProcessingFailed (err : E).

Section Batches.

(** The collaborators: [processBatch] (which runs Claude on the files of a
    batch and changes the files), [cache.markProcessed] with its warning
    dropped, and [cache.save] with its warning dropped, over the state
    [St] of the files and the cache. *)
Variable St E : Type.
Variable processBatch : St -> list string -> option E * St.
Variable markProcessed : St -> string -> St.
Variable save : St -> St.

(** The loop [for i := 0; i < len(files); i += batchSize], entered with the
    value of [i].  [files[i:end]] panics when [end < i], and the argument
    [i/batchSize] of the Printf panics when [batchSize] is 0.  The indices
    are Go ints; they stay below twice the number of files, so they are
    modelled without wrap-around. *)
Fixpoint processBatches_loop (fuel : nat) (files : list string) (batchSize : Z) (i : Z)
    (st : St) : run_result (option (batches_error E) * St) :=
  match fuel with
  | O => Returns (None, st)
  | S fuel' =>
      if (i <? Z.of_nat (length files))%Z then
        let end_ := Z.min (i + batchSize) (Z.of_nat (length files)) in
        if (end_ <? i)%Z then Panics
        else
          let batch := firstn (Z.to_nat (end_ - i)) (skipn (Z.to_nat i) files) in
          if (batchSize =? 0)%Z then Panics
          else
            match processBatch st batch with
            | (Some err, st') => Returns (Some (ErrBatchProcessingFailed err), st')
            | (None, st') =>
                processBatches_loop fuel' files batchSize (i + batchSize)
                  (save (fold_left markProcessed batch st'))
            end
      else Returns (None, st)
  end.

Definition processBatches (files : list string) (batchSize : Z) (st : St)
  : run_result (option (batches_error E) * St) :=
  processBatches_loop (S (length files)) files batchSize 0 st.

End Batches.

(* ------------------------------------------------------------------ *)
(** ** main.go: the timestamp cache *)

(** [FileCache]: the map [ProcessedFiles] from the path relative to the
    repository root to the modification time recorded for it.  A
    [time.Time] that [os.Stat] returns is an instant without monotonic
    reading; it is modelled as a number ([After] is [>]). *)
Record FileCache := Build_FileCache {
  ProcessedFiles : string -> option Z
}.

(** [make(map[string]time.Time)]. *)
Definition empty_cache : FileCache := Build_FileCache (fun _ => None).

Inductive cache_error : Type :=
| ErrStat
| ErrRelativePath.

Section Cache.

(** The collaborators: [os.Stat] followed by [info.ModTime()] ([None] when
    the stat fails), and [toRelativePath] ([None] when it fails). *)
Variable ModTime : string -> option Z.
Variable toRelativePath : string -> option string.

(** [(c *FileCache) shouldProcess]. *)
Definition shouldProcess (c : FileCache) (filePath : string) : bool * option cache_error :=
  match ModTime filePath with
  | None => (false, Some ErrStat)
  | Some modTime =>
      match toRelativePath filePath with
      | None => (false, Some ErrRelativePath)
      | Some relPath =>
          match ProcessedFiles c relPath with
          | None => (true, None)
          | Some lastProcessed => ((lastProcessed <? modTime)%Z, None)
          end
      end
  end.

(** [(c *FileCache) markProcessed]: the error, and the cache afterwards. *)
Definition markProcessed (c : FileCache) (filePath : string) : option cache_error * FileCache :=
  match ModTime filePath with
  | None => (Some ErrStat, c)
  | Some modTime =>
      match toRelativePath filePath with
      | None => (Some ErrRelativePath, c)
      | Some relPath =>
          (None,
           Build_FileCache
             (fun k => if (k =? relPath)%string then Some modTime
                       else ProcessedFiles c k))
      end
  end.

(** The decision of the file loop of [run]: [config.ForceProcess], or the
    answer of the cache, or [true] when the cache check fails. *)
Definition run_shouldProcess (ForceProcess : bool) (c : FileCache) (file : string) : bool :=
  if ForceProcess then true
  else match shouldProcess c file with
       | (_, Some _) => true
       | (answer, None) => answer
       end.

(** The loop of [run] in cache-only mode: the cache and [cachedCount]. *)
Fixpoint run_cache_only_loop (isGitIgnored : string -> bool) (c : FileCache)
    (files : list string) (cachedCount : nat) : FileCache * nat :=
  match files with
  | [] => (c, cachedCount)
  | file :: rest =>
      if isGitIgnored file then run_cache_only_loop isGitIgnored c rest cachedCount
      else
        match markProcessed c file with
        | (Some _, _) => run_cache_only_loop isGitIgnored c rest cachedCount
        | (None, c') => run_cache_only_loop isGitIgnored c' rest (S cachedCount)
        end
  end.

End Cache.

Inductive run_error : Type :=
| ErrNoFilesCached
| ErrSaveCache.

(** [run] in cache-only mode, after the cache is loaded; [save] tells
    whether [cache.save] succeeds.  The result is the error and the cache
    that was saved, if one was. *)
Definition run_cache_only (ModTime : string -> option Z)
    (toRelativePath : string -> option string) (isGitIgnored : string -> bool)
    (save : FileCache -> bool) (cache : FileCache) (files : list string)
  : option run_error * option FileCache :=
  let '(c, cachedCount) :=
    run_cache_only_loop ModTime toRelativePath isGitIgnored cache files 0 in
  if (cachedCount =? 0)%nat then (Some ErrNoFilesCached, None)
  else if save c then (None, Some c)
  else (Some ErrSaveCache, None).

(* ------------------------------------------------------------------ *)
(** ** main.go: getStagedFiles *)

Inductive staged_error : Type :=
| ErrGitDiff
| ErrNoStagedFiles.

Definition is_empty (s : text) : bool :=
  match s with [] => true | _ :: _ => false end.

(** getStagedFiles, given what [git diff --staged --name-only] printed
    ([None] when the command fails). *)
Definition getStagedFiles (git_output : option text) : staged_error + list text :=
  match git_output with
  | None => inl ErrGitDiff
  | Some output =>
      let lines := Split (TrimSpace output) in
      let files := filter (fun line => negb (is_empty line)) (map TrimSpace lines) in
      match files with
      | [] => inl ErrNoStagedFiles
      | _ :: _ => inr files
      end
  end.

(* ------------------------------------------------------------------ *)
(** ** main.go: findGitRoot *)

Inductive git_root_error : Type :=
| ErrGetwd
| ErrNotInGitRepository.

Section GitRoot.

(** A clean absolute path is the list of its elements, the root directory
    the empty list: [filepath.Join(dir, name)] adds an element and
    [filepath.Dir] drops the last one and gives the root for the root.
    [isDir path] tells whether [os.Stat(path)] succeeds on a directory. *)
Variable isDir : list string -> bool.

(** The loop [for { ... }] of findGitRoot, entered with [dir]. *)
Fixpoint findGitRoot_loop (fuel : nat) (dir : list string) : option (list string) :=
  match fuel with
  | O => None
  | S fuel' =>
      let gitDir := dir ++ [".git"%string] in
      if isDir gitDir then Some dir
      else
        let parent := removelast dir in
        if list_eq_dec string_dec parent dir then None
        else findGitRoot_loop fuel' parent
  end.

(** findGitRoot, given what [os.Getwd] returns. *)
Definition findGitRoot (getwd : option (list string)) : git_root_error + list string :=
  match getwd with
  | None => inl ErrGetwd
  | Some dir =>
      match findGitRoot_loop (S (length dir)) dir with
      | Some root => inr root
      | None => inl ErrNotInGitRepository
      end
  end.

End GitRoot.

(* ------------------------------------------------------------------ *)
(** ** Vocabulary of the properties *)

Definition no_nl (s : text) : Prop := Forall (fun c => c <> NL) s.

(** What [TrimRight] leaves does not end in a space or a tab. *)
Definition no_trailing_blank (s : text) : Prop :=
  forall pre c, s = pre ++ [c] -> is_blank c = false.

(** An occurrence of a newline, one or more [\s] characters, a newline. *)
Definition nl_ws_nl_occurs (s : text) : Prop :=
  exists pre ws post,
    ws <> [] /\ Forall (fun c => re_space c = true) ws /\ s = pre ++ NL :: ws ++ NL :: post.

Definition yaml_clean (line : text) : text := TrimRight (yaml_scan false 0%Z false line).

(** The extensions of the [switch] in processFile. *)
Definition supported_extensions : list string :=
  [".js"; ".ts"; ".jsx"; ".tsx"; ".go"; ".py"; ".rs"; ".tf"; ".tfvars"; ".yaml"; ".yml"]%string.

(** A runtime for the examples: a buffer of 32 runes for a short string,
    and no spare room for a longer one. *)
Definition small_buffer : GoRuntime := {| rune_cap := fun n => Nat.max 32 n |}.

(** Example documents. *)
Definition nested_doc : text := doc [T "/* a /* b */ c */"; T "x"].

Definition rust_raw_doc : text :=
  doc [T "let s = r#" ++ [DQUOTE] ++ T "a"; T "// b"; [DQUOTE] ++ T "#;"].

Definition js_template_doc : text :=
  doc [T "const str = `// not a comment"; T "/* still not */`;"].

Definition rust_reparse_doc : text :=
  T "r/**/" ++ [DQUOTE] ++ T "a\" ++ [DQUOTE] ++ T "// x".


(** What a line loop wrote for one line: a text without trailing space or
    tab, followed by the line terminator. *)
Definition trimmed_line (out : text) (last : bool) : Prop :=
  exists cleaned, out = cleaned ++ eol last /\ no_trailing_blank cleaned.




Definition tf_block_doc : text := doc [T "a /* x"; T "y */ b"].

Definition go_block_doc : text := doc [T "x := 1 /* a"; T "b"; T "c */ y := 2 // d"; T "z"].

Definition Q3 : text := [DQUOTE; DQUOTE; DQUOTE].

Definition py_closing_doc : text :=
  doc [T "x = " ++ Q3 ++ T "a"; T "b" ++ Q3 ++ T " # c"].



(** The content of a string literal of a backslash-escape language: plain
    runes and escape pairs (a backslash and any rune). *)
Inductive str_item : Type :=
| Plain (c : rune)
| Escaped (c : rune).

Definition render_item (i : str_item) : text :=
  match i with
  | Plain c => [c]
  | Escaped c => [BSLASH; c]
  end.

Definition str_body (items : list str_item) : text := flat_map render_item items.

(** A plain rune is neither the backslash nor the closing quote; nothing in
    a one-line string is a newline. *)
Definition item_ok (i : str_item) : Prop :=
  match i with
  | Plain c => c <> BSLASH /\ c <> DQUOTE /\ c <> NL
  | Escaped c => c <> NL
  end.

(** The content of a single-quoted YAML string: plain runes and doubled
    quotes. *)
Inductive sq_item : Type :=
| SqPlain (c : rune)
| SqQuote.

Definition render_sq (i : sq_item) : text :=
  match i with
  | SqPlain c => [c]
  | SqQuote => [SQUOTE; SQUOTE]
  end.

Definition sq_body (items : list sq_item) : text := flat_map render_sq items.

Definition sq_ok (i : sq_item) : Prop :=
  match i with
  | SqPlain c => c <> SQUOTE /\ c <> NL
  | SqQuote => True
  end.

(** The double-quoted string with the given content. *)
Definition dq_string (items : list str_item) : text :=
  DQUOTE :: str_body items ++ [DQUOTE].

Definition sq_string (items : list sq_item) : text :=
  SQUOTE :: sq_body items ++ [SQUOTE].

(** [He said \"hi\" // x] *)
Definition he_said : list str_item :=
  map Plain (T "He said ") ++ [Escaped DQUOTE] ++ map Plain (T "hi")
  ++ [Escaped DQUOTE] ++ map Plain (T " // x").

(** [It''s // x] *)
Definition it_s : list sq_item :=
  map SqPlain (T "It") ++ [SqQuote] ++ map SqPlain (T "s // x").

(** A plain rune of a single-quoted string of a backslash-escape language
    is neither the backslash nor the single quote. *)
Definition esc_sq_ok (i : str_item) : Prop :=
  match i with
  | Plain c => c <> BSLASH /\ c <> SQUOTE /\ c <> NL
  | Escaped c => c <> NL
  end.

(** The single-quoted string with the given content. *)
Definition esc_sq_string (items : list str_item) : text :=
  SQUOTE :: str_body items ++ [SQUOTE].

(** [It\'s // x] *)
Definition it_s_escaped : list str_item :=
  map Plain (T "It") ++ [Escaped SQUOTE] ++ map Plain (T "s // x").

(** The cross-line states of the Go remover that its loop reaches: never
    both inside a block comment and inside a raw string. *)
Definition go_state_ok (st : go_state) : Prop :=
  go_inBlockComment st && go_inRawStringMultiline st = false.

(* ------------------------------------------------------------------ *)
(** ** More vocabulary *)

(** [subseq a b]: [a] is [b] with some runes deleted. *)
Inductive subseq : text -> text -> Prop :=
| subseq_nil (b : text) : subseq [] b
| subseq_keep (c : rune) (a b : text) : subseq a b -> subseq (c :: a) (c :: b)
| subseq_skip (c : rune) (a b : text) : subseq a b -> subseq a (c :: b).

(** [is_prefix a b]: [b] begins with [a]. *)
Definition is_prefix (a b : text) : Prop := exists r, b = a ++ r.

(** [padded R o line]: [o] stands in relation [R] to the line followed by
    zero runes, no more of them than the line has bytes beyond its runes.
    This is what a slice that ends at a byte offset can read of the spare
    room of the rune slice. *)
Definition padded (R : text -> text -> Prop) (o line : text) : Prop :=
  exists k, k <= byte_len line - length line /\ R o (line ++ repeat 0%Z k).

(** A text of ASCII runes: its byte offsets are its rune offsets. *)
Definition ascii_text (s : text) : Prop := Forall (fun c => (0 <= c < 128)%Z) s.

(** Runes that start nothing in Go, JS/TS and Rust code: no quote, no
    backtick, no slash (and no newline, which never occurs inside a line). *)
Definition slash_plain (c : rune) : bool :=
  negb ((c == DQUOTE) || (c == SQUOTE) || (c == BTICK) || (c == SLASH) || (c == NL)).

(** The same for Python and YAML: no quote and no hash. *)
Definition hash_plain (c : rune) : bool :=
  negb ((c == DQUOTE) || (c == SQUOTE) || (c == HASH) || (c == NL)).

(** A line of code followed, or not, by a line comment that [marker]
    opens. *)
Definition with_line_comment (marker : text) (l : text * option text) : text :=
  match snd l with
  | None => fst l
  | Some comment => fst l ++ marker ++ comment
  end.

(** Lines of plain code, each with or without a comment that stays on its
    line. *)
Definition commented_code (plain : rune -> bool) (ls : list (text * option text)) : Prop :=
  Forall (fun l => Forall (fun c => plain c = true) (fst l)
                   /\ forall comment, snd l = Some comment -> no_nl comment) ls.

(** Runes that start nothing in Terraform code: no double quote, no hash,
    no slash, no [<]. *)
Definition tf_plain (c : rune) : bool :=
  negb ((c == DQUOTE) || (c == HASH) || (c == SLASH) || (c == LESS)).

(** The runes of a text that are not whitespace for the pattern [\s], in
    order. *)
Definition non_space (s : text) : text := filter (fun c => negb (re_space c)) s.

(** A character that is neither the dot nor the path separator. *)
Definition ext_char (c : ascii) : bool :=
  negb (Ascii.eqb c "/"%char) && negb (Ascii.eqb c "."%char).

(** A string without dots and separators: what follows the dot of an
    extension, or a file name without extension. *)
Definition ext_free (s : string) : bool := forallb ext_char (list_ascii_of_string s).

Section BatchesSpec.

Variable St E : Type.
Variable processBatch : St -> list string -> option E * St.
Variable markProcessed : St -> string -> St.
Variable save : St -> St.

(** Batches run one after the other until one fails. *)
Fixpoint run_batches (batches : list (list string)) (st : St)
  : option (batches_error E) * St :=
  match batches with
  | [] => (None, st)
  | batch :: rest =>
      match processBatch st batch with
      | (Some err, st') => (Some (ErrBatchProcessingFailed err), st')
      | (None, st') => run_batches rest (save (fold_left markProcessed batch st'))
      end
  end.

End BatchesSpec.

(** [batches] cuts a list into consecutive pieces of [n] elements, the last
    one of 1 to [n]. *)
Definition partition_by (A : Type) (n : nat) (l : list A) (batches : list (list A)) : Prop :=
  concat batches = l
  /\ Forall (fun b => b <> [] /\ length b <= n) batches
  /\ Forall (fun b => length b = n) (removelast batches).

(** The consecutive pieces of [n] elements of a list. *)
Fixpoint chunks (A : Type) (fuel n : nat) (l : list A) : list (list A) :=
  match fuel with
  | O => []
  | S fuel' =>
      match l with
      | [] => []
      | _ :: _ => firstn n l :: chunks fuel' n (skipn n l)
      end
  end.

Definition batches_of (A : Type) (n : nat) (l : list A) : list (list A) :=
  chunks (length l) n l.

(** A file that cache-only mode records: not git-ignored, with a
    modification time and a relative path. *)
Definition cacheable (ModTime : string -> option Z) (toRelativePath : string -> option string)
    (isGitIgnored : string -> bool) (file : string) : bool :=
  negb (isGitIgnored file)
  && match ModTime file with Some _ => true | None => false end
  && match toRelativePath file with Some _ => true | None => false end.

(** A text all of whose runes are white space. *)
Definition all_space (s : text) : Prop := Forall (fun c => IsSpace c = true) s.

(** A text that is not empty and neither begins nor ends with white
    space. *)
Definition trimmed (s : text) : Prop := s <> [] /\ TrimSpace s = s.

(** Example inputs. *)
Definition commented_go_lines : list (text * option text) :=
  [(T "x := 1  ", Some (T " set x")); (T "y := x + 2", None); ([], Some (T "done"))].

Definition commented_py_lines : list (text * option text) :=
  [(T "x = 1  ", Some (T " set x")); (T "y = x + 2", None); ([], Some (T "done"))].

Definition go_raw_doc : text :=
  doc [T "s := `a // kept  "; T "  /* kept */ "; T "b` // dropped"].

Definition staged_names : list text := [T "src/main.go"; T "docs/read me.md"].

(** A world for the file loop: a Go file, a text file and a file that git
    ignores. *)
Definition three_files : world :=
  World (fun p => if (p =? "a.go")%string then Some (T "x // c")
                  else if (p =? "b.txt")%string then Some (T "# t")
                  else if (p =? "c.go")%string then Some (T "y // d")
                  else None)
        (fun _ => true).

(* ------------------------------------------------------------------ *)
(** ** Lines of code that hold a string literal *)

(** One-line string literals: double-quoted with backslash escapes,
    single-quoted with backslash escapes (JS/TS, Python), single-quoted
    with doubled quotes (YAML). *)
Definition dq_literal (s : text) : Prop :=
  exists items, Forall item_ok items /\ s = dq_string items.

Definition esc_sq_literal (s : text) : Prop :=
  exists items, Forall esc_sq_ok items /\ s = esc_sq_string items.

Definition sq_literal (s : text) : Prop :=
  exists items, Forall sq_ok items /\ s = sq_string items.

(** Rust code after which a double quote opens an ordinary string: it does
    not end in [r] followed by hashes, the opener of a raw string. *)
Definition no_raw_prefix (p : text) : Prop :=
  forall q n, p <> q ++ LOWER_R :: repeat HASH n.

(** A line of code with a string literal, or none, between plain code, and
    a line comment or none after it. *)
Record string_line : Type := StringLine {
  sl_before : text;
  sl_literal : text;
  sl_after : text;
  sl_comment : option text
}.

Definition sl_code (l : string_line) : text := sl_before l ++ sl_literal l ++ sl_after l.

Definition sl_render (marker : text) (l : string_line) : text :=
  with_line_comment marker (sl_code l, sl_comment l).

Definition string_lines (plain : rune -> bool) (before_ok : text -> Prop)
    (literal : text -> Prop) (ls : list string_line) : Prop :=
  Forall (fun l =>
            Forall (fun c => plain c = true) (sl_before l)
            /\ before_ok (sl_before l)
            /\ (sl_literal l = [] \/ literal (sl_literal l))
            /\ Forall (fun c => plain c = true) (sl_after l)
            /\ forall c, sl_comment l = Some c -> no_nl c) ls.

(** The character loops run on a whole line in Normal context. *)
Definition go_whole (runes : text) : text * go_state :=
  go_scan (length runes) false false false false runes.

Definition js_whole (runes : text) : text * js_state :=
  js_scan (length runes) false false 0%Z false runes.

Definition py_whole (room : nat) (runes : text) : option (text * py_state) :=
  py_scan room (length runes) false 0%Z false runes.

Definition rust_whole (room : nat) (depth : Z) (runes : text) : option (text * rust_state) :=
  rust_scan room (length runes) false false false false depth runes.

(** Example lines: the strings of the claim between code, and a Rust line
    with a lifetime before the string. *)
Definition he_said_line : string_line :=
  StringLine (T "const s = ") (dq_string he_said) (T ";  ") (Some (T " c")).

Definition it_s_line : string_line :=
  StringLine (T "key: ") (sq_string it_s) [] (Some (T " c")).

Definition it_s_escaped_line : string_line :=
  StringLine (T "s = ") (esc_sq_string it_s_escaped) (T "  ") (Some (T " c")).

Definition code_line : string_line := StringLine [] [] (T "x = 1 ") (Some (T " d")).

Definition rust_lifetime_line : text :=
  T "let s: &'static str = " ++ dq_string he_said ++ T "; // c".

(** An assignment of a triple-quoted string that holds an accented e: one
    rune of two bytes. *)
Definition e_acute_line : text := T "x = " ++ Q3 ++ [233%Z] ++ Q3.

(** A triple-quoted string of eleven euro signs, of three bytes each. *)
Definition euro_line : text := Q3 ++ repeat 8364%Z 11 ++ Q3.

(* ================================================================== *)
(** * Properties *)

(* ------------------------------------------------------------------ *)
(** ** Text helpers *)

Lemma Zeqb_true (a b : rune) : (a == b) = true -> a = b.
Proof. apply Z.eqb_eq. Qed.

Lemma has_prefix_app (p s : text) : has_prefix p (p ++ s) = true.
Proof.
  induction p as [|a p IH]; simpl; [reflexivity|].
  now rewrite Z.eqb_refl.
Qed.

Lemma has_prefix_spec (p s : text) :
  has_prefix p s = true <-> exists r, s = p ++ r.
Proof.
  split.
  - revert s; induction p as [|a p IH]; intros s H.
    + now exists s.
    + destruct s as [|b s]; simpl in H; [discriminate|].
      apply andb_true_iff in H as [Hab Hp].
      apply Zeqb_true in Hab; subst b.
      destruct (IH _ Hp) as [r ->]. now exists r.
  - intros [r ->]. apply has_prefix_app.
Qed.



Lemma count_nl_app (a b : text) : count_nl (a ++ b) = count_nl a + count_nl b.
Proof. unfold count_nl. now rewrite filter_app, length_app. Qed.



Lemma count_nl_no_nl (s : text) : no_nl s -> count_nl s = 0.
Proof.
  unfold count_nl. induction 1 as [|c s Hc _ IH]; simpl; [reflexivity|].
  destruct (Z.eqb_spec c NL); [contradiction|exact IH].
Qed.

Lemma count_nl_eol (last : bool) : count_nl (eol last) = if last then 0 else 1.
Proof. now destruct last. Qed.



Lemma TrimRightFunc_nil_inv (cut : rune -> bool) (s : text) :
  TrimRightFunc cut s = [] -> Forall (fun c => cut c = true) s.
Proof.
  induction s as [|c s IH]; simpl; intros H; [constructor|].
  destruct (TrimRightFunc cut s) eqn:E.
  - destruct (cut c) eqn:Ec; [|discriminate]. constructor; auto.
  - discriminate.
Qed.

Lemma TrimRightFunc_last (cut : rune -> bool) (s pre : text) (c : rune) :
  TrimRightFunc cut s = pre ++ [c] -> cut c = false.
Proof.
  revert pre; induction s as [|x s IH]; simpl; intros pre H.
  - now destruct pre.
  - destruct (TrimRightFunc cut s) as [|y t] eqn:E.
    + destruct (cut x) eqn:Ex.
      * now destruct pre.
      * destruct pre as [|z pre]; simpl in H.
        -- now injection H as <-.
        -- injection H as _ H. now destruct pre.
    + destruct pre as [|z pre]; simpl in H; [discriminate|].
      injection H as _ H. now apply (IH pre).
Qed.

Lemma TrimRight_no_trailing_blank (s : text) : no_trailing_blank (TrimRight s).
Proof. intros pre c H. eapply TrimRightFunc_last; eassumption. Qed.

Lemma TrimRightFunc_prefix (cut : rune -> bool) (s : text) :
  exists r, s = TrimRightFunc cut s ++ r.
Proof.
  induction s as [|c s [r IH]]; simpl.
  - now exists [].
  - destruct (TrimRightFunc cut s) as [|y t] eqn:E.
    + destruct (cut c).
      * now exists (c :: s).
      * exists r. simpl in *. now f_equal.
    + exists r. simpl in *. now f_equal.
Qed.

Lemma TrimRightFunc_fixed (cut : rune -> bool) (s : text) :
  (forall pre c, s = pre ++ [c] -> cut c = false) -> TrimRightFunc cut s = s.
Proof.
  induction s as [|x s IH]; intros H; simpl; [reflexivity|].
  rewrite IH.
  - destruct s as [|y s]; [|reflexivity].
    now rewrite (H [] x).
  - intros pre c ->. now apply (H (x :: pre) c).
Qed.

Lemma TrimRightFunc_idem (cut : rune -> bool) (s : text) :
  TrimRightFunc cut (TrimRightFunc cut s) = TrimRightFunc cut s.
Proof.
  apply TrimRightFunc_fixed. intros pre c H. eapply TrimRightFunc_last; eassumption.
Qed.

Lemma TrimRightFunc_Forall (P : rune -> Prop) (cut : rune -> bool) (s : text) :
  Forall P s -> Forall P (TrimRightFunc cut s).
Proof.
  intros H. destruct (TrimRightFunc_prefix cut s) as [r Hr].
  rewrite Hr in H. now apply Forall_app in H.
Qed.

(* ------------------------------------------------------------------ *)
(** ** Lines *)

Lemma Split_not_nil (s : text) : Split s <> [].
Proof.
  induction s as [|c s IH]; simpl; [discriminate|].
  destruct (c == NL); [discriminate|].
  destruct (Split s); [contradiction|discriminate].
Qed.

Lemma Split_no_nl (s : text) : Forall no_nl (Split s).
Proof.
  induction s as [|c s IH]; simpl.
  - repeat constructor.
  - destruct (Z.eqb_spec c NL).
    + constructor; [constructor|exact IH].
    + destruct (Split s) as [|l ls]; [repeat constructor; assumption|].
      inversion IH; subst. constructor; [constructor|]; assumption.
Qed.

Lemma Split_count (s : text) : length (Split s) = S (count_nl s).
Proof.
  unfold count_nl. induction s as [|c s IH]; simpl; [reflexivity|].
  destruct (c == NL); simpl; [now rewrite IH|].
  destruct (Split s) as [|l ls]; [discriminate|exact IH].
Qed.

Lemma Split_doc (ls : list text) :
  ls <> [] -> Forall no_nl ls -> Split (doc ls) = ls.
Proof.
  induction ls as [|l ls IH]; intros Hne Hall; [contradiction|].
  inversion Hall as [|? ? Hl Hls]; subst.
  destruct ls as [|l2 ls].
  - simpl. clear IH Hne Hall Hls.
    induction Hl as [|c l Hc _ IHl]; simpl; [reflexivity|].
    destruct (Z.eqb_spec c NL); [contradiction|]. now rewrite IHl.
  - assert (IH' := IH ltac:(discriminate) Hls). clear IH.
    change (doc (l :: l2 :: ls)) with (l ++ NL :: doc (l2 :: ls)).
    remember (doc (l2 :: ls)) as d eqn:Ed. clear Ed Hne Hall Hls.
    induction Hl as [|c l Hc _ IHl]; simpl.
    + now rewrite IH'.
    + destruct (Z.eqb_spec c NL); [contradiction|].
      now rewrite IHl.
Qed.

(* ------------------------------------------------------------------ *)
(** ** The newline normaliser *)



Lemma re_spaces_nl_complete (ws post : text) :
  Forall (fun c => re_space c = true) ws ->
  exists r, re_spaces_nl (ws ++ NL :: post) = Some r.
Proof.
  induction 1 as [|c ws Hc _ [r IH]]; simpl.
  - destruct (re_spaces_nl post); eauto.
  - rewrite Hc, IH. eauto.
Qed.

Lemma re_spaces_nl_sound (s r : text) :
  re_spaces_nl s = Some r ->
  exists ws, Forall (fun c => re_space c = true) ws /\ s = ws ++ NL :: r.
Proof.
  revert r; induction s as [|c s IH]; simpl; intros r H; [discriminate|].
  destruct (re_space c) eqn:Ec; [|discriminate].
  destruct (re_spaces_nl s) as [r'|] eqn:E.
  - injection H as <-. destruct (IH _ eq_refl) as (ws & Hws & ->).
    exists (c :: ws). split; [now constructor|reflexivity].
  - destruct (Z.eqb_spec c NL); [|discriminate]. injection H as <-. subst c.
    exists []. split; [constructor|reflexivity].
Qed.

Lemma re_spaces_nl_length (s r : text) :
  re_spaces_nl s = Some r -> length r < length s.
Proof.
  intros H. destruct (re_spaces_nl_sound _ H) as (ws & _ & ->).
  rewrite length_app. simpl. lia.
Qed.

Lemma re_match_here_length (s r : text) :
  re_match_here s = Some r -> length r + 2 < length s.
Proof.
  destruct s as [|c [|c1 tl]]; simpl; try discriminate.
  destruct ((c == NL) && re_space c1); [|discriminate].
  intros H. apply re_spaces_nl_length in H. lia.
Qed.

Lemma re_Match_complete (s : text) : nl_ws_nl_occurs s -> re_Match s = true.
Proof.
  intros (pre & ws & post & Hne & Hws & ->).
  induction pre as [|c pre IH].
  - destruct ws as [|c1 ws]; [contradiction|].
    inversion Hws as [|? ? Hc1 Hws']; subst.
    destruct (re_spaces_nl_complete post Hws') as [r Hr].
    assert (Hm : re_match_here (NL :: (c1 :: ws) ++ NL :: post) = Some r).
    { cbn [re_match_here app]. rewrite Z.eqb_refl, Hc1. exact Hr. }
    cbn [app re_Match] in *. now rewrite Hm.
  - change ((c :: pre) ++ NL :: ws ++ NL :: post)
      with (c :: (pre ++ NL :: ws ++ NL :: post)).
    remember (pre ++ NL :: ws ++ NL :: post) as s.
    cbn [re_Match]. rewrite IH. now destruct (re_match_here (c :: s)).
Qed.

Lemma re_Match_sound (s : text) : re_Match s = true -> nl_ws_nl_occurs s.
Proof.
  induction s as [|c s IH]; [discriminate|].
  cbn [re_Match]. destruct (re_match_here (c :: s)) as [r|] eqn:E.
  - intros _. destruct s as [|c1 tl]; [discriminate|]. simpl in E.
    destruct (Z.eqb_spec c NL); [|discriminate].
    destruct (re_space c1) eqn:Ec1; [|discriminate]. simpl in E.
    destruct (re_spaces_nl_sound _ E) as (ws & Hws & ->). subst c.
    exists [], (c1 :: ws), r. repeat split; [discriminate|now constructor].
  - intros H. destruct (IH H) as (pre & ws & post & Hne & Hws & ->).
    now exists (c :: pre), ws, post.
Qed.

Lemma re_ReplaceAll_length (fuel : nat) (s : text) :
  length (re_ReplaceAll fuel s) <= length s.
Proof.
  revert s; induction fuel as [|fuel IH]; intros s; simpl; [lia|].
  destruct s as [|c tl]; [simpl; lia|].
  destruct (re_match_here (c :: tl)) as [r|] eqn:E.
  - apply re_match_here_length in E. specialize (IH r). simpl in *. lia.
  - specialize (IH tl). simpl. lia.
Qed.

Lemma re_ReplaceAll_shrinks (fuel : nat) (s : text) :
  re_Match s = true -> length s <= fuel ->
  length (re_ReplaceAll fuel s) < length s.
Proof.
  revert s; induction fuel as [|fuel IH]; intros s Hm Hlen.
  - destruct s; [discriminate|simpl in Hlen; lia].
  - destruct s as [|c tl]; [discriminate|].
    cbn [re_Match] in Hm. cbn [re_ReplaceAll].
    destruct (re_match_here (c :: tl)) as [r|] eqn:E.
    + apply re_match_here_length in E.
      pose proof (re_ReplaceAll_length fuel r). simpl in *. lia.
    + simpl in Hlen. specialize (IH tl Hm ltac:(lia)). simpl. lia.
Qed.

Lemma collapse_loop_no_match (fuel : nat) (content : text) :
  length content <= fuel -> re_Match (collapse_loop fuel content) = false.
Proof.
  revert content; induction fuel as [|fuel IH]; intros content Hlen.
  - destruct content; [reflexivity|simpl in Hlen; lia].
  - simpl. destruct (re_Match content) eqn:Hm; [|exact Hm].
    apply IH.
    pose proof (re_ReplaceAll_shrinks content Hm (Nat.le_refl _)). lia.
Qed.

Lemma collapse_no_match (t : text) : re_Match (collapseExcessiveNewlines t) = false.
Proof. apply collapse_loop_no_match, Nat.le_refl. Qed.

Lemma collapse_fixed (t : text) : re_Match t = false -> collapseExcessiveNewlines t = t.
Proof.
  unfold collapseExcessiveNewlines. intros H.
  destruct (length t); simpl; [reflexivity|now rewrite H].
Qed.

Lemma collapse_idempotent (t : text) :
  collapseExcessiveNewlines (collapseExcessiveNewlines t) = collapseExcessiveNewlines t.
Proof. apply collapse_fixed, collapse_no_match. Qed.


(* ------------------------------------------------------------------ *)
(** ** The YAML remover *)

Ltac case_if :=
  match goal with
  | |- context [if ?b then _ else _] => destruct b eqn:?
  end.

(** What the YAML scan keeps is a prefix of the line. *)
Lemma yaml_scan_prefix_n (n : nat) :
  forall l, length l <= n ->
  forall a b e, exists r, l = yaml_scan a b e l ++ r.
Proof.
  induction n as [|n IH]; intros l Hlen a b e.
  - destruct l; [now exists []|simpl in Hlen; lia].
  - destruct l as [|ch tl]; [now exists []|].
    simpl in Hlen.
    assert (Htl : forall a b e, exists r, tl = yaml_scan a b e tl ++ r)
      by (intros; apply IH; lia).
    assert (Hemit : forall a b e, exists r, ch :: tl = (ch :: yaml_scan a b e tl) ++ r).
    { intros a0 b0 e0. destruct (Htl a0 b0 e0) as [r Hr]. exists r. simpl. now f_equal. }
    cbn [yaml_scan].
    repeat (case_if; [solve [apply Hemit | now exists (ch :: tl)] |]).
    destruct tl as [|c1 tl1].
    + repeat (case_if; [solve [apply Hemit | now exists [ch]] |]). apply Hemit.
    + case_if.
      * destruct (IH tl1 ltac:(simpl in Hlen; lia) a b false) as [r Hr].
        exists r. simpl. now do 2 f_equal.
      * repeat (case_if; [solve [apply Hemit | now exists (ch :: c1 :: tl1)] |]).
        apply Hemit.
Qed.

Lemma yaml_scan_prefix (l : text) (a : bool) (b : rune) (e : bool) :
  exists r, l = yaml_scan a b e l ++ r.
Proof. now apply (@yaml_scan_prefix_n (length l)). Qed.

(** Scanning any prefix of what a scan kept keeps that prefix whole. *)
Lemma yaml_scan_stable_n (n : nat) :
  forall p, length p <= n ->
  forall t a b e s, yaml_scan a b e (p ++ t) = p ++ s -> yaml_scan a b e p = p.
Proof.
  induction n as [|n IH]; intros p Hlen t a b e s H.
  - destruct p; [reflexivity|simpl in Hlen; lia].
  - destruct p as [|ch p']; [reflexivity|].
    simpl in Hlen.
    assert (Hnext : forall a b e s,
               ch :: yaml_scan a b e (p' ++ t) = (ch :: p') ++ s ->
               ch :: yaml_scan a b e p' = ch :: p').
    { intros a0 b0 e0 s0 H0. injection H0 as H0. f_equal.
      eapply IH; [lia|exact H0]. }
    revert H. cbn [yaml_scan app].
    repeat (case_if; [solve [apply Hnext | discriminate] |]).
    destruct p' as [|y p''].
    + cbn [app]. destruct t as [|c1 t1].
      * repeat (case_if; [solve [intros _; reflexivity | discriminate] |]).
        intros _; reflexivity.
      * case_if.
        -- intros _.
           repeat match goal with
                  | E : (_ && _) = true |- _ => apply andb_true_iff in E as [? ?]
                  end.
           repeat match goal with
                  | E : (_ == _) = true |- _ => apply Zeqb_true in E
                  end.
           subst. reflexivity.
        -- repeat (case_if; [solve [intros _; reflexivity | discriminate] |]).
           intros _; reflexivity.
    + cbn [app]. case_if.
      * intros H. injection H as H. do 2 f_equal.
        eapply IH; [simpl in Hlen; lia|exact H].
      * repeat (case_if; [solve [apply Hnext | discriminate] |]).
        apply Hnext.
Qed.



Lemma yaml_clean_idempotent (line : text) : yaml_clean (yaml_clean line) = yaml_clean line.
Proof.
  unfold yaml_clean.
  set (c := yaml_scan false 0%Z false line).
  destruct (TrimRightFunc_prefix is_blank c) as [r1 Hr1].
  destruct (yaml_scan_prefix line false 0%Z false) as [r2 Hr2].
  fold c in Hr2. fold (TrimRight c) in Hr1.
  assert (Hs : yaml_scan false 0%Z false (TrimRight c) = TrimRight c).
  { apply (@yaml_scan_stable_n (length (TrimRight c)) (TrimRight c) (Nat.le_refl _)
             (r1 ++ r2) false 0%Z false r1).
    rewrite app_assoc, <- Hr1, <- Hr2. reflexivity. }
  rewrite Hs. apply TrimRightFunc_idem.
Qed.

Lemma yaml_clean_no_nl (line : text) : no_nl line -> no_nl (yaml_clean line).
Proof.
  intros H. unfold yaml_clean. apply TrimRightFunc_Forall.
  destruct (yaml_scan_prefix line false 0%Z false) as [r Hr].
  unfold no_nl in H. rewrite Hr in H. now apply Forall_app in H.
Qed.

Lemma yaml_for_lines (ls : list text) :
  fst (for_lines yaml_line tt ls) = doc (map yaml_clean ls).
Proof.
  induction ls as [|l ls IH]; [reflexivity|].
  cbn [for_lines]. unfold yaml_line at 1.
  destruct (for_lines yaml_line tt ls) as [outs st2] eqn:E.
  cbn [fst map] in *. rewrite IH.
  fold (yaml_clean l).
  destruct ls as [|l2 ls]; cbn [eol map].
  - cbn [doc]. now rewrite !app_nil_r.
  - change (doc (yaml_clean l :: yaml_clean l2 :: map yaml_clean ls))
      with (yaml_clean l ++ NL :: doc (yaml_clean l2 :: map yaml_clean ls)).
    now rewrite <- app_assoc.
Qed.

Lemma removeYAMLComments_lines (content : text) :
  removeYAMLComments content = doc (map yaml_clean (Split content)).
Proof. apply yaml_for_lines. Qed.

Lemma removeYAMLComments_idempotent (content : text) :
  removeYAMLComments (removeYAMLComments content) = removeYAMLComments content.
Proof.
  rewrite !removeYAMLComments_lines.
  rewrite Split_doc.
  - rewrite map_map. f_equal. apply map_ext. intros l. apply yaml_clean_idempotent.
  - pose proof (Split_not_nil content). destruct (Split content); [contradiction|discriminate].
  - pose proof (Split_no_nl content) as H.
    induction H; simpl; constructor; auto using yaml_clean_no_nl.
Qed.

(* ------------------------------------------------------------------ *)
(** ** The extension dispatch *)

Lemma clean_by_ext_unsupported {rt : GoRuntime} (ext : string) (content : text) (e : error) :
  clean_by_ext ext content = Returns (inl e)
  <-> (~ In ext supported_extensions /\ e = ErrUnsupportedFileType ext).
Proof.
  unfold clean_by_ext, supported_extensions.
  repeat match goal with
  | |- context [String.eqb ext ?s] =>
      destruct (String.eqb_spec ext s) as [->|?];
      [ cbn [orb]; split;
        [ intros H;
          repeat match type of H with
                 | context [match ?o with Some _ => _ | None => _ end] => destruct o
                 end; discriminate
        | intros [H _]; exfalso; apply H; simpl; tauto ]
      | ]
  end.
  cbn [orb]. split.
  - intros H. injection H as <-. split; [|reflexivity].
    simpl. intros H. repeat destruct H as [H|H]; try congruence.
  - intros [_ ->]. reflexivity.
Qed.


(* ------------------------------------------------------------------ *)
(** ** What the character loops write comes from the line *)

Ltac case_step :=
  match goal with
  | |- context [if ?b then _ else _] => destruct b eqn:?
  | |- context [match ?x with Some _ => _ | None => _ end] => destruct x eqn:?
  | |- context [let '(_, _) := ?x in _] => destruct x eqn:?
  end.

Lemma Forall_firstn' (A : Type) (P : A -> Prop) (n : nat) (l : list A) :
  Forall P l -> Forall P (firstn n l).
Proof.
  intros H. rewrite <- (firstn_skipn n l) in H. now apply Forall_app in H.
Qed.

Lemma Forall_skipn' (A : Type) (P : A -> Prop) (n : nat) (l : list A) :
  Forall P l -> Forall P (skipn n l).
Proof.
  intros H. rewrite <- (firstn_skipn n l) in H. now apply Forall_app in H.
Qed.

Lemma takeWhile_dropWhile (p : rune -> bool) (s : text) :
  takeWhile p s ++ dropWhile p s = s.
Proof.
  induction s as [|c s IH]; simpl; [reflexivity|].
  destruct (p c); simpl; [now rewrite IH|reflexivity].
Qed.

Lemma Forall_takeWhile (P : rune -> Prop) (p : rune -> bool) (s : text) :
  Forall P s -> Forall P (takeWhile p s).
Proof.
  intros H. rewrite <- (takeWhile_dropWhile p s) in H. now apply Forall_app in H.
Qed.

Lemma Forall_dropWhile (P : rune -> Prop) (p : rune -> bool) (s : text) :
  Forall P s -> Forall P (dropWhile p s).
Proof.
  intros H. rewrite <- (takeWhile_dropWhile p s) in H. now apply Forall_app in H.
Qed.

Lemma slice_to_Some (room : nat) (s out : text) (n : nat) :
  slice_to room s n = Some out ->
  out = firstn n s ++ repeat 0%Z (n - length s) /\ n - length s <= room.
Proof.
  unfold slice_to. destruct (Nat.leb_spec n (length s)) as [Hle|Hgt].
  - intros Hs; injection Hs as <-.
    replace (n - length s) with 0 by lia. cbn [repeat]. rewrite app_nil_r.
    split; [reflexivity|lia].
  - destruct (Nat.leb_spec (n - length s) room) as [Hr|Hr]; [|discriminate].
    intros Hs; injection Hs as <-.
    rewrite firstn_all2 by lia. now split.
Qed.

Create HintDb scan.

#[local] Hint Resolve Forall_firstn' Forall_skipn' Forall_takeWhile Forall_dropWhile
  TrimRightFunc_Forall : scan.
#[local] Hint Constructors Forall : scan.

Lemma go_scan_Forall (P : rune -> Prop) (fuel : nat) :
  forall a b c d runes,
    Forall P runes -> Forall P (fst (go_scan fuel a b c d runes)).
Proof.
  induction fuel as [|fuel IH]; intros a b c d runes H; [constructor|].
  destruct runes as [|ch tl]; [constructor|].
  assert (Htl : Forall P tl) by now inversion H.
  assert (Hch : P ch) by now inversion H.
  cbn [go_scan].
  repeat case_step; cbn [emit fst]; auto with scan.
Qed.

Lemma js_scan_Forall (P : rune -> Prop) (fuel : nat) :
  forall a b c d runes,
    Forall P runes -> Forall P (fst (js_scan fuel a b c d runes)).
Proof.
  induction fuel as [|fuel IH]; intros a b c d runes H; [constructor|].
  destruct runes as [|ch tl]; [constructor|].
  assert (Htl : Forall P tl) by now inversion H.
  assert (Hch : P ch) by now inversion H.
  cbn [js_scan].
  repeat case_step; cbn [emit fst]; auto with scan.
Qed.

Lemma emit_opt_Some (A : Type) (c : rune) (r : option (text * A)) (out : text) (st : A) :
  emit_opt c r = Some (out, st) -> exists o, r = Some (o, st) /\ out = c :: o.
Proof.
  destruct r as [[o s]|]; cbn; [|discriminate].
  intros [= <- <-]. now exists o.
Qed.

Lemma emits_opt_Some (A : Type) (p : text) (r : option (text * A)) (out : text) (st : A) :
  emits_opt p r = Some (out, st) -> exists o, r = Some (o, st) /\ out = p ++ o.
Proof.
  destruct r as [[o s]|]; cbn; [|discriminate].
  intros [= <- <-]. now exists o.
Qed.

(** Case analysis on an equation [body = Some (out, st)] at the head of the
    goal, down to the recursive calls. *)
Ltac crunch :=
  repeat match goal with
  | |- emit_opt _ _ = Some _ -> _ =>
      let H := fresh "H" in
      intros H; apply emit_opt_Some in H as (? & H & ->); revert H
  | |- emits_opt _ _ = Some _ -> _ =>
      let H := fresh "H" in
      intros H; apply emits_opt_Some in H as (? & H & ->); revert H
  | |- (if ?b then _ else _) = _ -> _ => destruct b eqn:?
  | |- (match ?x with Some _ => _ | None => _ end) = _ -> _ => destruct x eqn:?
  | |- (let '(_, _) := ?x in _) = _ -> _ => destruct x eqn:?
  | |- None = Some _ -> _ => discriminate
  | |- Some (_, _) = Some (_, _) -> _ =>
      let H := fresh "H" in intros H; injection H as <- <-
  | E : slice_to _ _ _ = Some _ |- _ => apply slice_to_Some in E as [-> ?]
  end.

Lemma Forall_zeros (P : rune -> Prop) (n : nat) : P 0%Z -> Forall P (repeat 0%Z n).
Proof. intros H. induction n; cbn [repeat]; constructor; assumption. Qed.

#[local] Hint Resolve Forall_zeros : scan.

(** What the scanners write holds runes of the line and, where a slice ran
    into the spare room, zero runes. *)
Lemma py_scan_Forall (room : nat) (P : rune -> Prop) (fuel : nat) :
  P 0%Z ->
  forall a b c runes out st,
    py_scan room fuel a b c runes = Some (out, st) -> Forall P runes -> Forall P out.
Proof.
  intros HP0.
  induction fuel as [|fuel IH]; intros a b c runes out st H HP;
    [injection H as <- <-; constructor|].
  destruct runes as [|ch tl]; [injection H as <- <-; constructor|].
  assert (Htl : Forall P tl) by now inversion HP.
  assert (Hch : P ch) by now inversion HP.
  revert H. cbn [py_scan]. crunch; try intro;
    repeat (apply Forall_app; split); eauto 6 with scan.
Qed.

Lemma rust_raw_open_body (tl : text) (n : nat) (body : text) :
  rust_raw_open tl = Some (n, body) ->
  exists q, skipn n tl = q :: body /\ n = length (takeWhile (fun c => c == HASH) tl).
Proof.
  unfold rust_raw_open.
  destruct (skipn _ tl) as [|q b] eqn:E; [discriminate|].
  destruct (q == DQUOTE); [|discriminate].
  intros [= <- <-]. now exists q.
Qed.

Lemma rust_raw_open_Forall (P : rune -> Prop) (tl : text) (n : nat) (body : text) :
  rust_raw_open tl = Some (n, body) -> Forall P tl -> Forall P body.
Proof.
  intros H HP. apply rust_raw_open_body in H as (q & Hq & _).
  pose proof (Forall_skipn' n HP) as Hs. rewrite Hq in Hs. now inversion Hs.
Qed.

Lemma rust_block_cons2 (depth : Z) (c c2 : rune) (rest2 : text) :
  rust_block depth (c :: c2 :: rest2)
  = if (c == SLASH) && (c2 == STAR) then rust_block (depth + 1) rest2
    else if (c == STAR) && (c2 == SLASH) then
      if (depth - 1 == 0)%Z then (Some rest2, (depth - 1)%Z)
      else rust_block (depth - 1) rest2
    else rust_block depth (c2 :: rest2).
Proof. reflexivity. Qed.

Lemma rust_block_Forall (P : rune -> Prop) (n : nat) :
  forall line, length line <= n ->
  forall depth rest d,
    rust_block depth line = (Some rest, d) -> Forall P line -> Forall P rest.
Proof.
  induction n as [|n IH]; intros line Hlen depth rest d H HP.
  - destruct line; [discriminate|simpl in Hlen; lia].
  - destruct line as [|c [|c2 rest2]]; try (simpl in H; discriminate).
    + assert (HP2 : Forall P rest2) by (inversion HP as [|? ? _ HP1]; now inversion HP1).
      assert (HP1 : Forall P (c2 :: rest2)) by now inversion HP.
      simpl in Hlen. revert H. rewrite rust_block_cons2.
      repeat case_step; intros H;
        try (injection H as <- <-; assumption);
        (eapply IH; [|exact H|]; [simpl; lia|assumption]).
Qed.

Lemma rust_scan_Forall (room : nat) (P : rune -> Prop) (fuel : nat) :
  P 0%Z ->
  forall a b c d depth runes out st,
    rust_scan room fuel a b c d depth runes = Some (out, st) ->
    Forall P runes -> Forall P out.
Proof.
  intros HP0.
  induction fuel as [|fuel IH]; intros a b c d depth runes out st H HP;
    [injection H as <- <-; constructor|].
  destruct runes as [|ch tl]; [injection H as <- <-; constructor|].
  assert (Htl : Forall P tl) by now inversion HP.
  assert (Hch : P ch) by now inversion HP.
  revert H. cbn [rust_scan]. crunch; try intro;
    repeat match goal with
           | E : (if ?b then rust_raw_open _ else None) = Some _ |- _ =>
               destruct b; [|discriminate]
           | E : rust_raw_open _ = Some _ |- _ =>
               apply (@rust_raw_open_Forall P) in E; [|assumption]
           | E : rust_block _ _ = (Some _, _) |- _ =>
               eapply (@rust_block_Forall P _ _ (Nat.le_refl _)) in E;
               [|eauto with scan]
           end;
    repeat (apply Forall_app; split); eauto 6 with scan.
Qed.

(* ------------------------------------------------------------------ *)
(** ** Newlines written by the line loops *)

Section LineCount.

Variable St : Type.
Variable body : St -> bool -> text -> text * St.
Variable good : St -> Prop.
Hypothesis body_inner : forall st line,
  no_nl line -> count_nl (fst (body st false line)) = 1.
Hypothesis body_last : forall st line,
  no_nl line -> good (snd (body st true line)) -> count_nl (fst (body st true line)) = 0.

Lemma for_lines_count (ls : list text) :
  forall st, ls <> [] -> Forall no_nl ls -> good (snd (for_lines body st ls)) ->
  S (count_nl (fst (for_lines body st ls))) = length ls.
Proof.
  induction ls as [|line rest IH]; intros st Hne Hall Hgood; [contradiction|].
  inversion Hall as [|? ? Hline Hrest]; subst.
  revert Hgood. cbn [for_lines].
  destruct rest as [|line2 rest].
  - destruct (body st true line) as [out st1] eqn:E. cbn [for_lines fst snd].
    intros Hg. rewrite app_nil_r.
    pose proof (body_last st Hline) as Hc. rewrite E in Hc. cbn [fst] in Hc.
    now rewrite Hc.
  - destruct (body st false line) as [out st1] eqn:E.
    pose proof (body_inner st Hline) as Hc. rewrite E in Hc. cbn [fst] in Hc.
    specialize (IH st1 ltac:(discriminate) Hrest).
    destruct (for_lines body st1 (line2 :: rest)) as [outs st2] eqn:E2.
    cbn [fst snd] in *. intros Hg. rewrite count_nl_app, Hc.
    specialize (IH Hg). cbn [length] in *. lia.
Qed.

End LineCount.

Section LineCountOpt.

Variable St : Type.
Variable body : St -> bool -> text -> option (text * St).
Variable good : St -> Prop.
Hypothesis body_inner : forall st line out st',
  no_nl line -> body st false line = Some (out, st') -> count_nl out = 1.
Hypothesis body_last : forall st line out st',
  no_nl line -> body st true line = Some (out, st') -> good st' -> count_nl out = 0.

Lemma for_lines_opt_count (ls : list text) :
  forall st out st', ls <> [] -> Forall no_nl ls ->
  for_lines_opt body st ls = Some (out, st') -> good st' ->
  S (count_nl out) = length ls.
Proof.
  induction ls as [|line rest IH]; intros st out st' Hne Hall Hrun Hgood; [contradiction|].
  inversion Hall as [|? ? Hline Hrest]; subst.
  revert Hrun. cbn [for_lines_opt].
  destruct rest as [|line2 rest].
  - destruct (body st true line) as [[o st1]|] eqn:E; [|discriminate].
    cbn [for_lines_opt fst snd].
    intros H; injection H as <- <-. rewrite app_nil_r.
    now rewrite (body_last Hline E Hgood).
  - destruct (body st false line) as [[o st1]|] eqn:E; [|discriminate].
    destruct (for_lines_opt body st1 (line2 :: rest)) as [[outs st2]|] eqn:E2;
      [|discriminate].
    intros H; injection H as <- <-.
    rewrite count_nl_app, (body_inner Hline E).
    specialize (IH st1 outs st2 ltac:(discriminate) Hrest E2 Hgood).
    cbn [length] in *. lia.
Qed.

End LineCountOpt.

Lemma no_nl_count (s : text) : no_nl s -> count_nl s = 0.
Proof. apply count_nl_no_nl. Qed.

Lemma no_nl_TrimRight (s : text) : no_nl s -> no_nl (TrimRight s).
Proof. apply TrimRightFunc_Forall. Qed.

Lemma no_nl_firstn (n : nat) (s : text) : no_nl s -> no_nl (firstn n s).
Proof. apply Forall_firstn'. Qed.

Lemma no_nl_skipn (n : nat) (s : text) : no_nl s -> no_nl (skipn n s).
Proof. apply Forall_skipn'. Qed.

#[local] Hint Resolve no_nl_TrimRight no_nl_firstn no_nl_skipn : scan.

(** Counts the newlines of what a line body wrote. *)
Ltac count_line :=
  repeat rewrite count_nl_app;
  repeat match goal with
         | |- context [count_nl (eol ?b)] => rewrite (count_nl_eol b)
         | |- context [count_nl ?s] =>
             rewrite (@no_nl_count s) by eauto 6 with scan
         end;
  cbn [count_nl filter length]; try reflexivity; try lia.

Lemma go_line_inner (st : go_state) (line : text) :
  no_nl line -> count_nl (fst (go_line st false line)) = 1.
Proof.
  intros Hl. unfold go_line, go_block, go_normal.
  repeat case_step; cbn [fst];
    repeat match goal with
           | E : go_scan ?f ?a ?b ?c ?d ?r = (?t, ?g) |- _ =>
               assert (no_nl t)
                 by (change t with (fst (t, g)); rewrite <- E;
                     apply go_scan_Forall; eauto with scan);
               clear E
           end;
    count_line.
Qed.

Lemma go_line_last (st : go_state) (line : text) :
  no_nl line -> go_inBlockComment (snd (go_line st true line)) = false ->
  count_nl (fst (go_line st true line)) = 0.
Proof.
  intros Hl. unfold go_line, go_block, go_normal.
  repeat case_step; cbn [fst snd go_inBlockComment]; try discriminate; intros _;
    repeat match goal with
           | E : go_scan ?f ?a ?b ?c ?d ?r = (?t, ?g) |- _ =>
               assert (no_nl t)
                 by (change t with (fst (t, g)); rewrite <- E;
                     apply go_scan_Forall; eauto with scan);
               clear E
           end;
    count_line.
Qed.

Lemma js_line_inner (st : js_state) (line : text) :
  no_nl line -> count_nl (fst (js_line st false line)) = 1.
Proof.
  intros Hl. unfold js_line, js_normal.
  repeat case_step; cbn [fst];
    repeat match goal with
           | E : js_scan ?f ?a ?b ?c ?d ?r = (?t, ?g) |- _ =>
               assert (no_nl t)
                 by (change t with (fst (t, g)); rewrite <- E;
                     apply js_scan_Forall; eauto with scan);
               clear E
           end;
    count_line.
Qed.

Lemma js_line_last (st : js_state) (line : text) :
  no_nl line -> js_inBlockComment (snd (js_line st true line)) = false ->
  count_nl (fst (js_line st true line)) = 0.
Proof.
  intros Hl. unfold js_line, js_normal.
  repeat case_step; cbn [fst snd js_inBlockComment]; try discriminate; intros _;
    repeat match goal with
           | E : js_scan ?f ?a ?b ?c ?d ?r = (?t, ?g) |- _ =>
               assert (no_nl t)
                 by (change t with (fst (t, g)); rewrite <- E;
                     apply js_scan_Forall; eauto with scan);
               clear E
           end;
    count_line.
Qed.

Lemma yaml_line_count (st : unit) (last : bool) (line : text) :
  no_nl line -> count_nl (fst (yaml_line st last line)) = if last then 0 else 1.
Proof.
  intros Hl. unfold yaml_line. cbn [fst].
  assert (no_nl (yaml_scan false 0%Z false line)).
  { destruct (yaml_scan_prefix line false 0%Z false) as [r Hr].
    unfold no_nl in Hl. rewrite Hr in Hl. now apply Forall_app in Hl. }
  destruct last; count_line.
Qed.

Lemma py_line_count {rt : GoRuntime} (st : py_state) (last : bool) (line out : text) (st' : py_state) :
  no_nl line -> py_line st last line = Some (out, st') ->
  count_nl out = if last then 0 else 1.
Proof.
  intros Hl. unfold py_line. destruct st as [ml delim].
  destruct ml.
  - intros H; injection H as <- <-. destruct last; count_line.
  - destruct (py_scan _ (length line) false 0%Z false line) as [[cleaned s]|] eqn:E;
      [|discriminate].
    intros H; injection H as <- <-.
    assert (no_nl cleaned) by (eapply py_scan_Forall; [|eassumption|eassumption]; discriminate).
    destruct (fst s), last; count_line.
Qed.

Lemma rust_block_no_nl (depth : Z) (line rest : text) (d : Z) :
  rust_block depth line = (Some rest, d) -> no_nl line -> no_nl rest.
Proof.
  intros H. eapply (@rust_block_Forall _ (length line)); eauto.
Qed.

Lemma rust_normal_count {rt : GoRuntime} (last : bool) (depth : Z) (line out : text) (st' : rust_state) :
  no_nl line -> rust_normal last depth line = Some (out, st') ->
  count_nl out = if last then 0 else 1.
Proof.
  intros Hl. unfold rust_normal.
  destruct (rust_scan _ (length line) false false false false depth line)
    as [[cleaned s]|] eqn:E; [|discriminate].
  intros H; injection H as <- <-.
  assert (no_nl cleaned) by (eapply rust_scan_Forall; [|eassumption|eassumption]; discriminate).
  destruct last; count_line.
Qed.

Lemma rust_line_inner {rt : GoRuntime} (st : rust_state) (line out : text) (st' : rust_state) :
  no_nl line -> rust_line st false line = Some (out, st') -> count_nl out = 1.
Proof.
  intros Hl. unfold rust_line. destruct st as [blk depth].
  destruct blk; [|now apply rust_normal_count].
  destruct (rust_block depth line) as [[rest|] d] eqn:E.
  - apply rust_normal_count. eapply rust_block_no_nl; eauto.
  - intros H; injection H as <- <-. reflexivity.
Qed.

Lemma rust_line_last {rt : GoRuntime} (st : rust_state) (line out : text) (st' : rust_state) :
  no_nl line -> rust_line st true line = Some (out, st') -> fst st' = false ->
  count_nl out = 0.
Proof.
  intros Hl. unfold rust_line. destruct st as [blk depth].
  destruct blk; [|intros H _; revert H; now apply rust_normal_count].
  destruct (rust_block depth line) as [[rest|] d] eqn:E.
  - intros H _; revert H. apply rust_normal_count. eapply rust_block_no_nl; eauto.
  - intros H; injection H as <- <-. discriminate.
Qed.

(* ------------------------------------------------------------------ *)
(** ** The Terraform remover *)

Lemma tf_string_app_n (n : nat) :
  forall tl, length tl <= n -> fst (tf_string tl) ++ snd (tf_string tl) = tl.
Proof.
  induction n as [|n IH]; intros tl Hlen.
  - destruct tl; [reflexivity|simpl in Hlen; lia].
  - destruct tl as [|c tl]; [reflexivity|]. simpl in Hlen. cbn [tf_string].
    destruct (c == BSLASH).
    + destruct tl as [|c1 tl1]; [reflexivity|].
      specialize (IH tl1 ltac:(simpl in Hlen; lia)).
      destruct (tf_string tl1) as [s rest]. cbn [fst snd app] in *. now rewrite IH.
    + destruct (c == DQUOTE); [reflexivity|].
      specialize (IH tl ltac:(lia)).
      destruct (tf_string tl) as [s rest]. cbn [fst snd app] in *. now rewrite IH.
Qed.

Lemma tf_string_app (tl s rest : text) : tf_string tl = (s, rest) -> s ++ rest = tl.
Proof.
  intros H. pose proof (@tf_string_app_n (length tl) tl (Nat.le_refl _)) as Ha.
  now rewrite H in Ha.
Qed.

Lemma tf_heredoc_app (fuel : nat) (delim : text) :
  forall r body rest, tf_heredoc fuel delim r = (body, rest) -> body ++ rest = r.
Proof.
  induction fuel as [|fuel IH]; intros r body rest H.
  - injection H as <- <-. reflexivity.
  - destruct r as [|c tl]; [cbn in H; injection H as <- <-; reflexivity|].
    revert H. cbn [tf_heredoc].
    pose proof (takeWhile_dropWhile not_nl (c :: tl)) as Hsplit.
    destruct (dropWhile not_nl (c :: tl)) as [|nl rest'] eqn:Ed.
    + rewrite app_nil_r in Hsplit. rewrite Hsplit.
      destruct (text_eqb _ delim); intros H; injection H as <- <-; apply app_nil_r.
    + destruct (text_eqb _ delim).
      * intros H; injection H as <- <-. now rewrite <- app_assoc.
      * destruct (tf_heredoc fuel delim rest') as [b r4] eqn:E.
        unfold emits. cbn [fst snd]. intros H; injection H as <- <-.
        rewrite <- !app_assoc. cbn [app]. now rewrite (IH _ _ _ E).
Qed.

Lemma tf_skip_block_suffix_n (n : nat) :
  forall r, length r <= n -> exists pre, r = pre ++ tf_skip_block r.
Proof.
  induction n as [|n IH]; intros r Hlen.
  - destruct r; [now exists []|simpl in Hlen; lia].
  - destruct r as [|c [|c1 tl1]].
    + now exists [].
    + now exists [c].
    + cbn [tf_skip_block]. destruct ((c == STAR) && (c1 == SLASH)).
      * now exists [c; c1].
      * destruct (IH (c1 :: tl1) ltac:(simpl in *; lia)) as [pre Hpre].
        exists (c :: pre). cbn [app]. now f_equal.
Qed.

Lemma tf_skip_block_suffix (r : text) : exists pre, r = pre ++ tf_skip_block r.
Proof. now apply (@tf_skip_block_suffix_n (length r)). Qed.

Lemma count_nl_takeWhile_not_nl (s : text) : count_nl (takeWhile not_nl s) = 0.
Proof.
  apply count_nl_no_nl. induction s as [|c s IH]; simpl; [constructor|].
  unfold not_nl at 1. destruct (Z.eqb_spec c NL); simpl; [constructor|].
  now constructor.
Qed.

Lemma index_None_app (sep pre s : text) :
  index sep (pre ++ s) = None -> index sep s = None.
Proof.
  induction pre as [|c pre IH]; [easy|].
  cbn [app index]. destruct (has_prefix sep (c :: pre ++ s)); [discriminate|].
  destruct (index sep (pre ++ s)); [discriminate|]. intros _. now apply IH.
Qed.

Lemma index_None_prefix (sep s : text) : index sep s = None -> has_prefix sep s = false.
Proof.
  destruct s as [|c s]; cbn [index].
  - now destruct (has_prefix sep []).
  - now destruct (has_prefix sep (c :: s)).
Qed.

(** One iteration of the main loop consumes a non-empty prefix of the text,
    never writes more newlines than it consumes, and writes exactly as many
    when no block comment opens anywhere in the text. *)
Lemma tf_tail_spec (p out rest : text) :
  tf_tail p = Some (out, rest) ->
  exists pre, p = pre ++ rest /\ pre <> []
              /\ count_nl out <= count_nl pre
              /\ (has_prefix [SLASH; STAR] p = false -> count_nl out = count_nl pre).
Proof.
  unfold tf_tail. destruct p as [|c tl]; [discriminate|].
  assert (Hcomment : c <> NL ->
            exists pre, c :: tl = pre ++ dropWhile not_nl (c :: tl) /\ pre <> []
                        /\ count_nl [] <= count_nl pre
                        /\ (has_prefix [SLASH; STAR] (c :: tl) = false ->
                            count_nl [] = count_nl pre)).
  { intros Hc. exists (takeWhile not_nl (c :: tl)).
    rewrite takeWhile_dropWhile, count_nl_takeWhile_not_nl.
    repeat split; auto.
    cbn [takeWhile]. unfold not_nl at 1.
    destruct (Z.eqb_spec c NL); [contradiction|discriminate]. }
  destruct (c == HASH) eqn:Eh.
  { intros H; injection H as <- <-. apply Hcomment.
    apply Zeqb_true in Eh. subst c. discriminate. }
  destruct (has_prefix [SLASH; SLASH] (c :: tl)) eqn:Ess.
  { intros H; injection H as <- <-. apply Hcomment.
    apply has_prefix_spec in Ess as [r Hr]. injection Hr as -> _. discriminate. }
  destruct (has_prefix [SLASH; STAR] (c :: tl)) eqn:Est.
  { apply has_prefix_spec in Est as [r Hr]. cbn [app] in Hr. injection Hr as -> ->.
    cbn [skipn]. intros H; injection H as <- <-.
    destruct (tf_skip_block_suffix r) as [pre Hpre].
    exists (SLASH :: STAR :: pre). cbn [app]. rewrite <- Hpre.
    repeat split; [discriminate|cbn; lia|discriminate]. }
  intros H; injection H as <- <-. exists [c]. repeat split; auto; discriminate.
Qed.

Lemma firstn_suffix (pre suf : text) :
  firstn (length (pre ++ suf) - length suf) (pre ++ suf) = pre.
Proof.
  rewrite length_app.
  replace (length pre + length suf - length suf) with (length pre + 0) by lia.
  rewrite firstn_app_2. cbn. apply app_nil_r.
Qed.

Lemma tf_step_spec (runes out rest : text) :
  runes <> [] -> tf_step runes = Some (out, rest) ->
  exists pre, runes = pre ++ rest /\ pre <> []
              /\ count_nl out <= count_nl pre
              /\ (index [SLASH; STAR] runes = None -> count_nl out = count_nl pre).
Proof.
  intros Hne. unfold tf_step. destruct runes as [|c tl]; [contradiction|].
  destruct (c == DQUOTE).
  { destruct (tf_string tl) as [s r] eqn:Es. intros H; injection H as <- <-.
    exists (c :: s). apply tf_string_app in Es.
    repeat split; [cbn; now rewrite Es|discriminate|lia]. }
  destruct ((2 <? length (c :: tl)) && has_prefix [LESS; LESS] (c :: tl)) eqn:Eh;
    [|intros H; apply tf_tail_spec in H as (pre & Hpre & Hn & Hle & Heq);
      exists pre; repeat split; auto using index_None_prefix].
  apply andb_true_iff in Eh as [_ Eh].
  apply has_prefix_spec in Eh as [r1 Hr1]. cbn [app] in Hr1. rewrite Hr1.
  change (skipn 2 (LESS :: LESS :: r1)) with r1.
  set (r2 := if has_prefix [MINUS] r1 then skipn 1 r1 else r1).
  assert (Hr2 : exists p0, LESS :: LESS :: r1 = p0 ++ r2 /\ p0 <> [] /\ count_nl p0 = 0).
  { subst r2. destruct (has_prefix [MINUS] r1) eqn:Em.
    - apply has_prefix_spec in Em as [r Hr]. rewrite Hr. cbn [app skipn].
      now exists [LESS; LESS; MINUS].
    - now exists [LESS; LESS]. }
  destruct Hr2 as (p0 & Hp0 & Hp0ne & Hp0c).
  destruct (0 <? length (takeWhile is_delim_rune r2)).
  - match goal with
    | |- context [tf_heredoc ?f ?d ?r] => destruct (tf_heredoc f d r) as [body r4] eqn:Eb
    end.
    apply tf_heredoc_app in Eb.
    assert (Hw : LESS :: LESS :: r1
                 = (p0 ++ takeWhile is_delim_rune r2) ++ dropWhile is_delim_rune r2)
      by now rewrite <- app_assoc, takeWhile_dropWhile.
    assert (Hf : firstn (length (LESS :: LESS :: r1)
                         - length (dropWhile is_delim_rune r2)) (LESS :: LESS :: r1)
                 = p0 ++ takeWhile is_delim_rune r2)
      by (rewrite Hw; apply firstn_suffix).
    rewrite Hf. intros H; injection H as <- <-.
    exists ((p0 ++ takeWhile is_delim_rune r2) ++ body).
    repeat split; [|destruct p0; [contradiction|discriminate]|lia].
    rewrite Hw at 1. now rewrite <- (app_assoc _ body r4), Eb.
  - intros H. apply tf_tail_spec in H as (pre & Hpre & Hn & Hle & Heq).
    exists (p0 ++ pre). rewrite count_nl_app, Hp0c.
    repeat split.
    + now rewrite <- app_assoc, <- Hpre.
    + destruct p0; [contradiction|discriminate].
    + exact Hle.
    + intros Hi. apply Heq. apply index_None_prefix.
      rewrite Hp0 in Hi. now apply index_None_app in Hi.
Qed.

Lemma tf_step_shrinks (runes out rest : text) :
  runes <> [] -> tf_step runes = Some (out, rest) -> length rest < length runes.
Proof.
  intros Hne H. destruct (tf_step_spec Hne H) as (pre & -> & Hp & _).
  rewrite length_app. destruct pre; [contradiction|simpl; lia].
Qed.

(** The fuel of the main loop is no restriction. *)
Lemma tf_main_fuel_n (n : nat) :
  forall runes, length runes <= n ->
  forall fuel, length runes <= fuel -> tf_main fuel runes = tf_main (length runes) runes.
Proof.
  induction n as [|n IH]; intros runes Hn fuel Hf.
  - destruct runes; [now destruct fuel|simpl in Hn; lia].
  - destruct runes as [|c tl]; [now destruct fuel|].
    destruct fuel as [|fuel]; [simpl in Hf; lia|].
    cbn [length tf_main].
    destruct (tf_step (c :: tl)) as [[out rest]|] eqn:E; [|reflexivity].
    apply tf_step_shrinks in E; [|discriminate]. simpl in *.
    rewrite (IH rest ltac:(lia) fuel ltac:(lia)).
    now rewrite (IH rest ltac:(lia) (length tl) ltac:(lia)).
Qed.

Lemma tf_main_fuel (fuel : nat) (runes : text) :
  length runes <= fuel -> tf_main fuel runes = removeTerraformComments runes.
Proof. intros H. now apply (@tf_main_fuel_n (length runes)). Qed.

Lemma removeTerraformComments_step (runes out rest : text) :
  runes <> [] -> tf_step runes = Some (out, rest) ->
  removeTerraformComments runes = option_map (app out) (removeTerraformComments rest).
Proof.
  intros Hne H. unfold removeTerraformComments at 1.
  destruct runes as [|c tl]; [contradiction|].
  cbn [length tf_main]. rewrite H.
  apply tf_step_shrinks in H; [|discriminate].
  rewrite tf_main_fuel; [reflexivity|simpl in H; lia].
Qed.


Lemma tf_main_count (fuel : nat) :
  forall runes out, tf_main fuel runes = Some out ->
  count_nl out <= count_nl runes
  /\ (length runes <= fuel -> index [SLASH; STAR] runes = None ->
      count_nl out = count_nl runes).
Proof.
  induction fuel as [|fuel IH]; intros runes out H.
  - injection H as <-. split; [cbn; lia|].
    intros Hl _. destruct runes; [reflexivity|simpl in Hl; lia].
  - destruct runes as [|c tl]; [cbn in H; injection H as <-; split; auto|].
    revert H. cbn [tf_main].
    destruct (tf_step (c :: tl)) as [[o rest]|] eqn:E; [|discriminate].
    destruct (tf_main fuel rest) as [outs|] eqn:Em; [|discriminate].
    cbn [option_map]. intros H; injection H as <-.
    destruct (@tf_step_spec (c :: tl) o rest ltac:(discriminate) E)
      as (pre & Hpre & Hn & Hle & Heq).
    destruct (IH _ _ Em) as [IHle IHeq].
    rewrite Hpre, !count_nl_app. split; [lia|].
    intros Hl Hi. rewrite Heq by (rewrite Hpre; exact Hi).
    rewrite IHeq; [reflexivity| |].
    + rewrite length_app in Hl. destruct pre; [contradiction|simpl in Hl; lia].
    + now apply index_None_app in Hi.
Qed.

(* ------------------------------------------------------------------ *)
(** ** Line counts of whole documents *)

Lemma removeYAMLComments_count (d : text) :
  count_nl (removeYAMLComments d) = count_nl d.
Proof.
  pose proof (@for_lines_count unit yaml_line (fun _ => True)
                (fun st line H => yaml_line_count st false H)
                (fun st line H _ => yaml_line_count st true H)
                (Split d) tt (@Split_not_nil d) (Split_no_nl d) I) as H.
  rewrite Split_count in H. unfold removeYAMLComments. lia.
Qed.

Lemma removeGoComments_count (d : text) :
  go_inBlockComment (snd (go_run d)) = false ->
  count_nl (removeGoComments d) = count_nl d.
Proof.
  intros Hg.
  pose proof (@for_lines_count go_state go_line (fun st => go_inBlockComment st = false)
                go_line_inner go_line_last
                (Split d) (GoState false false) (@Split_not_nil d) (Split_no_nl d) Hg) as H.
  rewrite Split_count in H. unfold removeGoComments, go_run. lia.
Qed.

Lemma removeJSComments_count (d : text) :
  js_inBlockComment (snd (js_run d)) = false ->
  count_nl (removeJSComments d) = count_nl d.
Proof.
  intros Hg.
  pose proof (@for_lines_count js_state js_line (fun st => js_inBlockComment st = false)
                js_line_inner js_line_last
                (Split d) (JsState false false) (@Split_not_nil d) (Split_no_nl d) Hg) as H.
  rewrite Split_count in H. unfold removeJSComments, js_run. lia.
Qed.

Lemma removePythonComments_count {rt : GoRuntime} (d out : text) :
  removePythonComments d = Some out -> count_nl out = count_nl d.
Proof.
  unfold removePythonComments, py_run.
  destruct (for_lines_opt py_line (false, []) (Split d)) as [[o st]|] eqn:E; [|discriminate].
  intros H; injection H as <-.
  pose proof (@for_lines_opt_count py_state py_line (fun _ => True)
                (fun st line out st' Hl Hb => py_line_count st false Hl Hb)
                (fun st line out st' Hl Hb _ => py_line_count st true Hl Hb)
                (Split d) _ _ _ (@Split_not_nil d) (Split_no_nl d) E I) as H.
  rewrite Split_count in H. lia.
Qed.

Lemma rust_run_count {rt : GoRuntime} (d out : text) (st : rust_state) :
  rust_run d = Some (out, st) -> fst st = false -> count_nl out = count_nl d.
Proof.
  unfold rust_run. intros E Hg.
  pose proof (@for_lines_opt_count rust_state rust_line (fun st => fst st = false)
                rust_line_inner rust_line_last
                (Split d) _ _ _ (@Split_not_nil d) (Split_no_nl d) E Hg) as H.
  rewrite Split_count in H. lia.
Qed.

(* ------------------------------------------------------------------ *)
(** ** Trailing blanks *)

Lemma no_trailing_blank_nil : no_trailing_blank [].
Proof. intros pre c H. now destruct pre. Qed.

Lemma trimmed_line_TrimRight (s : text) (last : bool) :
  trimmed_line (TrimRight s ++ eol last) last.
Proof. exists (TrimRight s). split; [reflexivity|apply TrimRight_no_trailing_blank]. Qed.

Lemma trimmed_line_empty (last : bool) : trimmed_line ([] ++ eol last) last.
Proof. exists []. split; [reflexivity|apply no_trailing_blank_nil]. Qed.

Lemma go_line_trimmed (last : bool) (line : text) :
  trimmed_line (fst (go_line (GoState false false) last line)) last.
Proof.
  unfold go_line, go_block, go_normal. cbn [go_inRawStringMultiline go_inBlockComment].
  destruct (go_scan _ _ _ _ _ line) as [cleaned st]. cbn [fst app].
  apply trimmed_line_TrimRight.
Qed.

Lemma js_line_trimmed (last : bool) (line : text) :
  trimmed_line (fst (js_line (JsState false false) last line)) last.
Proof.
  unfold js_line, js_normal. cbn [js_inTemplateLiteralMultiline js_inBlockComment].
  destruct (js_scan _ _ _ _ _ line) as [cleaned st]. cbn [fst].
  destruct (js_inTemplateLiteralMultiline st);
    [apply trimmed_line_empty|apply trimmed_line_TrimRight].
Qed.

Lemma py_line_trimmed {rt : GoRuntime} (last : bool) (line out : text) (st : py_state) :
  py_line (false, []) last line = Some (out, st) -> trimmed_line out last.
Proof.
  unfold py_line.
  destruct (py_scan _ _ _ _ _ line) as [[cleaned st']|]; [|discriminate].
  intros H; injection H as <- <-.
  destruct (fst st'); [apply trimmed_line_empty|apply trimmed_line_TrimRight].
Qed.

Lemma rust_line_trimmed {rt : GoRuntime} (last : bool) (depth : Z) (line out : text) (st : rust_state) :
  rust_line (false, depth) last line = Some (out, st) -> trimmed_line out last.
Proof.
  unfold rust_line, rust_normal.
  destruct (rust_scan _ _ _ _ _ _ _ line) as [[cleaned st']|]; [|discriminate].
  intros H; injection H as <- <-. apply trimmed_line_TrimRight.
Qed.

Lemma yaml_line_trimmed (last : bool) (line : text) :
  trimmed_line (fst (yaml_line tt last line)) last.
Proof. unfold yaml_line. cbn [fst]. apply trimmed_line_TrimRight. Qed.

Lemma removeYAMLComments_lines_trimmed (d : text) :
  Forall no_trailing_blank (Split (removeYAMLComments d)).
Proof.
  rewrite removeYAMLComments_lines, Split_doc.
  - apply Forall_map, Forall_forall. intros l _. apply TrimRight_no_trailing_blank.
  - pose proof (Split_not_nil d). destruct (Split d); [contradiction|discriminate].
  - pose proof (Split_no_nl d) as H.
    induction H; simpl; constructor; auto using yaml_clean_no_nl.
Qed.

(* ------------------------------------------------------------------ *)
(** ** The closing line of a Go raw string *)

Lemma index_first (c : rune) (pre post : text) :
  index [c] pre = None -> index [c] (pre ++ c :: post) = Some (length pre).
Proof.
  induction pre as [|x pre IH]; intros H.
  - cbn. now rewrite Z.eqb_refl.
  - revert H. cbn [app index length has_prefix].
    destruct ((c == x) && true); [discriminate|].
    destruct (index [c] pre); [discriminate|]. intros _. now rewrite IH.
Qed.

Lemma firstn_app_cons (pre post : text) (c : rune) :
  firstn (length pre + 1) (pre ++ c :: post) = pre ++ [c].
Proof.
  rewrite firstn_app, firstn_all2 by lia.
  replace (length pre + 1 - length pre) with 1 by lia. reflexivity.
Qed.

Lemma skipn_app_cons (pre post : text) (c : rune) :
  skipn (length pre + 1) (pre ++ c :: post) = post.
Proof.
  rewrite skipn_app, skipn_all2 by lia.
  replace (length pre + 1 - length pre) with 1 by lia. reflexivity.
Qed.

Lemma go_line_closes_raw_string (pre post : text) (last : bool) :
  index [BTICK] pre = None ->
  go_line (GoState false true) last (pre ++ BTICK :: post)
  = (pre ++ BTICK :: fst (go_line (GoState false false) last post),
     snd (go_line (GoState false false) last post)).
Proof.
  intros Hpre. unfold go_line.
  cbn [go_inRawStringMultiline go_inBlockComment].
  rewrite (@index_first BTICK pre post Hpre), firstn_app_cons, skipn_app_cons.
  unfold go_block, go_normal.
  destruct (go_scan (length post) false false false false post) as [cleaned st].
  cbn [fst snd app]. now rewrite <- app_assoc.
Qed.

Lemma go_line_comment_after_raw_string (pre comment : text) (last : bool) :
  index [BTICK] pre = None ->
  go_line (GoState false true) last (pre ++ BTICK :: SP :: SLASH :: SLASH :: comment)
  = (pre ++ [BTICK] ++ eol last, GoState false false).
Proof.
  intros Hpre. rewrite (@go_line_closes_raw_string pre _ last Hpre).
  unfold go_line, go_block, go_normal.
  cbn [go_inRawStringMultiline go_inBlockComment length go_scan].
  cbn. reflexivity.
Qed.

(* ------------------------------------------------------------------ *)
(** ** Heredocs *)




Lemma tf_heredoc_unfold (fuel : nat) (delim r : text) :
  r <> [] ->
  tf_heredoc (S fuel) delim r
  = if text_eqb (TrimSpace (takeWhile not_nl r)) delim then
      match dropWhile not_nl r with
      | nl :: rest' => (takeWhile not_nl r ++ [nl], rest')
      | [] => (takeWhile not_nl r, [])
      end
    else
      match dropWhile not_nl r with
      | nl :: rest' => emits (takeWhile not_nl r ++ [nl]) (tf_heredoc fuel delim rest')
      | [] => (takeWhile not_nl r, [])
      end.
Proof. destruct r; [contradiction|reflexivity]. Qed.







(* ------------------------------------------------------------------ *)
(** ** Strings with escapes *)

Lemma Split_single (l : text) : no_nl l -> Split l = [l].
Proof.
  intros H. apply (@Split_doc [l]); [discriminate|now constructor].
Qed.

Lemma TrimRight_snoc_blank (x : text) (c : rune) :
  is_blank c = false -> TrimRight (x ++ [c; SP]) = x ++ [c].
Proof.
  intros Hc. unfold TrimRight.
  induction x as [|a x IH]; cbn [app TrimRightFunc].
  - cbn. now rewrite Hc.
  - rewrite IH. now destruct x.
Qed.

Lemma TrimRight_snoc (x : text) (c : rune) :
  is_blank c = false -> TrimRight (x ++ [c]) = x ++ [c].
Proof.
  intros Hc. unfold TrimRight.
  induction x as [|a x IH]; cbn [app TrimRightFunc].
  - cbn. now rewrite Hc.
  - rewrite IH. now destruct x.
Qed.

Lemma str_body_no_nl (items : list str_item) :
  Forall item_ok items -> no_nl (str_body items).
Proof.
  induction 1 as [|i items Hi _ IH]; [constructor|].
  unfold str_body. cbn [flat_map]. apply Forall_app. split; [|exact IH].
  destruct i as [c|c]; cbn in *; repeat constructor; try tauto; discriminate.
Qed.

Lemma sq_body_no_nl (items : list sq_item) :
  Forall sq_ok items -> no_nl (sq_body items).
Proof.
  induction 1 as [|i items Hi _ IH]; [constructor|].
  unfold sq_body. cbn [flat_map]. apply Forall_app. split; [|exact IH].
  destruct i as [c|]; cbn in *; repeat constructor; try tauto; discriminate.
Qed.

Lemma emits_nil (A : Type) (r : text * A) : emits [] r = r.
Proof. now destruct r. Qed.

Lemma emit_emits (A : Type) (c : rune) (s : text) (r : text * A) :
  emit c (emits s r) = emits (c :: s) r.
Proof. reflexivity. Qed.

(** Settles the comparisons of a symbolic rune in the goal: those decided by
    a hypothesis are rewritten, the others are split. *)
Ltac settle_eqb :=
  repeat match goal with
         | H : ?c <> ?k |- context [?c == ?k] => rewrite (proj2 (Z.eqb_neq c k) H)
         | |- context [?c == ?k] =>
             lazymatch c with
             | Zpos _ => fail
             | Z0 => fail
             | _ => is_var c; destruct (c == k)
             end
         end;
  cbn [andb orb negb].

Lemma go_scan_in_string (items : list str_item) :
  Forall item_ok items ->
  forall fuel tail,
    length (str_body items ++ tail) <= fuel ->
    go_scan fuel true false false false (str_body items ++ tail)
    = emits (str_body items)
            (go_scan (fuel - length (str_body items)) true false false false tail).
Proof.
  induction 1 as [|i items Hi _ IH]; intros fuel tail Hfuel.
  - cbn [str_body flat_map app length]. now rewrite Nat.sub_0_r, emits_nil.
  - unfold str_body in *. cbn [flat_map] in *. rewrite <- app_assoc in *.
    destruct i as [c|c]; cbn [render_item app length] in *.
    + destruct Hi as (Hb & Hq & _).
      destruct fuel as [|fuel]; [lia|].
      cbn [go_scan]. settle_eqb.
      all: rewrite IH by lia; reflexivity.
    + destruct fuel as [|[|fuel]]; [lia|lia|].
      cbn [go_scan]. rewrite Z.eqb_refl. cbn [andb orb].
      rewrite IH by lia. reflexivity.
Qed.

Lemma dq_line_no_nl (items : list str_item) (tail : text) :
  Forall item_ok items -> no_nl tail -> no_nl (dq_string items ++ tail).
Proof.
  intros Hi Ht. unfold dq_string. cbn [app]. constructor; [discriminate|].
  rewrite <- app_assoc. apply Forall_app. split; [now apply str_body_no_nl|].
  cbn [app]. constructor; [discriminate|exact Ht].
Qed.

Lemma dq_line_shape (items : list str_item) (tail : text) :
  dq_string items ++ tail = DQUOTE :: str_body items ++ DQUOTE :: tail.
Proof. unfold dq_string. cbn [app]. now rewrite <- app_assoc. Qed.

Lemma dq_fuel (items : list str_item) (tail : text) (k : nat) :
  length (str_body items ++ tail) + k - length (str_body items) = length tail + k.
Proof. rewrite length_app. lia. Qed.

Lemma js_scan_in_string (items : list str_item) :
  Forall item_ok items ->
  forall fuel tail,
    length (str_body items ++ tail) <= fuel ->
    js_scan fuel true false DQUOTE false (str_body items ++ tail)
    = emits (str_body items)
            (js_scan (fuel - length (str_body items)) true false DQUOTE false tail).
Proof.
  induction 1 as [|i items Hi _ IH]; intros fuel tail Hfuel.
  - cbn [str_body flat_map app length]. now rewrite Nat.sub_0_r, emits_nil.
  - unfold str_body in *. cbn [flat_map] in *. rewrite <- app_assoc in *.
    destruct i as [c|c]; cbn [render_item app length] in *.
    + destruct Hi as (Hb & Hq & _).
      destruct fuel as [|fuel]; [lia|].
      cbn [js_scan]. settle_eqb.
      all: rewrite IH by lia; reflexivity.
    + destruct fuel as [|[|fuel]]; [lia|lia|].
      cbn [js_scan]. rewrite Z.eqb_refl. cbn [andb orb].
      rewrite IH by lia. reflexivity.
Qed.

Lemma emits_opt_nil (A : Type) (r : option (text * A)) : emits_opt [] r = r.
Proof. now destruct r as [[o s]|]. Qed.

Lemma emit_emits_opt (A : Type) (c : rune) (s : text) (r : option (text * A)) :
  emit_opt c (emits_opt s r) = emits_opt (c :: s) r.
Proof. now destruct r as [[o st]|]. Qed.

Lemma rust_scan_in_string (room : nat) (items : list str_item) (depth : Z) :
  Forall item_ok items ->
  forall fuel tail,
    length (str_body items ++ tail) <= fuel ->
    rust_scan room fuel true false false false depth (str_body items ++ tail)
    = emits_opt (str_body items)
        (rust_scan room (fuel - length (str_body items)) true false false false depth tail).
Proof.
  induction 1 as [|i items Hi _ IH]; intros fuel tail Hfuel.
  - cbn [str_body flat_map app length]. now rewrite Nat.sub_0_r, emits_opt_nil.
  - unfold str_body in *. cbn [flat_map] in *. rewrite <- app_assoc in *.
    destruct i as [c|c]; cbn [render_item app length] in *.
    + destruct Hi as (Hb & Hq & _).
      destruct fuel as [|fuel]; [lia|].
      cbn [rust_scan]. settle_eqb.
      all: rewrite IH by lia; now rewrite emit_emits_opt.
    + destruct fuel as [|[|fuel]]; [lia|lia|].
      cbn [rust_scan]. rewrite Z.eqb_refl. cbn [andb orb].
      rewrite IH by lia. now rewrite !emit_emits_opt.
Qed.

Lemma py_scan_in_string (room : nat) (items : list str_item) :
  Forall item_ok items ->
  forall fuel tail,
    length (str_body items ++ tail) <= fuel ->
    py_scan room fuel true DQUOTE false (str_body items ++ tail)
    = emits_opt (str_body items)
        (py_scan room (fuel - length (str_body items)) true DQUOTE false tail).
Proof.
  induction 1 as [|i items Hi _ IH]; intros fuel tail Hfuel.
  - cbn [str_body flat_map app length]. now rewrite Nat.sub_0_r, emits_opt_nil.
  - unfold str_body in *. cbn [flat_map] in *. rewrite <- app_assoc in *.
    destruct i as [c|c]; cbn [render_item app length] in *.
    + destruct Hi as (Hb & Hq & _).
      destruct fuel as [|fuel]; [lia|].
      cbn [py_scan]. settle_eqb.
      all: rewrite IH by lia; now rewrite emit_emits_opt.
    + destruct fuel as [|[|fuel]]; [lia|lia|].
      cbn [py_scan]. rewrite Z.eqb_refl. cbn [andb orb].
      rewrite IH by lia. now rewrite !emit_emits_opt.
Qed.

(** Evaluates the comparisons between constant runes in the goal. *)
Ltac eval_const_eqb :=
  repeat match goal with
         | |- context [?a == ?b] =>
             tryif first [is_var a | is_var b] then fail
             else (let v := eval vm_compute in (a == b) in change (a == b) with v)
         end;
  cbn [andb orb negb].

Lemma yaml_scan_in_dq (items : list str_item) (tail : text) :
  Forall item_ok items ->
  yaml_scan true DQUOTE false (str_body items ++ tail)
  = str_body items ++ yaml_scan true DQUOTE false tail.
Proof.
  induction 1 as [|i items Hi _ IH]; [reflexivity|].
  unfold str_body in *. cbn [flat_map] in *. rewrite <- !app_assoc.
  remember (flat_map render_item items ++ tail) as tl eqn:Etl.
  destruct i as [c|c]; cbn [render_item app].
  - destruct Hi as (Hb & Hq & _).
    cbn [yaml_scan]. destruct tl as [|c1 tl1]; eval_const_eqb; settle_eqb;
      now rewrite IH.
  - cbn [yaml_scan]. eval_const_eqb. now rewrite IH.
Qed.

Lemma yaml_scan_in_sq (items : list sq_item) (tail : text) :
  Forall sq_ok items ->
  yaml_scan true SQUOTE false (sq_body items ++ tail)
  = sq_body items ++ yaml_scan true SQUOTE false tail.
Proof.
  intros Hi. induction Hi as [|i items Hi _ IH]; [reflexivity|].
  unfold sq_body in *. cbn [flat_map] in *. rewrite <- !app_assoc.
  remember (flat_map render_sq items ++ tail) as tl eqn:Etl.
  destruct i as [c|]; cbn [render_sq app].
  - destruct Hi as (Hq & _).
    cbn [yaml_scan]. destruct tl as [|c1 tl1]; eval_const_eqb; settle_eqb;
      now rewrite IH.
  - cbn [yaml_scan]. eval_const_eqb. now rewrite IH.
Qed.

Lemma removeYAMLComments_single (line : text) :
  no_nl line -> removeYAMLComments line = yaml_clean line.
Proof.
  intros H. now rewrite removeYAMLComments_lines, (Split_single H).
Qed.

Lemma tf_string_body (items : list str_item) (tail : text) :
  Forall item_ok items ->
  tf_string (str_body items ++ DQUOTE :: tail) = (str_body items ++ [DQUOTE], tail).
Proof.
  induction 1 as [|i items Hi _ IH]; [reflexivity|].
  unfold str_body in *. cbn [flat_map] in *. rewrite <- !app_assoc.
  destruct i as [c|c]; cbn [render_item app tf_string].
  - destruct Hi as (Hb & Hq & _). settle_eqb. now rewrite IH.
  - eval_const_eqb. now rewrite IH.
Qed.

(* ------------------------------------------------------------------ *)
(** ** The fuel of the character loops is no restriction *)

Lemma go_scan_fuel_n (n : nat) :
  forall runes, length runes <= n ->
  forall fuel a b c d, length runes <= fuel ->
    go_scan fuel a b c d runes = go_scan (length runes) a b c d runes.
Proof.
  induction n as [|n IH]; intros runes Hn fuel a b c d Hf.
  - destruct runes; [now destruct fuel|simpl in Hn; lia].
  - destruct runes as [|ch tl]; [now destruct fuel|].
    destruct fuel as [|fuel]; [simpl in Hf; lia|].
    simpl in Hn, Hf.
    assert (Hrec : forall r a b c d, length r <= length tl ->
               go_scan fuel a b c d r = go_scan (length tl) a b c d r).
    { intros r a0 b0 c0 d0 Hr.
      rewrite (IH r ltac:(lia) fuel) by lia.
      now rewrite (IH r ltac:(lia) (length tl)) by lia. }
    cbn [length go_scan].
    repeat case_step; rewrite ?Hrec; try reflexivity;
      rewrite ?length_skipn; cbn [length]; lia.
Qed.

Lemma js_scan_fuel_n (n : nat) :
  forall runes, length runes <= n ->
  forall fuel a b c d, length runes <= fuel ->
    js_scan fuel a b c d runes = js_scan (length runes) a b c d runes.
Proof.
  induction n as [|n IH]; intros runes Hn fuel a b c d Hf.
  - destruct runes; [now destruct fuel|simpl in Hn; lia].
  - destruct runes as [|ch tl]; [now destruct fuel|].
    destruct fuel as [|fuel]; [simpl in Hf; lia|].
    simpl in Hn, Hf.
    assert (Hrec : forall r a b c d, length r <= length tl ->
               js_scan fuel a b c d r = js_scan (length tl) a b c d r).
    { intros r a0 b0 c0 d0 Hr.
      rewrite (IH r ltac:(lia) fuel) by lia.
      now rewrite (IH r ltac:(lia) (length tl)) by lia. }
    cbn [length js_scan].
    repeat case_step; rewrite ?Hrec; try reflexivity;
      rewrite ?length_skipn; cbn [length]; lia.
Qed.

Lemma py_scan_fuel_n (room : nat) (n : nat) :
  forall runes, length runes <= n ->
  forall fuel a b c, length runes <= fuel ->
    py_scan room fuel a b c runes = py_scan room (length runes) a b c runes.
Proof.
  induction n as [|n IH]; intros runes Hn fuel a b c Hf.
  - destruct runes; [now destruct fuel|simpl in Hn; lia].
  - destruct runes as [|ch tl]; [now destruct fuel|].
    destruct fuel as [|fuel]; [simpl in Hf; lia|].
    simpl in Hn, Hf.
    assert (Hrec : forall r a b c, length r <= length tl ->
               py_scan room fuel a b c r = py_scan room (length tl) a b c r).
    { intros r a0 b0 c0 Hr.
      rewrite (IH r ltac:(lia) fuel) by lia.
      now rewrite (IH r ltac:(lia) (length tl)) by lia. }
    cbn [length py_scan].
    repeat case_step; rewrite ?Hrec; try reflexivity;
      rewrite ?length_skipn; cbn [length]; lia.
Qed.

Lemma rust_block_length (n : nat) :
  forall line, length line <= n ->
  forall depth rest d, rust_block depth line = (Some rest, d) -> length rest <= length line.
Proof.
  induction n as [|n IH]; intros line Hlen depth rest d H.
  - destruct line; [discriminate|simpl in Hlen; lia].
  - destruct line as [|c [|c2 rest2]]; try (simpl in H; discriminate).
    simpl in Hlen. revert H. rewrite rust_block_cons2.
    repeat case_step; intros H;
      try (injection H as <- <-; simpl; lia);
      (apply IH in H; [simpl in *; lia|simpl; lia]).
Qed.

Lemma rust_raw_open_length (tl : text) (n : nat) (body : text) :
  rust_raw_open tl = Some (n, body) -> length body < length tl.
Proof.
  intros H. apply rust_raw_open_body in H as (q & Hq & _).
  pose proof (length_skipn n tl) as Hl. rewrite Hq in Hl. simpl in Hl. lia.
Qed.

Lemma rust_scan_fuel_n (room : nat) (n : nat) :
  forall runes, length runes <= n ->
  forall fuel a b c d depth, length runes <= fuel ->
    rust_scan room fuel a b c d depth runes = rust_scan room (length runes) a b c d depth runes.
Proof.
  induction n as [|n IH]; intros runes Hn fuel a b c d depth Hf.
  - destruct runes; [now destruct fuel|simpl in Hn; lia].
  - destruct runes as [|ch tl]; [now destruct fuel|].
    destruct fuel as [|fuel]; [simpl in Hf; lia|].
    simpl in Hn, Hf.
    assert (Hrec : forall r a b c d depth, length r <= length tl ->
               rust_scan room fuel a b c d depth r = rust_scan room (length tl) a b c d depth r).
    { intros r a0 b0 c0 d0 depth0 Hr.
      rewrite (IH r ltac:(lia) fuel) by lia.
      now rewrite (IH r ltac:(lia) (length tl)) by lia. }
    cbn [length rust_scan].
    repeat case_step; rewrite ?Hrec; try reflexivity;
      repeat match goal with
             | E : (if ?b then rust_raw_open _ else None) = Some _ |- _ =>
                 destruct b; [|discriminate]
             | E : rust_raw_open _ = Some _ |- _ => apply rust_raw_open_length in E
             | E : rust_block _ _ = (Some _, _) |- _ =>
                 apply (@rust_block_length _ _ (Nat.le_refl _)) in E
             end;
      rewrite ?length_skipn in *; cbn [length] in *; lia.
Qed.

Lemma tf_heredoc_fuel_n (n : nat) (delim : text) :
  forall r, length r <= n ->
  forall fuel, length r <= fuel ->
    tf_heredoc fuel delim r = tf_heredoc (length r) delim r.
Proof.
  induction n as [|n IH]; intros r Hn fuel Hf.
  - destruct r; [now destruct fuel|simpl in Hn; lia].
  - destruct r as [|c tl]; [now destruct fuel|].
    destruct fuel as [|fuel]; [simpl in Hf; lia|].
    cbn [length]. rewrite !tf_heredoc_unfold by discriminate.
    pose proof (takeWhile_dropWhile not_nl (c :: tl)) as Hs.
    destruct (dropWhile not_nl (c :: tl)) as [|nl rest'] eqn:Ed; [reflexivity|].
    assert (Hl : length rest' < length (c :: tl)).
    { rewrite <- Hs, length_app. simpl. lia. }
    simpl in Hn, Hf, Hl.
    rewrite (IH rest' ltac:(lia) fuel) by lia.
    now rewrite (IH rest' ltac:(lia) (length tl)) by lia.
Qed.

Lemma re_ReplaceAll_fuel_n (n : nat) :
  forall s, length s <= n ->
  forall fuel, length s <= fuel -> re_ReplaceAll fuel s = re_ReplaceAll (length s) s.
Proof.
  induction n as [|n IH]; intros s Hn fuel Hf.
  - destruct s; [now destruct fuel|simpl in Hn; lia].
  - destruct s as [|c tl]; [now destruct fuel|].
    destruct fuel as [|fuel]; [simpl in Hf; lia|].
    simpl in Hn, Hf. cbn [length re_ReplaceAll].
    destruct (re_match_here (c :: tl)) as [rest|] eqn:E.
    + apply re_match_here_length in E. simpl in E.
      rewrite (IH rest ltac:(lia) fuel) by lia.
      now rewrite (IH rest ltac:(lia) (length tl)) by lia.
    + rewrite (IH tl ltac:(lia) fuel) by lia. reflexivity.
Qed.

(* ------------------------------------------------------------------ *)
(** ** Single-quoted strings with backslash escapes (JS/TS, Python) *)

Lemma esc_sq_body_no_nl (items : list str_item) :
  Forall esc_sq_ok items -> no_nl (str_body items).
Proof.
  induction 1 as [|i items Hi _ IH]; [constructor|].
  unfold str_body. cbn [flat_map]. apply Forall_app. split; [|exact IH].
  destruct i as [c|c]; cbn in *; repeat constructor; try tauto; discriminate.
Qed.

Lemma esc_sq_line_no_nl (items : list str_item) (tail : text) :
  Forall esc_sq_ok items -> no_nl tail -> no_nl (esc_sq_string items ++ tail).
Proof.
  intros Hi Ht. unfold esc_sq_string. cbn [app]. constructor; [discriminate|].
  rewrite <- app_assoc. apply Forall_app. split; [now apply esc_sq_body_no_nl|].
  cbn [app]. constructor; [discriminate|exact Ht].
Qed.

Lemma esc_sq_line_shape (items : list str_item) (tail : text) :
  esc_sq_string items ++ tail = SQUOTE :: str_body items ++ SQUOTE :: tail.
Proof. unfold esc_sq_string. cbn [app]. now rewrite <- app_assoc. Qed.

Lemma js_scan_in_sq_string (items : list str_item) :
  Forall esc_sq_ok items ->
  forall fuel tail,
    length (str_body items ++ tail) <= fuel ->
    js_scan fuel true false SQUOTE false (str_body items ++ tail)
    = emits (str_body items)
            (js_scan (fuel - length (str_body items)) true false SQUOTE false tail).
Proof.
  induction 1 as [|i items Hi _ IH]; intros fuel tail Hfuel.
  - cbn [str_body flat_map app length]. now rewrite Nat.sub_0_r, emits_nil.
  - unfold str_body in *. cbn [flat_map] in *. rewrite <- app_assoc in *.
    destruct i as [c|c]; cbn [render_item app length] in *.
    + destruct Hi as (Hb & Hq & _).
      destruct fuel as [|fuel]; [lia|].
      cbn [js_scan]. settle_eqb.
      all: rewrite IH by lia; reflexivity.
    + destruct fuel as [|[|fuel]]; [lia|lia|].
      cbn [js_scan]. rewrite Z.eqb_refl. cbn [andb orb].
      rewrite IH by lia. reflexivity.
Qed.

Lemma py_scan_in_sq_string (room : nat) (items : list str_item) :
  Forall esc_sq_ok items ->
  forall fuel tail,
    length (str_body items ++ tail) <= fuel ->
    py_scan room fuel true SQUOTE false (str_body items ++ tail)
    = emits_opt (str_body items)
        (py_scan room (fuel - length (str_body items)) true SQUOTE false tail).
Proof.
  induction 1 as [|i items Hi _ IH]; intros fuel tail Hfuel.
  - cbn [str_body flat_map app length]. now rewrite Nat.sub_0_r, emits_opt_nil.
  - unfold str_body in *. cbn [flat_map] in *. rewrite <- app_assoc in *.
    destruct i as [c|c]; cbn [render_item app length] in *.
    + destruct Hi as (Hb & Hq & _).
      destruct fuel as [|fuel]; [lia|].
      cbn [py_scan]. settle_eqb.
      all: rewrite IH by lia; now rewrite emit_emits_opt.
    + destruct fuel as [|[|fuel]]; [lia|lia|].
      cbn [py_scan]. rewrite Z.eqb_refl. cbn [andb orb].
      rewrite IH by lia. now rewrite !emit_emits_opt.
Qed.

(* ------------------------------------------------------------------ *)
(** ** The Go remover is idempotent *)

Lemma go_scan_nil (fuel : nat) (a b c d : bool) :
  go_scan fuel a b c d [] = ([], GoState false false).
Proof. now destruct fuel. Qed.

Lemma go_scan_length (fuel : nat) :
  forall a b c d runes, length (fst (go_scan fuel a b c d runes)) <= length runes.
Proof.
  induction fuel as [|fuel IH]; intros a b c d runes; [simpl; lia|].
  destruct runes as [|ch tl]; [simpl; lia|].
  cbn [go_scan].
  repeat case_step; cbn [emit fst length]; try lia;
    match goal with
    | |- context [go_scan fuel ?a' ?b' ?c' ?d' ?r] =>
        specialize (IH a' b' c' d' r); try rewrite length_skipn in IH;
        cbn [length] in *; lia
    end.
Qed.

Lemma is_blank_inv (x : rune) :
  is_blank x = true ->
  (x == BTICK) = false /\ (x == SLASH) = false /\ (x == BSLASH) = false /\
  (x == SQUOTE) = false /\ (x == DQUOTE) = false.
Proof.
  unfold is_blank. intros H. apply orb_true_iff in H as [H|H];
    apply Zeqb_true in H; subst x; repeat split.
Qed.

(** A run of blanks never changes the state. *)
Lemma go_scan_blanks (blanks : text) :
  Forall (fun x => is_blank x = true) blanks ->
  forall fuel a b c d, snd (go_scan fuel a b c d blanks) = GoState false false.
Proof.
  induction 1 as [|x blanks Hx _ IH]; intros fuel a b c d;
    [now rewrite go_scan_nil|].
  destruct fuel as [|fuel]; [reflexivity|].
  destruct (is_blank_inv x Hx) as (Hbt & Hsl & Hbs & Hsq & Hdq).
  cbn [go_scan has_prefix]. rewrite (Z.eqb_sym SLASH x), Hbt, Hsl, Hbs, Hsq, Hdq.
  cbn [andb]. repeat case_step; cbn [emit snd]; apply IH.
Qed.

Lemma index_btick_cons (x : rune) (s : text) :
  index [BTICK] (x :: s) = if x == BTICK then Some 0 else option_map S (index [BTICK] s).
Proof.
  cbn [index has_prefix]. rewrite (Z.eqb_sym BTICK x), andb_true_r. reflexivity.
Qed.

Lemma index_btick_blanks (blanks : text) :
  Forall (fun x => is_blank x = true) blanks -> index [BTICK] blanks = None.
Proof.
  induction 1 as [|x blanks Hx _ IH]; [reflexivity|].
  rewrite index_btick_cons, IH.
  destruct (is_blank_inv x Hx) as (-> & _). reflexivity.
Qed.

Lemma index_btick_app_blanks (p blanks : text) :
  Forall (fun x => is_blank x = true) blanks ->
  index [BTICK] (p ++ blanks) = index [BTICK] p.
Proof.
  intros Hb. induction p as [|x p IH].
  - cbn [app]. now rewrite index_btick_blanks.
  - cbn [app]. rewrite !index_btick_cons, IH. reflexivity.
Qed.

(** Inside a raw string that closes on the line, the closing backtick is
    copied. *)
Lemma go_scan_keeps_backtick (tl : text) :
  forall fuel k, index [BTICK] tl = Some k -> length tl <= fuel ->
    index [BTICK] (fst (go_scan fuel false true false false tl)) <> None.
Proof.
  induction tl as [|x tl IH]; intros fuel k Hk Hf; [discriminate|].
  destruct fuel as [|fuel]; [simpl in Hf; lia|].
  rewrite index_btick_cons in Hk.
  cbn [go_scan orb andb negb]. rewrite !andb_false_r, !andb_true_r.
  destruct (x == BTICK) eqn:Ex.
  - cbn [emit fst]. rewrite index_btick_cons, Ex. discriminate.
  - cbn [emit fst].
    rewrite index_btick_cons, Ex.
    destruct (index [BTICK] tl) as [k'|] eqn:Ek; [|discriminate].
    specialize (IH fuel k' eq_refl ltac:(simpl in Hf; lia)).
    destruct (index [BTICK] (fst (go_scan fuel false true false false tl)));
      [discriminate|contradiction].
Qed.

(** Outside strings, a slash that starts no comment is followed in the
    output by the rune that followed it in the input. *)
Lemma go_scan_head (x : rune) (tl : text) (fuel : nat) :
  (x == SLASH) = false ->
  fuel <> 0 ->
  exists r, fst (go_scan fuel false false false false (x :: tl)) = x :: r.
Proof.
  intros Hx Hf. destruct fuel as [|fuel]; [contradiction|].
  cbn [go_scan has_prefix orb andb negb]. rewrite (Z.eqb_sym SLASH x), Hx.
  rewrite !andb_false_r, !andb_true_r. cbn [andb].
  repeat case_step; cbn [emit fst]; eauto.
Qed.

Lemma has_prefix_slash (y ch : rune) (tl cl : text) (fuel : nat) :
  length tl <= fuel ->
  has_prefix [SLASH; STAR] (ch :: tl) = false ->
  has_prefix [SLASH; SLASH] (ch :: tl) = false ->
  y = STAR \/ y = SLASH ->
  cl = fst (go_scan fuel false false false false tl) ->
  has_prefix [SLASH; y] (ch :: cl) = false.
Proof.
  intros Hf H1 H2 Hy ->. cbn [has_prefix] in *.
  destruct (SLASH == ch) eqn:Ec; [|reflexivity]. cbn [andb] in *.
  destruct tl as [|x tl]; [now rewrite go_scan_nil|].
  rewrite !andb_true_r in *.
  assert (Hx : (x == SLASH) = false) by now rewrite Z.eqb_sym.
  destruct (@go_scan_head x tl fuel Hx) as [r Hr];
    [simpl in Hf; lia|].
  rewrite Hr. rewrite andb_true_r. destruct Hy; subst y; assumption.
Qed.

Ltac flagsimp :=
  cbn [go_scan andb orb negb];
  rewrite ?andb_true_r, ?andb_false_r;
  cbn [andb orb negb].

Ltac flagsimp_in H :=
  cbn [go_scan andb orb negb] in H;
  rewrite ?andb_true_r, ?andb_false_r in H;
  cbn [andb orb negb] in H.

Ltac reuse :=
  repeat match goal with
         | H : ?c = _ |- context [if ?c then _ else _] => rewrite H
         | H : ?c = _ |- context [match ?c with Some _ => _ | None => _ end] => rewrite H
         end.

(** Scanning what a scan kept keeps all of it; a block comment left open
    is gone, an open raw string is still open. *)
Lemma go_scan_rescan_n (n : nat) :
  forall runes, length runes <= n ->
  forall fuel a b c d cl st, length runes <= fuel ->
    go_scan fuel a b c d runes = (cl, st) ->
    forall fuel2, length cl <= fuel2 ->
      go_scan fuel2 a b c d cl = (cl, GoState false (go_inRawStringMultiline st)).
Proof.
  induction n as [|n IH]; intros runes Hn fuel a b c d cl st Hf H fuel2 Hf2.
  - destruct runes; [|simpl in Hn; lia].
    rewrite go_scan_nil in H. injection H as <- <-. now rewrite go_scan_nil.
  - destruct runes as [|ch tl].
    { rewrite go_scan_nil in H. injection H as <- <-. now rewrite go_scan_nil. }
    destruct fuel as [|fuel]; [simpl in Hf; lia|].
    assert (Hlen : length tl <= fuel) by (simpl in Hf; lia).
    assert (Hlen' : length tl <= n) by (simpl in Hn; lia).
    destruct a, b, c, d; flagsimp_in H; revert H; repeat case_step;
      lazymatch goal with
      | |- emit _ (go_scan ?f ?a' ?b' ?c' ?d' ?r) = _ -> _ =>
          let cl' := fresh "cl'" in
          let st' := fresh "st'" in
          let E := fresh "E" in
          destruct (go_scan f a' b' c' d' r) as [cl' st'] eqn:E;
          cbn [emit fst snd]; intros [= <- <-];
          pose proof (IH tl Hlen' fuel a' b' c' d' cl' st' Hlen E) as IH';
          (destruct fuel2 as [|fuel2]; [simpl in Hf2; lia|]);
          flagsimp; reuse;
          try (rewrite (@has_prefix_slash STAR ch tl cl' fuel Hlen)
                 by (first [assumption | now left | now rewrite E]));
          try (rewrite (@has_prefix_slash SLASH ch tl cl' fuel Hlen)
                 by (first [assumption | now right | now rewrite E]));
          try match goal with
              | Hk : index [BTICK] tl = Some ?k |- _ =>
                  let Hb := fresh "Hb" in
                  pose proof (@go_scan_keeps_backtick tl fuel k Hk Hlen) as Hb;
                  rewrite E in Hb; cbn [fst] in Hb;
                  destruct (index [BTICK] cl'); [|contradiction]
              end;
          rewrite IH' by (simpl in Hf2; lia); reflexivity
      | |- go_scan _ _ _ _ _ (skipn _ _) = _ -> _ =>
          intros H;
          eapply IH with (fuel := fuel); [| |exact H|exact Hf2];
          rewrite length_skipn; cbn [length]; lia
      | |- (_ :: _, _) = _ -> _ =>
          intros [= <- <-];
          (destruct fuel2 as [|fuel2]; [simpl in Hf2; lia|]);
          flagsimp; reuse; reflexivity
      | |- ([], _) = _ -> _ =>
          intros [= <- <-]; now rewrite go_scan_nil
      end.
Qed.

Lemma has_prefix2_app (x y ch : rune) (p blanks : text) :
  has_prefix [x; y] (ch :: p ++ blanks) = false ->
  has_prefix [x; y] (ch :: p) = false.
Proof.
  cbn [has_prefix]. destruct (x == ch); [|reflexivity]. cbn [andb].
  destruct p as [|z p]; [reflexivity|]. cbn [app]. tauto.
Qed.

(** A scan that keeps a whole line also keeps the line without its
    trailing blanks. *)
Lemma go_scan_trim (blanks : text) :
  Forall (fun x => is_blank x = true) blanks ->
  forall p fuel a b c d st, length (p ++ blanks) <= fuel ->
    go_scan fuel a b c d (p ++ blanks) = (p ++ blanks, st) ->
    forall fuel2, length p <= fuel2 ->
      go_scan fuel2 a b c d p = (p, st).
Proof.
  intros Hb. induction p as [|ch p IH]; intros fuel a b c d st Hf H fuel2 Hf2.
  - rewrite go_scan_nil. cbn [app] in H.
    pose proof (go_scan_blanks Hb fuel a b c d) as Hs. rewrite H in Hs.
    cbn [snd] in Hs. now subst st.
  - cbn [app] in *.
    destruct fuel as [|fuel]; [simpl in Hf; lia|].
    destruct fuel2 as [|fuel2]; [simpl in Hf2; lia|].
    assert (Hlen : length (p ++ blanks) <= fuel) by (simpl in Hf; lia).
    assert (Hlen2 : length p <= fuel2) by (simpl in Hf2; lia).
    destruct a, b, c, d; flagsimp_in H; revert H; repeat case_step;
      lazymatch goal with
      | |- emit _ (go_scan ?f ?a' ?b' ?c' ?d' ?r) = _ -> _ =>
          let cl' := fresh "cl'" in
          let st' := fresh "st'" in
          let E := fresh "E" in
          destruct (go_scan f a' b' c' d' r) as [cl' st'] eqn:E;
          cbn [emit fst snd]; intros [= -> ->];
          pose proof (IH fuel a' b' c' d' st Hlen E fuel2 Hlen2) as IH';
          flagsimp; reuse;
          repeat match goal with
                 | Hp : has_prefix [?x; ?y] (ch :: p ++ blanks) = false |- _ =>
                     apply has_prefix2_app in Hp
                 end;
          try match goal with
              | Hk : index [BTICK] (p ++ blanks) = _ |- _ =>
                  rewrite (index_btick_app_blanks p Hb) in Hk
              end;
          reuse; rewrite IH'; reflexivity
      | |- go_scan ?f ?a' ?b' ?c' ?d' (skipn ?k ?r) = _ -> _ =>
          intros H; exfalso;
          pose proof (go_scan_length f a' b' c' d' (skipn k r)) as Hl;
          rewrite H, length_skipn in Hl; cbn [fst length] in Hl; lia
      | |- (_ :: _, _) = _ -> _ =>
          intros [= <-];
          flagsimp; reuse;
          try match goal with
              | Hk : index [BTICK] (p ++ blanks) = _ |- _ =>
                  rewrite (index_btick_app_blanks p Hb) in Hk
              end;
          reuse; reflexivity
      | |- ([], _) = _ -> _ => discriminate
      end.
Qed.

Lemma TrimRightFunc_split (cut : rune -> bool) (s : text) :
  exists r, s = TrimRightFunc cut s ++ r /\ Forall (fun x => cut x = true) r.
Proof.
  induction s as [|c s [r [IH Hr]]]; cbn [TrimRightFunc].
  - exists []. split; [reflexivity|constructor].
  - destruct (TrimRightFunc cut s) as [|y t] eqn:E.
    + destruct (cut c) eqn:Ec.
      * exists (c :: s). split; [reflexivity|].
        cbn [app] in IH. subst r. now constructor.
      * exists r. split; [|assumption]. cbn [app] in *. now f_equal.
    + exists r. split; [|assumption]. cbn [app] in *. now f_equal.
Qed.

Lemma go_scan_state_ok (fuel : nat) :
  forall a b c d runes, go_state_ok (snd (go_scan fuel a b c d runes)).
Proof.
  induction fuel as [|fuel IH]; intros a b c d runes; [reflexivity|].
  destruct runes as [|ch tl]; [reflexivity|].
  cbn [go_scan]. repeat case_step; cbn [emit snd]; auto; reflexivity.
Qed.

(** What the scan of a line keeps, trimmed, is kept whole by a scan of
    its own. *)
Lemma go_normal_stable (line cleaned : text) (st : go_state) :
  go_scan (length line) false false false false line = (cleaned, st) ->
  go_scan (length (TrimRight cleaned)) false false false false (TrimRight cleaned)
  = (TrimRight cleaned, GoState false (go_inRawStringMultiline st)).
Proof.
  intros H.
  pose proof (@go_scan_rescan_n (length line) line (le_n _) (length line)
                false false false false cleaned st (le_n _) H
                (length cleaned) (le_n _)) as HA.
  destruct (TrimRightFunc_split is_blank cleaned) as [r [Hr Hb]].
  fold (TrimRight cleaned) in Hr.
  remember (TrimRight cleaned) as p eqn:Ep. clear Ep H. subst cleaned.
  eapply (go_scan_trim Hb); [|exact HA|]; apply le_n.
Qed.

Lemma index_split (c : rune) (s : text) :
  forall k, index [c] s = Some k ->
    exists pre post, s = pre ++ c :: post /\ index [c] pre = None.
Proof.
  induction s as [|x s IH]; intros k H; [discriminate|].
  revert H. cbn [index has_prefix]. rewrite andb_true_r.
  destruct (Z.eqb_spec c x) as [->|Hne].
  - intros _. exists [], s. split; reflexivity.
  - destruct (index [c] s) as [k'|] eqn:E; [|discriminate]. intros _.
    destruct (IH k' eq_refl) as (pre & post & -> & Hpre).
    exists (x :: pre), post. split; [reflexivity|].
    cbn [index has_prefix]. rewrite andb_true_r.
    destruct (Z.eqb_spec c x); [contradiction|]. now rewrite Hpre.
Qed.

Lemma Split_app_nl (o rest : text) :
  no_nl o -> Split (o ++ NL :: rest) = o :: Split rest.
Proof.
  induction 1 as [|c o Hc _ IH]; cbn [app Split].
  - reflexivity.
  - destruct (Z.eqb_spec c NL); [contradiction|]. now rewrite IH.
Qed.

(** One line outside a raw string and a block comment: what is kept is
    kept again. *)
Lemma go_line_plain (last : bool) (l : text) :
  exists o st,
    go_line (GoState false false) last l = (o ++ eol last, st) /\
    go_state_ok st /\
    (no_nl l -> no_nl o) /\
    forall last2,
      go_line (GoState false false) last2 o
      = (o ++ eol last2, GoState false (go_inRawStringMultiline st)).
Proof.
  unfold go_line, go_block, go_normal.
  cbn [go_inRawStringMultiline go_inBlockComment].
  destruct (go_scan (length l) false false false false l) as [cl st] eqn:E.
  exists (TrimRight cl), st. repeat split.
  - change st with (snd (cl, st)). rewrite <- E. apply go_scan_state_ok.
  - intros Hl. apply no_nl_TrimRight.
    change cl with (fst (cl, st)). rewrite <- E. now apply go_scan_Forall.
  - intros last2. rewrite (@go_normal_stable l cl st E).
    unfold TrimRight. now rewrite TrimRightFunc_idem.
Qed.

(** One line in any state the loop reaches. *)
Lemma go_line_stable (s1 : go_state) (last : bool) (l : text) :
  go_state_ok s1 -> no_nl l ->
  exists o st,
    snd (go_line s1 last l) = st /\
    go_state_ok st /\
    no_nl o /\
    (fst (go_line s1 last l) = o ++ eol last \/
     fst (go_line s1 last l) = [NL] /\ o = []) /\
    forall last2,
      go_line (GoState false (go_inRawStringMultiline s1)) last2 o
      = (o ++ eol last2, GoState false (go_inRawStringMultiline st)).
Proof.
  intros Hok Hl. destruct s1 as [[|] [|]]; [discriminate Hok| | |].
  - (* inside a block comment *)
    unfold go_line at 1 2 3. cbn [go_inRawStringMultiline go_inBlockComment go_block].
    destruct (index [STAR; SLASH] l) as [idx|] eqn:Ei.
    + destruct (go_line_plain last (skipn (idx + 2) l)) as (o & st & H1 & H2 & H3 & H4).
      unfold go_line, go_block in H1.
      cbn [go_inRawStringMultiline go_inBlockComment] in H1.
      exists o, st. rewrite H1. cbn [fst snd].
      repeat split; auto. apply H3. now apply no_nl_skipn.
    + exists [], (GoState true false). cbn [fst snd app].
      repeat split; auto; constructor.
  - (* inside a raw string *)
    destruct (index [BTICK] l) as [idx|] eqn:Ei.
    + destruct (@index_split BTICK l idx Ei) as (pre & post & -> & Hpre).
      destruct (go_line_plain last post) as (o & st & H1 & H2 & H3 & H4).
      rewrite (@go_line_closes_raw_string pre post last Hpre), H1. cbn [fst snd].
      exists (pre ++ BTICK :: o), st. repeat split; auto.
      * apply Forall_app in Hl as [Hp Hq]. inversion Hq; subst.
        apply Forall_app. split; [assumption|]. constructor; [assumption|].
        now apply H3.
      * left. now rewrite <- app_assoc.
      * intros last2. cbn [go_inRawStringMultiline].
        rewrite (@go_line_closes_raw_string pre o last2 Hpre), H4. cbn [fst snd].
        now rewrite <- app_assoc.
    + unfold go_line. cbn [go_inRawStringMultiline]. rewrite Ei.
      exists l, (GoState false true). cbn [fst snd go_inRawStringMultiline].
      rewrite Ei. repeat split; auto.
  - destruct (go_line_plain last l) as (o & st & H1 & H2 & H3 & H4).
    exists o, st. rewrite H1. cbn [fst snd go_inRawStringMultiline].
    repeat split; auto.
Qed.

Lemma go_lines_stable (lines : list text) :
  forall s1, lines <> [] -> Forall no_nl lines -> go_state_ok s1 ->
    fst (for_lines go_line (GoState false (go_inRawStringMultiline s1))
           (Split (fst (for_lines go_line s1 lines))))
    = fst (for_lines go_line s1 lines).
Proof.
  induction lines as [|l rest IH]; intros s1 Hne Hall Hok; [contradiction|].
  inversion Hall as [|? ? Hl Hrest]; subst.
  destruct (@go_line_stable s1 (match rest with [] => true | _ => false end) l Hok Hl)
    as (o & st & Hst & Hst_ok & Ho & Hout & Hre).
  cbn [for_lines].
  destruct (go_line s1 (match rest with [] => true | _ => false end) l)
    as [out1 st1] eqn:E1.
  cbn [fst snd] in Hst, Hout. subst st1.
  destruct rest as [|l2 rest].
  - cbn [for_lines fst]. rewrite app_nil_r.
    destruct Hout as [->|[-> ->]].
    + cbn [eol]. rewrite app_nil_r, (@Split_single o Ho).
      cbn [for_lines]. rewrite Hre. cbn [fst eol]. now rewrite !app_nil_r.
    + cbn [Split]. rewrite Z.eqb_refl. cbn [for_lines].
      rewrite (Hre false). cbn [eol app].
      destruct (go_inRawStringMultiline st); reflexivity.
  - assert (Hout1 : out1 = o ++ [NL]).
    { destruct Hout as [->|[-> ->]]; reflexivity. }
    subst out1.
    specialize (IH st ltac:(discriminate) Hrest Hst_ok).
    destruct (for_lines go_line st (l2 :: rest)) as [outs st2] eqn:E2.
    cbn [fst] in *.
    rewrite <- app_assoc. cbn [app]. rewrite (@Split_app_nl o outs Ho).
    cbn [for_lines].
    destruct (Split outs) as [|x xs] eqn:Es; [now apply Split_not_nil in Es|].
    rewrite (Hre false). cbn [eol].
    destruct (for_lines go_line (GoState false (go_inRawStringMultiline st)) (x :: xs))
      as [outs' st3].
    cbn [fst] in *. subst outs'. now rewrite <- app_assoc.
Qed.

Lemma removeGoComments_idempotent (content : text) :
  removeGoComments (removeGoComments content) = removeGoComments content.
Proof.
  unfold removeGoComments, go_run.
  apply (@go_lines_stable (Split content) (GoState false false)).
  - apply Split_not_nil.
  - apply Split_no_nl.
  - reflexivity.
Qed.

(** The JS, Python and Terraform removers can change their own output: a
    line that opens a multi-line template literal or triple-quoted string
    is not written, so the closing line of the first pass opens a literal
    in the second; and [<<] before a rune that starts no delimiter is
    skipped, which can join two slashes into a line comment. *)
Lemma restrip_js_python_terraform {rt : GoRuntime} :
  removeJSComments (doc [T "`"; T "`"]) = doc [[]; T "`"]
  /\ removeJSComments (doc [[]; T "`"]) = doc [[]; []]
  /\ removePythonComments (doc [Q3; T "#"]) = Some (doc [[]; T "#"])
  /\ removePythonComments (doc [[]; T "#"]) = Some (doc [[]; []])
  /\ removeTerraformComments (T "/<</") = Some (T "//")
  /\ removeTerraformComments (T "//") = Some [].
Proof. repeat split; vm_compute; reflexivity. Qed.

(* ================================================================== *)
(** * More lemmas *)

(* ------------------------------------------------------------------ *)
(** ** The removers only delete *)

#[local] Hint Constructors subseq : scan.

Lemma subseq_refl (a : text) : subseq a a.
Proof. induction a; auto with scan. Qed.

Lemma subseq_trans (b c : text) :
  subseq b c -> forall a, subseq a b -> subseq a c.
Proof.
  induction 1 as [c|x b c _ IH|x b c _ IH]; intros a Ha.
  - inversion Ha; subst. constructor.
  - inversion Ha; subst; auto with scan.
  - auto with scan.
Qed.

Lemma subseq_app2 (a b c d : text) :
  subseq a b -> subseq c d -> subseq (a ++ c) (b ++ d).
Proof.
  induction 1 as [b|x a b _ IH|x a b _ IH]; intros Hcd; cbn [app]; auto with scan.
  induction b as [|y b IHb]; cbn [app]; auto with scan.
Qed.

Lemma subseq_prefix (a r : text) : subseq a (a ++ r).
Proof.
  rewrite <- (app_nil_r a) at 1. apply subseq_app2; [apply subseq_refl|constructor].
Qed.

Lemma is_prefix_subseq (a b : text) : is_prefix a b -> subseq a b.
Proof. intros [r ->]. apply subseq_prefix. Qed.

Lemma subseq_suffix (p a b : text) : subseq a b -> subseq a (p ++ b).
Proof. intros H. induction p; cbn [app]; auto with scan. Qed.

Lemma subseq_skipn (k : nat) (a b : text) : subseq a (skipn k b) -> subseq a b.
Proof.
  intros H. rewrite <- (firstn_skipn k b). now apply subseq_suffix.
Qed.

Lemma subseq_firstn (k : nat) (b : text) : subseq (firstn k b) b.
Proof.
  rewrite <- (firstn_skipn k b) at 2. apply subseq_prefix.
Qed.

Lemma subseq_TrimRight (a b : text) : subseq a b -> subseq (TrimRight a) b.
Proof.
  intros H. apply (subseq_trans H).
  destruct (TrimRightFunc_prefix is_blank a) as [r Hr].
  rewrite Hr at 2. apply subseq_prefix.
Qed.

Lemma subseq_length (a b : text) : subseq a b -> length a <= length b.
Proof. induction 1; cbn [length]; lia. Qed.

Lemma subseq_Forall (P : rune -> Prop) (a b : text) :
  subseq a b -> Forall P b -> Forall P a.
Proof.
  induction 1 as [b|x a b _ IH|x a b _ IH]; intros Hb.
  - constructor.
  - inversion Hb; subst. constructor; auto.
  - inversion Hb; subst. auto.
Qed.

#[local] Hint Resolve subseq_refl subseq_skipn subseq_firstn subseq_TrimRight
  subseq_prefix subseq_suffix : scan.

Lemma go_scan_subseq (fuel : nat) :
  forall a b c d runes, subseq (fst (go_scan fuel a b c d runes)) runes.
Proof.
  induction fuel as [|fuel IH]; intros a b c d runes; [constructor|].
  destruct runes as [|ch tl]; [constructor|].
  cbn [go_scan].
  repeat case_step; cbn [emit fst]; auto with scan;
    eapply subseq_skipn; apply IH.
Qed.

Lemma js_scan_subseq (fuel : nat) :
  forall a b c d runes, subseq (fst (js_scan fuel a b c d runes)) runes.
Proof.
  induction fuel as [|fuel IH]; intros a b c d runes; [constructor|].
  destruct runes as [|ch tl]; [constructor|].
  cbn [js_scan].
  repeat case_step; cbn [emit fst]; auto with scan;
    eapply subseq_skipn; apply IH.
Qed.

Lemma is_prefix_nil (b : text) : is_prefix [] b.
Proof. now exists b. Qed.

Lemma is_prefix_refl (a : text) : is_prefix a a.
Proof. exists []. now rewrite app_nil_r. Qed.

Lemma is_prefix_cons (c : rune) (a b : text) : is_prefix a b -> is_prefix (c :: a) (c :: b).
Proof. intros [r ->]. now exists r. Qed.

Lemma is_prefix_firstn_app (k : nat) (a b : text) :
  is_prefix a (skipn k b) -> is_prefix (firstn k b ++ a) b.
Proof.
  intros [r Hr]. exists r. rewrite <- app_assoc, <- Hr. symmetry. apply firstn_skipn.
Qed.

Lemma is_prefix_TrimRight (a b : text) : is_prefix a b -> is_prefix (TrimRight a) b.
Proof.
  intros [r ->]. destruct (TrimRightFunc_prefix is_blank a) as [r' Hr'].
  exists (r' ++ r). rewrite app_assoc. unfold TrimRight. now rewrite <- Hr'.
Qed.

#[local] Hint Resolve is_prefix_nil is_prefix_refl is_prefix_cons is_prefix_firstn_app
  is_prefix_TrimRight : scan.

Lemma rust_raw_open_shape (tl : text) (n : nat) (body : text) :
  rust_raw_open tl = Some (n, body) ->
  forall ch, firstn (n + 2) (ch :: tl) ++ body = ch :: tl /\ skipn (n + 1) tl = body.
Proof.
  unfold rust_raw_open.
  set (k := length (takeWhile (fun c => c == HASH) tl)).
  destruct (skipn k tl) as [|q b] eqn:E; [discriminate|].
  destruct (q == DQUOTE); [|discriminate].
  intros [= <- <-] ch.
  assert (Hs : skipn (k + 1) tl = b).
  { replace (k + 1) with (1 + k) by lia. rewrite <- skipn_skipn, E. reflexivity. }
  split; [|exact Hs].
  replace (k + 2) with (S (k + 1)) by lia. cbn [firstn app]. f_equal.
  rewrite <- Hs. apply firstn_skipn.
Qed.

Lemma rust_block_suffix (n : nat) :
  forall line, length line <= n ->
  forall depth rest d, rust_block depth line = (Some rest, d) ->
    exists k, rest = skipn k line.
Proof.
  induction n as [|n IH]; intros line Hn depth rest d H.
  - destruct line; [discriminate|simpl in Hn; lia].
  - destruct line as [|c [|c2 rest2]]; [discriminate| |].
    + cbn in H. discriminate.
    + rewrite rust_block_cons2 in H. simpl in Hn.
      destruct ((c == SLASH) && (c2 == STAR)).
      * destruct (IH rest2 ltac:(lia) _ _ _ H) as [k ->]. now exists (S (S k)).
      * destruct ((c == STAR) && (c2 == SLASH)).
        -- destruct (depth - 1 == 0)%Z.
           ++ injection H as <- <-. now exists 2.
           ++ destruct (IH rest2 ltac:(lia) _ _ _ H) as [k ->]. now exists (S (S k)).
        -- destruct (IH (c2 :: rest2) ltac:(simpl; lia) _ _ _ H) as [k ->].
           now exists (S k).
Qed.

(* ------------------------------------------------------------------ *)
(** ** Slices that end at a byte offset *)

Lemma byte_len_app (a b : text) : byte_len (a ++ b) = byte_len a + byte_len b.
Proof. induction a as [|c a IH]; [reflexivity|]. cbn [app byte_len]. rewrite IH. lia. Qed.

Lemma utf8_len_pos (c : rune) : 1 <= utf8_len c.
Proof.
  unfold utf8_len.
  repeat match goal with |- context [if ?b then _ else _] => destruct b end; lia.
Qed.

Lemma byte_len_ge (s : text) : length s <= byte_len s.
Proof.
  induction s as [|c s IH]; [apply le_n|].
  cbn [length byte_len]. pose proof (utf8_len_pos c). lia.
Qed.

Lemma byte_len_ascii (s : text) :
  Forall (fun c => (0 <= c < 128)%Z) s -> byte_len s = length s.
Proof.
  induction 1 as [|c s Hc _ IH]; [reflexivity|].
  cbn [length byte_len]. unfold utf8_len.
  destruct (Z.ltb_spec c 0); [lia|]. destruct (Z.ltb_spec c 128); [|lia].
  now rewrite IH.
Qed.

(** Where [index] finds the separator: after [k] runes. *)
Lemma index_Some_split (sep s : text) (k : nat) :
  index sep s = Some k -> exists pre r, s = pre ++ sep ++ r /\ length pre = k.
Proof.
  revert k. induction s as [|c tl IH]; intros k; cbn [index].
  - destruct (has_prefix sep []) eqn:E; [|discriminate].
    intros [= <-]. apply has_prefix_spec in E as [r Hr]. now exists [], r.
  - destruct (has_prefix sep (c :: tl)) eqn:E.
    + intros [= <-]. apply has_prefix_spec in E as [r Hr]. now exists [], r.
    + destruct (index sep tl) as [k'|]; [|discriminate]. cbn [option_map].
      intros [= <-]. destruct (IH k' eq_refl) as (pre & r & -> & Hl).
      exists (c :: pre), r. cbn [app length]. now rewrite Hl.
Qed.

(** The byte offset that [strings.Index] returns, plus the separator, stays
    within the bytes of the string; in ASCII text, within its runes. *)
Lemma byte_index_bound (sep s : text) (e : nat) :
  byte_index sep s = Some e -> e + length sep <= byte_len s.
Proof.
  unfold byte_index. destruct (index sep s) as [k|] eqn:E; [|discriminate].
  cbn [option_map]. intros [= <-].
  destruct (index_Some_split _ _ E) as (pre & r & -> & <-).
  rewrite firstn_app, Nat.sub_diag, firstn_all. cbn [firstn]. rewrite app_nil_r.
  rewrite !byte_len_app. pose proof (byte_len_ge sep). lia.
Qed.

Lemma byte_len_skipn (n : nat) (s : text) :
  n <= length s -> byte_len (skipn n s) + n <= byte_len s.
Proof.
  intros H. rewrite <- (firstn_skipn n s) at 2. rewrite byte_len_app.
  pose proof (byte_len_ge (firstn n s)) as Hg. rewrite length_firstn in Hg. lia.
Qed.

Lemma byte_surplus_skipn (n : nat) (s : text) :
  byte_len (skipn n s) - length (skipn n s) <= byte_len s - length s.
Proof.
  destruct (Nat.le_gt_cases n (length s)) as [H|H].
  - pose proof (byte_len_skipn s H). rewrite length_skipn. 
    pose proof (byte_len_ge (skipn n s)) as Hg. rewrite length_skipn in Hg. lia.
  - rewrite skipn_all2 by lia. cbn. lia.
Qed.
Lemma py_scan_nil (room fuel : nat) (a : bool) (b : rune) (c : bool) :
  py_scan room fuel a b c [] = Some ([], (false, [])).
Proof. now destruct fuel. Qed.

Lemma byte_surplus_cons (c : rune) (s : text) :
  byte_len s - length s <= byte_len (c :: s) - length (c :: s).
Proof. cbn [byte_len length]. pose proof (utf8_len_pos c). lia. Qed.

(** What a slice [s[:n]] and the scan of the rest write, when the end of the
    slice is a byte offset of [s]: a prefix of [s] followed by zero runes,
    no more of them than [s] has bytes beyond its runes. *)
Lemma slice_then_prefix (s x : text) (n k' : nat) :
  n <= byte_len s ->
  (length s < n -> x = []) ->
  k' <= byte_len (skipn n s) - length (skipn n s) ->
  is_prefix x (skipn n s ++ repeat 0%Z k') ->
  exists k, k <= byte_len s - length s
            /\ is_prefix ((firstn n s ++ repeat 0%Z (n - length s)) ++ x)
                 (s ++ repeat 0%Z k).
Proof.
  intros Hn Hx Hk Hp. destruct (Nat.le_gt_cases n (length s)) as [H|H].
  - exists k'. split; [pose proof (byte_surplus_skipn n s); lia|].
    replace (n - length s) with 0 by lia. cbn [repeat]. rewrite app_nil_r.
    destruct Hp as [r Hr]. exists r.
    rewrite <- app_assoc, <- Hr, app_assoc, firstn_skipn. reflexivity.
  - exists (n - length s). split; [lia|].
    rewrite (Hx H), app_nil_r, firstn_all2 by lia. apply is_prefix_refl.
Qed.

Lemma slice_then_subseq (s x : text) (n k' : nat) :
  n <= byte_len s ->
  (length s < n -> x = []) ->
  k' <= byte_len (skipn n s) - length (skipn n s) ->
  subseq x (skipn n s ++ repeat 0%Z k') ->
  exists k, k <= byte_len s - length s
            /\ subseq ((firstn n s ++ repeat 0%Z (n - length s)) ++ x)
                 (s ++ repeat 0%Z k).
Proof.
  intros Hn Hx Hk Hp. destruct (Nat.le_gt_cases n (length s)) as [H|H].
  - exists k'. split; [pose proof (byte_surplus_skipn n s); lia|].
    replace (n - length s) with 0 by lia. cbn [repeat]. rewrite app_nil_r.
    rewrite <- (firstn_skipn n s) at 2. rewrite <- app_assoc.
    apply subseq_app2; [apply subseq_refl|exact Hp].
  - exists (n - length s). split; [lia|].
    rewrite (Hx H), app_nil_r, firstn_all2 by lia. apply subseq_refl.
Qed.

Lemma py_scan_kept (room : nat) (fuel : nat) :
  forall a b c runes out st,
    py_scan room fuel a b c runes = Some (out, st) ->
    exists k, k <= byte_len runes - length runes /\ is_prefix out (runes ++ repeat 0%Z k).
Proof.
  induction fuel as [|fuel IH]; intros a b c runes out st H;
    [injection H as <- <-; exists 0; split; [lia|apply is_prefix_nil]|].
  destruct runes as [|ch tl];
    [injection H as <- <-; exists 0; split; [lia|apply is_prefix_nil]|].
  revert H. cbn [py_scan]. crunch; try intro;
    try match goal with
        | H : py_scan _ _ _ _ _ tl = Some _ |- _ =>
            destruct (IH _ _ _ _ _ _ H) as (k & Hk & Hp); exists k;
            split; [pose proof (byte_surplus_cons ch tl); lia|];
            cbn [app]; now apply is_prefix_cons
        end.
  - match goal with
    | H : py_scan _ _ _ _ _ (skipn _ _) = Some _ |- _ =>
        destruct (IH _ _ _ _ _ _ H) as (k & Hk & Hp);
        apply (@slice_then_prefix (ch :: tl) x (3 + n + 3) k); [| |exact Hk|exact Hp]
    end.
    + apply byte_index_bound in Heqo.
      apply andb_true_iff in Heqb2 as [Hb _]. apply andb_true_iff in Hb as [_ Hb].
      apply Nat.ltb_lt in Hb.
      rewrite length_firstn, Nat.min_l in Heqo by lia.
      pose proof (@byte_len_skipn 3 (ch :: tl) ltac:(lia)). lia.
    + intros Hl. rewrite skipn_all2 in H0 by lia. rewrite py_scan_nil in H0.
      now injection H0 as <- _.
  - exists 0. split; [lia|]. cbn [repeat]. rewrite app_nil_r. apply is_prefix_refl.
  - exists 0. split; [lia|]. apply is_prefix_nil.
Qed.
Lemma slice_to_room (room : nat) (s : text) (n : nat) :
  n - length s <= room -> slice_to room s n <> None.
Proof.
  intros H. unfold slice_to. destruct (n <=? length s); [discriminate|].
  destruct (Nat.leb_spec (n - length s) room); [discriminate|lia].
Qed.

Lemma emit_opt_returns (A : Type) (c : rune) (r : option (text * A)) :
  r <> None -> emit_opt c r <> None.
Proof. now destruct r. Qed.

Lemma emits_opt_returns (A : Type) (s : text) (r : option (text * A)) :
  r <> None -> emits_opt s r <> None.
Proof. now destruct r. Qed.

(** The Python loop does not panic when the spare room of the rune slice
    is at least the number of bytes the line has beyond its runes. *)
Lemma py_scan_returns (room : nat) (fuel : nat) :
  forall a b c runes,
    byte_len runes - length runes <= room -> py_scan room fuel a b c runes <> None.
Proof.
  induction fuel as [|fuel IH]; intros a b c runes Hr; [discriminate|].
  destruct runes as [|ch tl]; [discriminate|].
  assert (Htl : forall a b c, py_scan room fuel a b c tl <> None).
  { intros a' b' c'. apply IH. pose proof (byte_surplus_cons ch tl). lia. }
  cbn [py_scan].
  repeat match goal with
         | |- emit_opt _ _ <> None => apply emit_opt_returns, Htl
         | |- Some _ <> None => discriminate
         | |- (if ?x then _ else _) <> None => destruct x eqn:?
         end.
  destruct (byte_index _ _) as [n|] eqn:E; [|discriminate].
  assert (Hn : 3 + n + 3 <= byte_len (ch :: tl)).
  { apply byte_index_bound in E.
    apply andb_true_iff in Heqb2 as [Hb _]. apply andb_true_iff in Hb as [_ Hb].
    apply Nat.ltb_lt in Hb.
    rewrite length_firstn, Nat.min_l in E by lia.
    pose proof (@byte_len_skipn 3 (ch :: tl) ltac:(lia)). lia. }
  destruct (slice_to room (ch :: tl) (3 + n + 3)) as [s|] eqn:Es;
    [|exfalso; revert Es; apply slice_to_room; lia].
  apply emits_opt_returns, IH.
  pose proof (byte_surplus_skipn (3 + n + 3) (ch :: tl)). lia.
Qed.

Lemma rust_scan_nil (room fuel : nat) (a b c d : bool) (depth : Z) :
  rust_scan room fuel a b c d depth [] = Some ([], (false, depth)).
Proof. now destruct fuel. Qed.

Lemma rust_scan_kept (room : nat) (fuel : nat) :
  forall a b c d depth runes out st,
    rust_scan room fuel a b c d depth runes = Some (out, st) ->
    exists k, k <= byte_len runes - length runes /\ subseq out (runes ++ repeat 0%Z k).
Proof.
  induction fuel as [|fuel IH]; intros a b c d depth runes out st H;
    [injection H as <- <-; exists 0; split; [lia|constructor]|].
  destruct runes as [|ch tl];
    [injection H as <- <-; exists 0; split; [lia|constructor]|].
  revert H. cbn [rust_scan]. crunch; try intro;
    repeat match goal with
           | E : (if ?b then rust_raw_open _ else None) = Some _ |- _ =>
               destruct b; [|discriminate]
           | E : rust_raw_open _ = Some _ |- _ =>
               apply rust_raw_open_shape with (ch := ch) in E as [E ?]
           | E : rust_block _ _ = (Some _, _) |- _ =>
               eapply (@rust_block_suffix _ _ (Nat.le_refl _)) in E; destruct E as [? ->]
           end;
    try match goal with
        | H : rust_scan _ _ _ _ _ _ _ tl = Some _ |- _ =>
            destruct (IH _ _ _ _ _ _ _ _ H) as (k & Hk & Hp); exists k;
            split; [pose proof (byte_surplus_cons ch tl); lia|];
            cbn [app]; now constructor
        end;
    try solve [exists 0; split; [lia|constructor]].
  - destruct (IH _ _ _ _ _ _ _ _ H0) as (k & Hk & Hp).
    destruct (@slice_then_subseq t x0 (n0 + length (DQUOTE :: repeat HASH n)) k)
      as (k2 & Hk2 & Hp2); [| |exact Hk|exact Hp|].
    + now apply byte_index_bound in Heqo0.
    + intros Hl. rewrite skipn_all2 in H0 by lia. rewrite rust_scan_nil in H0.
      now injection H0 as <- _.
    + exists k2. remember (firstn (n + 2) (ch :: tl)) as pre. rewrite <- Heqo. split.
      * rewrite byte_len_app, length_app. pose proof (byte_len_ge pre). lia.
      * replace ((pre ++ t) ++ repeat 0%Z k2) with (pre ++ (t ++ repeat 0%Z k2))
          by now rewrite app_assoc.
        apply subseq_app2; [apply subseq_refl|exact Hp2].
  - exists 0. split; [lia|]. rewrite Heqo. cbn [repeat]. rewrite app_nil_r.
    apply subseq_refl.
  - destruct (IH _ _ _ _ _ _ _ _ H) as (k & Hk & Hp). rewrite skipn_skipn in Hk, Hp.
    exists k. split; [pose proof (byte_surplus_skipn (x + 2) (ch :: tl)); lia|].
    rewrite <- (firstn_skipn (x + 2) (ch :: tl)) at 1. rewrite <- app_assoc.
    now apply subseq_suffix.
Qed.

(** The Rust loop does not panic when the spare room of the rune slice is
    at least the number of bytes the line has beyond its runes. *)
Lemma rust_scan_returns (room : nat) (fuel : nat) :
  forall a b c d depth runes,
    byte_len runes - length runes <= room ->
    rust_scan room fuel a b c d depth runes <> None.
Proof.
  induction fuel as [|fuel IH]; intros a b c d depth runes Hr; [discriminate|].
  destruct runes as [|ch tl]; [discriminate|].
  assert (Htl : forall a b c d depth, rust_scan room fuel a b c d depth tl <> None).
  { intros a' b' c' d' depth'. apply IH. pose proof (byte_surplus_cons ch tl). lia. }
  cbn [rust_scan].
  repeat match goal with
         | |- emit_opt _ _ <> None => apply emit_opt_returns, Htl
         | |- Some _ <> None => discriminate
         | |- (if ?x then _ else _) <> None => destruct x eqn:?
         end.
  match goal with
  | |- match ?x with Some _ => _ | None => _ end <> None =>
      destruct x as [[hashCount body]|] eqn:Eraw
  end.
  - destruct (negb a && negb c && (ch == LOWER_R) && (1 <? length (ch :: tl)));
      [|discriminate].
    apply rust_raw_open_shape with (ch := ch) in Eraw as [Eraw _].
    assert (Hb : byte_len body - length body <= room).
    { rewrite <- Eraw in Hr. rewrite byte_len_app, length_app in Hr.
      pose proof (byte_len_ge (firstn (hashCount + 2) (ch :: tl))). lia. }
    apply emits_opt_returns.
    destruct (byte_index _ body) as [endIdx|] eqn:E; [|discriminate].
    apply byte_index_bound in E.
    destruct (slice_to room body _) as [s|] eqn:Es;
      [|exfalso; revert Es; apply slice_to_room; lia].
    apply emits_opt_returns, IH.
    pose proof (byte_surplus_skipn (endIdx + length (DQUOTE :: repeat HASH hashCount)) body).
    lia.
  - repeat match goal with
           | |- emit_opt _ _ <> None => apply emit_opt_returns, Htl
           | |- Some _ <> None => discriminate
           | |- (if ?x then _ else _) <> None => destruct x eqn:?
           end.
    destruct (rust_block 1 (skipn 2 (ch :: tl))) as [[rest|] d0] eqn:Eb; [|discriminate].
    eapply (@rust_block_suffix _ _ (Nat.le_refl _)) in Eb. destruct Eb as [x ->].
    apply IH. rewrite skipn_skipn.
    pose proof (byte_surplus_skipn (x + 2) (ch :: tl)). lia.
Qed.

Lemma for_lines_as_opt (St : Type) (body : St -> bool -> text -> text * St)
    (ls : list text) :
  forall st,
    for_lines_opt (fun s last line => Some (body s last line)) st ls
    = Some (for_lines body st ls).
Proof.
  induction ls as [|l ls IH]; intros st; [reflexivity|].
  cbn [for_lines for_lines_opt].
  destruct (body st match ls with [] => true | _ :: _ => false end l) as [out st1].
  rewrite IH. now destruct (for_lines body st1 ls).
Qed.

Section LinesRel.

Variable St : Type.
Variable body : St -> bool -> text -> option (text * St).
Variable good : St -> Prop.
Variable R : text -> text -> Prop.
Hypothesis body_inner : forall st line out st',
  no_nl line -> body st false line = Some (out, st') ->
  exists o, out = o ++ [NL] /\ no_nl o /\ R o line.
Hypothesis body_last : forall st line out st',
  no_nl line -> body st true line = Some (out, st') -> good st' ->
  no_nl out /\ R out line.

(** The lines of what the loop wrote, related one by one to the lines it
    read. *)
Lemma for_lines_opt_rel (ls : list text) :
  forall st out st', ls <> [] -> Forall no_nl ls ->
  for_lines_opt body st ls = Some (out, st') -> good st' ->
  Forall2 R (Split out) ls.
Proof.
  induction ls as [|line rest IH]; intros st out st' Hne Hall Hrun Hgood; [contradiction|].
  inversion Hall as [|? ? Hline Hrest]; subst.
  revert Hrun. cbn [for_lines_opt].
  destruct rest as [|line2 rest].
  - destruct (body st true line) as [[o st1]|] eqn:E; [|discriminate].
    cbn [for_lines_opt]. intros H; injection H as <- <-. rewrite app_nil_r.
    destruct (body_last Hline E Hgood) as [Ho HR].
    rewrite (@Split_single o Ho). now repeat constructor.
  - destruct (body st false line) as [[o st1]|] eqn:E; [|discriminate].
    destruct (for_lines_opt body st1 (line2 :: rest)) as [[outs st2]|] eqn:E2;
      [|discriminate].
    intros H; injection H as <- <-.
    destruct (body_inner Hline E) as (o' & -> & Ho & HR).
    rewrite <- app_assoc. cbn [app]. rewrite (@Split_app_nl o' outs Ho).
    constructor; [exact HR|].
    exact (IH st1 outs st2 ltac:(discriminate) Hrest E2 Hgood).
Qed.

End LinesRel.

Lemma subseq_firstn_app (k : nat) (a b : text) :
  subseq a (skipn k b) -> subseq (firstn k b ++ a) b.
Proof.
  intros H. rewrite <- (firstn_skipn k b) at 2.
  apply subseq_app2; [apply subseq_refl|exact H].
Qed.

Lemma go_line_kept (st : go_state) (last : bool) (line : text) :
  exists o, subseq o line /\
    (fst (go_line st last line) = o ++ eol last \/
     fst (go_line st last line) = o ++ [NL] /\
     go_inBlockComment (snd (go_line st last line)) = true).
Proof.
  unfold go_line, go_block, go_normal.
  repeat case_step; cbn [fst snd go_inBlockComment];
    repeat match goal with
           | E : go_scan ?f ?a ?b ?c ?d ?r = (?t, ?g) |- _ =>
               assert (subseq t r)
                 by (change t with (fst (t, g)); rewrite <- E; apply go_scan_subseq);
               clear E
           end;
    try (eexists; split; [|left; rewrite ?app_assoc; cbn [app]; reflexivity];
         eauto 6 using subseq_firstn_app with scan; fail);
    try (eexists; split; [|right; split; reflexivity]; auto with scan; fail).
Qed.

Lemma js_line_kept (st : js_state) (last : bool) (line : text) :
  exists o, subseq o line /\
    (fst (js_line st last line) = o ++ eol last \/
     fst (js_line st last line) = o ++ [NL] /\
     js_inBlockComment (snd (js_line st last line)) = true).
Proof.
  unfold js_line, js_normal.
  repeat case_step; cbn [fst snd js_inBlockComment];
    repeat match goal with
           | E : js_scan ?f ?a ?b ?c ?d ?r = (?t, ?g) |- _ =>
               assert (subseq t r)
                 by (change t with (fst (t, g)); rewrite <- E; apply js_scan_subseq);
               clear E
           end;
    try (eexists; split; [|left; rewrite ?app_assoc; cbn [app]; reflexivity];
         eauto 6 using subseq_firstn_app with scan; fail);
    try (exists []; split; [constructor|]; (left + right); repeat split; reflexivity).
Qed.

(** A check that evaluates. *)
Lemma ascii_text_check (s : text) :
  forallb (fun c => (0 <=? c)%Z && (c <? 128)%Z) s = true -> ascii_text s.
Proof.
  intros H. apply Forall_forall. intros c Hc.
  rewrite forallb_forall in H. specialize (H c Hc).
  apply andb_true_iff in H as [H1 H2]. split; [now apply Z.leb_le|now apply Z.ltb_lt].
Qed.

Lemma padded_ascii (R : text -> text -> Prop) (o line : text) :
  ascii_text line -> padded R o line -> R o line.
Proof.
  intros Ha (k & Hk & HR). rewrite (byte_len_ascii Ha), Nat.sub_diag in Hk.
  replace k with 0 in HR by lia. cbn [repeat] in HR. now rewrite app_nil_r in HR.
Qed.

Lemma padded_exact (R : text -> text -> Prop) (o line : text) :
  R o line -> padded R o line.
Proof. intros H. exists 0. split; [lia|]. cbn [repeat]. now rewrite app_nil_r. Qed.

Lemma padded_no_nl (o line : text) : padded subseq o line -> no_nl line -> no_nl o.
Proof.
  intros (k & _ & Hs) Hl. apply (subseq_Forall Hs).
  apply Forall_app. split; [exact Hl|]. apply Forall_zeros. discriminate.
Qed.

Lemma padded_prefix_subseq (o line : text) : padded is_prefix o line -> padded subseq o line.
Proof. intros (k & Hk & Hp). exists k. split; [exact Hk|now apply is_prefix_subseq]. Qed.

Lemma rust_normal_kept {rt : GoRuntime} (last : bool) (depth : Z) (line out : text)
    (st' : rust_state) :
  rust_normal last depth line = Some (out, st') ->
  exists o, padded subseq o line /\ out = o ++ eol last.
Proof.
  unfold rust_normal.
  destruct (rust_scan _ _ _ _ _ _ _ line) as [[cleaned s]|] eqn:E; [|discriminate].
  intros [= <- <-]. exists (TrimRight cleaned). split; [|reflexivity].
  destruct (rust_scan_kept _ _ _ _ _ _ _ _ E) as (k & Hk & Hs).
  exists k. split; [exact Hk|now apply subseq_TrimRight].
Qed.

Lemma rust_line_kept {rt : GoRuntime} (st : rust_state) (last : bool) (line out : text)
    (st' : rust_state) :
  rust_line st last line = Some (out, st') ->
  exists o, padded subseq o line /\
    (out = o ++ eol last \/ out = o ++ [NL] /\ fst st' = true).
Proof.
  unfold rust_line. destruct st as [blk depth]. destruct blk.
  - destruct (rust_block depth line) as [[rest|] d] eqn:Eb.
    + eapply (@rust_block_suffix _ _ (Nat.le_refl _)) in Eb. destruct Eb as [x ->].
      intros H. destruct (rust_normal_kept _ _ _ H) as (o & (k & Hk & Hs) & ->).
      exists o. split; [|now left].
      exists k. split; [pose proof (byte_surplus_skipn x line); lia|].
      rewrite <- (firstn_skipn x line) at 1. rewrite <- app_assoc.
      now apply subseq_suffix.
    + intros [= <- <-]. exists []. split; [apply padded_exact; constructor|].
      right. now split.
  - intros H. destruct (rust_normal_kept _ _ _ H) as (o & Ho & ->).
    exists o. split; [exact Ho|now left].
Qed.

Lemma py_line_kept {rt : GoRuntime} (st : py_state) (last : bool) (line out : text)
    (st' : py_state) :
  py_line st last line = Some (out, st') ->
  exists o, padded is_prefix o line /\ out = o ++ eol last.
Proof.
  unfold py_line. destruct st as [ml delim]. destruct ml.
  - intros [= <- <-]. exists line. split; [|reflexivity].
    apply padded_exact, is_prefix_refl.
  - destruct (py_scan _ _ _ _ _ line) as [[cleaned s]|] eqn:E; [|discriminate].
    intros [= <- <-]. eexists. split; [|reflexivity].
    destruct (py_scan_kept _ _ _ _ _ _ E) as (k & Hk & Hp).
    exists k. split; [exact Hk|].
    destruct (fst s); [apply is_prefix_nil|now apply is_prefix_TrimRight].
Qed.

(** The line loops return on ASCII lines, whatever the runtime. *)
Lemma ascii_surplus (s : text) (room : nat) : ascii_text s -> byte_len s - length s <= room.
Proof. intros H. rewrite (byte_len_ascii H). lia. Qed.

Lemma py_line_returns {rt : GoRuntime} (st : py_state) (last : bool) (line : text) :
  ascii_text line -> py_line st last line <> None.
Proof.
  intros Ha. unfold py_line. destruct st as [ml delim]. destruct ml; [discriminate|].
  destruct (py_scan _ _ _ _ _ line) as [[cleaned s]|] eqn:E; [discriminate|].
  exfalso. revert E. apply py_scan_returns. now apply ascii_surplus.
Qed.

Lemma rust_normal_returns {rt : GoRuntime} (last : bool) (depth : Z) (line : text) :
  ascii_text line -> rust_normal last depth line <> None.
Proof.
  intros Ha. unfold rust_normal.
  destruct (rust_scan _ _ _ _ _ _ _ line) as [[cleaned s]|] eqn:E; [discriminate|].
  exfalso. revert E. apply rust_scan_returns. now apply ascii_surplus.
Qed.

Lemma rust_line_returns {rt : GoRuntime} (st : rust_state) (last : bool) (line : text) :
  ascii_text line -> rust_line st last line <> None.
Proof.
  intros Ha. unfold rust_line. destruct st as [blk depth]. destruct blk.
  - destruct (rust_block depth line) as [[rest|] d] eqn:Eb; [|discriminate].
    eapply (@rust_block_suffix _ _ (Nat.le_refl _)) in Eb. destruct Eb as [x ->].
    apply rust_normal_returns. now apply Forall_skipn'.
  - now apply rust_normal_returns.
Qed.

Lemma tf_tail_kept (p out rest : text) :
  tf_tail p = Some (out, rest) -> exists pre, p = pre ++ rest /\ subseq out pre.
Proof.
  unfold tf_tail. destruct p as [|c tl]; [discriminate|].
  assert (Hcomment : exists pre, c :: tl = pre ++ dropWhile not_nl (c :: tl)
                                 /\ subseq [] pre).
  { exists (takeWhile not_nl (c :: tl)). rewrite takeWhile_dropWhile.
    split; [reflexivity|constructor]. }
  destruct (c == HASH); [intros H; injection H as <- <-; exact Hcomment|].
  destruct (has_prefix [SLASH; SLASH] (c :: tl));
    [intros H; injection H as <- <-; exact Hcomment|].
  destruct (has_prefix [SLASH; STAR] (c :: tl)) eqn:Est.
  { apply has_prefix_spec in Est as [r Hr]. cbn [app] in Hr. injection Hr as -> ->.
    cbn [skipn]. intros H; injection H as <- <-.
    destruct (tf_skip_block_suffix r) as [pre Hpre].
    exists (SLASH :: STAR :: pre). cbn [app]. rewrite <- Hpre.
    split; [reflexivity|constructor]. }
  intros H; injection H as <- <-. exists [c]. split; [reflexivity|apply subseq_refl].
Qed.

Lemma tf_step_kept (runes out rest : text) :
  tf_step runes = Some (out, rest) ->
  exists pre, runes = pre ++ rest /\ subseq out pre.
Proof.
  unfold tf_step. destruct runes as [|c tl].
  { intros H; injection H as <- <-. exists []. split; [reflexivity|constructor]. }
  destruct (c == DQUOTE).
  { destruct (tf_string tl) as [s r] eqn:Es. intros H; injection H as <- <-.
    exists (c :: s). apply tf_string_app in Es.
    split; [cbn; now rewrite Es|apply subseq_refl]. }
  destruct ((2 <? length (c :: tl)) && has_prefix [LESS; LESS] (c :: tl)) eqn:Eh;
    [|apply tf_tail_kept].
  apply andb_true_iff in Eh as [_ Eh].
  apply has_prefix_spec in Eh as [r1 Hr1]. cbn [app] in Hr1. rewrite Hr1.
  change (skipn 2 (LESS :: LESS :: r1)) with r1.
  set (r2 := if has_prefix [MINUS] r1 then skipn 1 r1 else r1).
  assert (Hr2 : exists p0, LESS :: LESS :: r1 = p0 ++ r2).
  { subst r2. destruct (has_prefix [MINUS] r1) eqn:Em.
    - apply has_prefix_spec in Em as [r Hr]. rewrite Hr. cbn [app skipn].
      now exists [LESS; LESS; MINUS].
    - now exists [LESS; LESS]. }
  destruct Hr2 as (p0 & Hp0).
  destruct (0 <? length (takeWhile is_delim_rune r2)).
  - match goal with
    | |- context [tf_heredoc ?f ?d ?r] => destruct (tf_heredoc f d r) as [body r4] eqn:Eb
    end.
    apply tf_heredoc_app in Eb.
    assert (Hw : LESS :: LESS :: r1
                 = (p0 ++ takeWhile is_delim_rune r2) ++ dropWhile is_delim_rune r2)
      by now rewrite <- app_assoc, takeWhile_dropWhile.
    assert (Hf : firstn (length (LESS :: LESS :: r1)
                         - length (dropWhile is_delim_rune r2)) (LESS :: LESS :: r1)
                 = p0 ++ takeWhile is_delim_rune r2)
      by (rewrite Hw; apply firstn_suffix).
    rewrite Hf. intros H; injection H as <- <-.
    exists ((p0 ++ takeWhile is_delim_rune r2) ++ body).
    split; [|apply subseq_refl].
    rewrite Hw at 1. now rewrite <- (app_assoc _ body r4), Eb.
  - intros H. apply tf_tail_kept in H as (pre & Hpre & Hs).
    exists (p0 ++ pre). split; [now rewrite <- app_assoc, <- Hpre|].
    now apply subseq_suffix.
Qed.

Lemma tf_main_subseq (fuel : nat) :
  forall runes out, tf_main fuel runes = Some out -> subseq out runes.
Proof.
  induction fuel as [|fuel IH]; intros runes out H.
  - injection H as <-. constructor.
  - destruct runes as [|c tl]; [cbn in H; injection H as <-; constructor|].
    revert H. cbn [tf_main].
    destruct (tf_step (c :: tl)) as [[o rest]|] eqn:E; [|discriminate].
    destruct (tf_main fuel rest) as [outs|] eqn:Em; [|discriminate].
    cbn [option_map]. intros H; injection H as <-.
    destruct (@tf_step_kept (c :: tl) o rest E) as (pre & Hpre & Hs). rewrite Hpre.
    apply subseq_app2; [exact Hs|]. now apply IH.
Qed.

Lemma doc_Split (d : text) : doc (Split d) = d.
Proof.
  induction d as [|c d IH]; [reflexivity|].
  cbn [Split]. destruct (Z.eqb_spec c NL) as [->|Hc].
  - pose proof (Split_not_nil d) as Hne.
    destruct (Split d) as [|l ls]; [contradiction|].
    change (doc ([] :: l :: ls)) with ([] ++ NL :: doc (l :: ls)).
    cbn [app]. now rewrite IH.
  - pose proof (Split_not_nil d) as Hne.
    destruct (Split d) as [|l ls]; [contradiction|].
    destruct ls as [|l2 ls]; cbn [doc] in *; [now rewrite IH|].
    cbn [app]. now rewrite IH.
Qed.

Lemma doc_subseq (os ls : list text) :
  Forall2 subseq os ls -> subseq (doc os) (doc ls).
Proof.
  induction 1 as [|o l os ls Hol Hrest IH]; [constructor|].
  destruct Hrest as [|o2 l2 os ls Ho2 Hrest'].
  - exact Hol.
  - change (doc (o :: o2 :: os)) with (o ++ NL :: doc (o2 :: os)).
    change (doc (l :: l2 :: ls)) with (l ++ NL :: doc (l2 :: ls)).
    apply subseq_app2; [exact Hol|]. now constructor.
Qed.

Lemma go_lines_subseq (d : text) :
  go_inBlockComment (snd (go_run d)) = false ->
  Forall2 subseq (Split (removeGoComments d)) (Split d).
Proof.
  intros Hg. unfold removeGoComments, go_run in *.
  pose proof (for_lines_as_opt go_line (Split d) (GoState false false)) as Ho.
  destruct (for_lines go_line (GoState false false) (Split d)) as [out st'] eqn:E.
  cbn [fst snd] in *.
  refine (@for_lines_opt_rel go_state _ (fun st => go_inBlockComment st = false) subseq
            _ _ (Split d) _ out st' (@Split_not_nil d) (Split_no_nl d) Ho Hg).
  - intros st line o st1 Hl H. injection H as H.
    destruct (go_line_kept st false line) as (k & Hk & Hout).
    rewrite H in Hout. cbn [fst snd eol] in Hout.
    exists k. repeat split; [tauto| |exact Hk].
    exact (subseq_Forall Hk Hl).
  - intros st line o st1 Hl H Hgood. injection H as H.
    destruct (go_line_kept st true line) as (k & Hk & Hout).
    rewrite H in Hout. cbn [fst snd eol] in Hout.
    destruct Hout as [->|[_ Hb]]; [|congruence].
    rewrite app_nil_r. split; [exact (subseq_Forall Hk Hl)|exact Hk].
Qed.

Lemma js_lines_subseq (d : text) :
  js_inBlockComment (snd (js_run d)) = false ->
  Forall2 subseq (Split (removeJSComments d)) (Split d).
Proof.
  intros Hg. unfold removeJSComments, js_run in *.
  pose proof (for_lines_as_opt js_line (Split d) (JsState false false)) as Ho.
  destruct (for_lines js_line (JsState false false) (Split d)) as [out st'] eqn:E.
  cbn [fst snd] in *.
  refine (@for_lines_opt_rel js_state _ (fun st => js_inBlockComment st = false) subseq
            _ _ (Split d) _ out st' (@Split_not_nil d) (Split_no_nl d) Ho Hg).
  - intros st line o st1 Hl H. injection H as H.
    destruct (js_line_kept st false line) as (k & Hk & Hout).
    rewrite H in Hout. cbn [fst snd eol] in Hout.
    exists k. repeat split; [tauto| |exact Hk].
    exact (subseq_Forall Hk Hl).
  - intros st line o st1 Hl H Hgood. injection H as H.
    destruct (js_line_kept st true line) as (k & Hk & Hout).
    rewrite H in Hout. cbn [fst snd eol] in Hout.
    destruct Hout as [->|[_ Hb]]; [|congruence].
    rewrite app_nil_r. split; [exact (subseq_Forall Hk Hl)|exact Hk].
Qed.

Lemma for_lines_opt_returns (St : Type) (body : St -> bool -> text -> option (text * St))
    (P : text -> Prop) :
  (forall st last line, P line -> body st last line <> None) ->
  forall ls st, Forall P ls -> for_lines_opt body st ls <> None.
Proof.
  intros Hbody. induction ls as [|line rest IH]; intros st Hall; [discriminate|].
  inversion Hall as [|? ? Hline Hrest]; subst. cbn [for_lines_opt].
  destruct (body st _ line) as [[out st1]|] eqn:E; [|now apply Hbody in E].
  destruct (for_lines_opt body st1 rest) as [[outs st2]|] eqn:E2; [discriminate|].
  now apply IH in E2.
Qed.

Lemma Split_Forall (P : rune -> Prop) (s : text) :
  Forall P s -> Forall (Forall P) (Split s).
Proof.
  induction 1 as [|c s Hc _ IH]; [repeat constructor|].
  cbn [Split]. destruct (c == NL); [constructor; [constructor|exact IH]|].
  destruct (Split s) as [|l ls]; [repeat constructor; exact Hc|].
  inversion IH; subst. constructor; [constructor; assumption|assumption].
Qed.

Lemma Forall2_padded_ascii (R : text -> text -> Prop) (os ls : list text) :
  Forall ascii_text ls -> Forall2 (padded R) os ls -> Forall2 R os ls.
Proof.
  intros Ha H. induction H as [|o l os ls Hp _ IH]; [constructor|].
  inversion Ha; subst. constructor; [now apply padded_ascii|auto].
Qed.

Lemma rust_lines_kept {rt : GoRuntime} (d out : text) (st : rust_state) :
  rust_run d = Some (out, st) -> fst st = false ->
  Forall2 (padded subseq) (Split out) (Split d).
Proof.
  intros Hrun Hg. unfold rust_run in Hrun.
  refine (@for_lines_opt_rel rust_state rust_line (fun st => fst st = false)
            (padded subseq) _ _ (Split d) _ out st (@Split_not_nil d) (Split_no_nl d)
            Hrun Hg).
  - intros s line o st1 Hl H.
    destruct (rust_line_kept _ _ _ H) as (k & Hk & Hout).
    exists k. repeat split; [cbn [eol] in Hout; tauto| |exact Hk].
    exact (padded_no_nl Hk Hl).
  - intros s line o st1 Hl H Hgood.
    destruct (rust_line_kept _ _ _ H) as (k & Hk & Hout).
    destruct Hout as [->|[_ Hb]]; [|congruence].
    cbn [eol]. rewrite app_nil_r. split; [exact (padded_no_nl Hk Hl)|exact Hk].
Qed.

Lemma py_lines_kept {rt : GoRuntime} (d out : text) :
  removePythonComments d = Some out ->
  Forall2 (padded is_prefix) (Split out) (Split d).
Proof.
  unfold removePythonComments, py_run.
  destruct (for_lines_opt py_line (false, []) (Split d)) as [[o st]|] eqn:Hrun;
    [|discriminate].
  cbn [option_map fst]. intros [= <-].
  refine (@for_lines_opt_rel py_state py_line (fun _ => True) (padded is_prefix)
            _ _ (Split d) _ o st (@Split_not_nil d) (Split_no_nl d) Hrun I).
  - intros s line o1 st1 Hl H.
    destruct (py_line_kept _ _ _ H) as (k & Hk & ->).
    exists k. repeat split; [|exact Hk].
    exact (padded_no_nl (padded_prefix_subseq Hk) Hl).
  - intros s line o1 st1 Hl H _.
    destruct (py_line_kept _ _ _ H) as (k & Hk & ->).
    cbn [eol]. rewrite app_nil_r.
    split; [exact (padded_no_nl (padded_prefix_subseq Hk) Hl)|exact Hk].
Qed.

Lemma rust_run_returns {rt : GoRuntime} (d : text) : ascii_text d -> rust_run d <> None.
Proof.
  intros Ha. unfold rust_run.
  apply (@for_lines_opt_returns rust_state rust_line ascii_text);
    [intros st last line; apply rust_line_returns|now apply Split_Forall].
Qed.

Lemma py_run_returns {rt : GoRuntime} (d : text) :
  ascii_text d -> removePythonComments d <> None.
Proof.
  intros Ha. unfold removePythonComments, py_run.
  destruct (for_lines_opt py_line (false, []) (Split d)) as [[o st]|] eqn:E;
    [discriminate|].
  exfalso. revert E.
  apply (@for_lines_opt_returns py_state py_line ascii_text);
    [intros st last line; apply py_line_returns|now apply Split_Forall].
Qed.

Lemma rust_lines_subseq {rt : GoRuntime} (d out : text) (st : rust_state) :
  ascii_text d -> rust_run d = Some (out, st) -> fst st = false ->
  Forall2 subseq (Split out) (Split d).
Proof.
  intros Ha Hrun Hg. apply Forall2_padded_ascii; [now apply Split_Forall|].
  now apply (rust_lines_kept _ Hrun).
Qed.

Lemma py_lines_prefix {rt : GoRuntime} (d out : text) :
  ascii_text d -> removePythonComments d = Some out ->
  Forall2 is_prefix (Split out) (Split d).
Proof.
  intros Ha Hrun. apply Forall2_padded_ascii; [now apply Split_Forall|].
  now apply py_lines_kept.
Qed.

Lemma yaml_lines_prefix (d : text) :
  Forall2 is_prefix (Split (removeYAMLComments d)) (Split d).
Proof.
  rewrite removeYAMLComments_lines.
  pose proof (Split_not_nil d) as Hne. pose proof (Split_no_nl d) as Hnl.
  rewrite Split_doc.
  - clear Hne Hnl. induction (Split d) as [|l ls IH]; cbn [map]; constructor; [|exact IH].
    unfold yaml_clean. apply is_prefix_TrimRight.
    destruct (yaml_scan_prefix l false 0%Z false) as [r Hr]. now exists r.
  - destruct (Split d); [contradiction|discriminate].
  - clear Hne. induction Hnl; cbn [map]; constructor; auto using yaml_clean_no_nl.
Qed.

Lemma Forall2_subseq_length (os ls : list text) :
  Forall2 subseq os ls -> length (doc os) <= length (doc ls).
Proof. intros H. apply subseq_length. now apply doc_subseq. Qed.

(* ------------------------------------------------------------------ *)
(** ** Plain code and line comments *)

Lemma slash_plain_inv (c : rune) :
  slash_plain c = true ->
  (c == DQUOTE) = false /\ (c == SQUOTE) = false /\ (c == BTICK) = false
  /\ (c == SLASH) = false /\ (SLASH == c) = false /\ c <> NL.
Proof.
  unfold slash_plain. intros H. apply negb_true_iff in H.
  repeat (apply orb_false_iff in H as [H ?]).
  repeat split; auto.
  - now rewrite Z.eqb_sym.
  - intros ->. discriminate.
Qed.

Lemma hash_plain_inv (c : rune) :
  hash_plain c = true ->
  (c == DQUOTE) = false /\ (c == SQUOTE) = false /\ (c == HASH) = false
  /\ (DQUOTE == c) = false /\ (SQUOTE == c) = false /\ c <> NL.
Proof.
  unfold hash_plain. intros H. apply negb_true_iff in H.
  repeat (apply orb_false_iff in H as [H ?]).
  repeat split; auto.
  - now rewrite Z.eqb_sym.
  - now rewrite Z.eqb_sym.
  - intros ->. discriminate.
Qed.

Lemma plain_no_nl (plain : rune -> bool) (p : text) :
  (forall c, plain c = true -> c <> NL) ->
  Forall (fun c => plain c = true) p -> no_nl p.
Proof. intros Hp H. induction H; constructor; auto. Qed.

Lemma go_scan_plain (p : text) :
  Forall (fun c => slash_plain c = true) p ->
  forall fuel tail,
    length (p ++ tail) <= fuel ->
    go_scan fuel false false false false (p ++ tail)
    = emits p (go_scan (fuel - length p) false false false false tail).
Proof.
  induction 1 as [|c p Hc _ IH]; intros fuel tail Hfuel.
  - cbn [app length]. now rewrite Nat.sub_0_r, emits_nil.
  - destruct (slash_plain_inv c Hc) as (Hdq & Hsq & Hbt & Hsl & Hsl' & _).
    cbn [app length] in *.
    destruct fuel as [|fuel]; [lia|].
    cbn [go_scan has_prefix]. rewrite Hdq, Hsq, Hbt, Hsl'. cbn [andb orb negb].
    rewrite !andb_false_r. cbn [Nat.sub].
    rewrite IH by lia. reflexivity.
Qed.

Lemma js_scan_plain (p : text) :
  Forall (fun c => slash_plain c = true) p ->
  forall fuel tail,
    length (p ++ tail) <= fuel ->
    js_scan fuel false false 0%Z false (p ++ tail)
    = emits p (js_scan (fuel - length p) false false 0%Z false tail).
Proof.
  induction 1 as [|c p Hc _ IH]; intros fuel tail Hfuel.
  - cbn [app length]. now rewrite Nat.sub_0_r, emits_nil.
  - destruct (slash_plain_inv c Hc) as (Hdq & Hsq & Hbt & Hsl & Hsl' & _).
    cbn [app length] in *.
    destruct fuel as [|fuel]; [lia|].
    cbn [js_scan has_prefix]. rewrite Hdq, Hsq, Hbt, Hsl'. cbn [andb orb negb].
    rewrite !andb_false_r. cbn [Nat.sub].
    rewrite IH by lia. reflexivity.
Qed.

Lemma skipn_takeWhile (f : rune -> bool) (l : text) :
  skipn (length (takeWhile f l)) l = dropWhile f l.
Proof.
  induction l as [|c l IH]; [reflexivity|].
  cbn [takeWhile dropWhile]. destruct (f c); cbn [length skipn]; auto.
Qed.

(** No raw string opens inside plain code that ends the line or is
    followed by a slash. *)
Lemma rust_raw_open_plain (p tail : text) :
  Forall (fun c => slash_plain c = true) p ->
  tail = [] \/ (exists t, tail = SLASH :: t) ->
  rust_raw_open (p ++ tail) = None.
Proof.
  intros Hp Ht. unfold rust_raw_open. rewrite skipn_takeWhile.
  assert (Hd : match dropWhile (fun c => c == HASH) (p ++ tail) with
               | [] => True
               | q :: _ => (q == DQUOTE) = false
               end).
  { induction Hp as [|c p Hc _ IH]; cbn [app].
    - destruct Ht as [->|[t ->]]; cbn; auto.
    - cbn [dropWhile]. destruct (c == HASH); [exact IH|].
      now destruct (slash_plain_inv c Hc) as (-> & _). }
  destruct (dropWhile _ (p ++ tail)); [reflexivity|now rewrite Hd].
Qed.

Lemma rust_scan_plain (room : nat) (depth : Z) (p : text) :
  Forall (fun c => slash_plain c = true) p ->
  forall fuel tail,
    tail = [] \/ (exists t, tail = SLASH :: t) ->
    length (p ++ tail) <= fuel ->
    rust_scan room fuel false false false false depth (p ++ tail)
    = emits_opt p (rust_scan room (fuel - length p) false false false false depth tail).
Proof.
  induction 1 as [|c p Hc Hp IH]; intros fuel tail Ht Hfuel.
  - cbn [app length]. now rewrite Nat.sub_0_r, emits_opt_nil.
  - destruct (slash_plain_inv c Hc) as (Hdq & Hsq & Hbt & Hsl & Hsl' & _).
    cbn [app length] in *.
    destruct fuel as [|fuel]; [lia|].
    cbn [rust_scan has_prefix]. rewrite (rust_raw_open_plain Hp Ht).
    rewrite Hdq, Hsq, Hsl'. cbn [andb orb negb]. rewrite !andb_false_r.
    cbn [Nat.sub]. rewrite IH by (auto; lia).
    rewrite emit_emits_opt.
    now destruct (_ && _).
Qed.

Lemma py_scan_plain (room : nat) (p : text) :
  Forall (fun c => hash_plain c = true) p ->
  forall fuel tail,
    length (p ++ tail) <= fuel ->
    py_scan room fuel false 0%Z false (p ++ tail)
    = emits_opt p (py_scan room (fuel - length p) false 0%Z false tail).
Proof.
  induction 1 as [|c p Hc _ IH]; intros fuel tail Hfuel.
  - cbn [app length]. now rewrite Nat.sub_0_r, emits_opt_nil.
  - destruct (hash_plain_inv c Hc) as (Hdq & Hsq & Hh & Hdq' & Hsq' & _).
    cbn [app length] in *.
    destruct fuel as [|fuel]; [lia|].
    cbn [py_scan]. unfold is_triple. cbn [has_prefix].
    rewrite Hdq, Hsq, Hh, Hdq', Hsq'. cbn [andb orb negb].
    rewrite !andb_false_r. cbn [Nat.sub].
    rewrite IH by lia. now rewrite emit_emits_opt.
Qed.

Lemma yaml_scan_plain (p : text) :
  Forall (fun c => hash_plain c = true) p ->
  forall tail,
    yaml_scan false 0%Z false (p ++ tail) = p ++ yaml_scan false 0%Z false tail.
Proof.
  induction 1 as [|c p Hc _ IH]; intros tail; [reflexivity|].
  destruct (hash_plain_inv c Hc) as (Hdq & Hsq & Hh & _).
  cbn [app yaml_scan]. rewrite Hdq, Hsq, Hh. cbn [andb orb negb].
  rewrite IH, andb_false_r. cbn [andb]. now destruct (p ++ tail).
Qed.

Section ConstantState.

Variable St X : Type.
Variable body : St -> bool -> text -> option (text * St).
Variable st : St.
Variable render keep : X -> text.

(** A loop whose every line leaves the state as it was. *)
Lemma for_lines_opt_const (ls : list X) :
  ls <> [] ->
  Forall (fun x => forall last, body st last (render x) = Some (keep x ++ eol last, st)) ls ->
  for_lines_opt body st (map render ls) = Some (doc (map keep ls), st).
Proof.
  induction ls as [|x ls IH]; intros Hne Hall; [contradiction|].
  inversion Hall as [|? ? Hx Hls]; subst.
  cbn [map for_lines_opt].
  destruct ls as [|x2 ls].
  - cbn [map for_lines_opt]. rewrite Hx. cbn [eol doc]. now rewrite !app_nil_r.
  - cbn [map]. rewrite Hx.
    specialize (IH ltac:(discriminate) Hls). cbn [map] in IH. rewrite IH.
    cbn [eol]. rewrite <- app_assoc. reflexivity.
Qed.

End ConstantState.

Lemma with_line_comment_no_nl (plain : rune -> bool) (marker : text)
    (ls : list (text * option text)) :
  (forall c, plain c = true -> c <> NL) -> no_nl marker ->
  commented_code plain ls -> Forall no_nl (map (with_line_comment marker) ls).
Proof.
  intros Hp Hm H. induction H as [|[p oc] ls [Hl Hc] _ IH]; cbn [map]; constructor; auto.
  unfold with_line_comment. cbn [fst snd] in *.
  pose proof (plain_no_nl plain Hp Hl) as Hpn.
  destruct oc as [c|]; [|exact Hpn].
  apply Forall_app. split; [exact Hpn|]. apply Forall_app. split; [exact Hm|].
  now apply Hc.
Qed.

Lemma slash_plain_not_nl (c : rune) : slash_plain c = true -> c <> NL.
Proof. intros H. now destruct (slash_plain_inv c H) as (_ & _ & _ & _ & _ & ?). Qed.

Lemma hash_plain_not_nl (c : rune) : hash_plain c = true -> c <> NL.
Proof. intros H. now destruct (hash_plain_inv c H) as (_ & _ & _ & _ & _ & ?). Qed.

Lemma slashes_no_nl : no_nl [SLASH; SLASH].
Proof. repeat constructor; discriminate. Qed.

Lemma hash_no_nl : no_nl [HASH].
Proof. repeat constructor; discriminate. Qed.

Lemma go_line_commented (p : text) (oc : option text) (last : bool) :
  Forall (fun c => slash_plain c = true) p ->
  go_line (GoState false false) last (with_line_comment [SLASH; SLASH] (p, oc))
  = (TrimRight p ++ eol last, GoState false false).
Proof.
  intros Hp. unfold go_line, go_block, go_normal, with_line_comment.
  cbn [go_inRawStringMultiline go_inBlockComment fst snd].
  destruct oc as [c|].
  - rewrite (go_scan_plain Hp) by lia.
    rewrite length_app, Nat.add_comm, Nat.add_sub. cbn [app length go_scan].
    cbn. now rewrite ?app_nil_r.
  - rewrite <- (app_nil_r p) at 1 2. rewrite (go_scan_plain Hp) by lia.
    rewrite go_scan_nil. cbn. now rewrite ?app_nil_r.
Qed.

Lemma js_scan_nil (fuel : nat) (a b : bool) (q : rune) (d : bool) :
  js_scan fuel a b q d [] = ([], JsState false false).
Proof. now destruct fuel. Qed.

Lemma js_line_commented (p : text) (oc : option text) (last : bool) :
  Forall (fun c => slash_plain c = true) p ->
  js_line (JsState false false) last (with_line_comment [SLASH; SLASH] (p, oc))
  = (TrimRight p ++ eol last, JsState false false).
Proof.
  intros Hp. unfold js_line, js_normal, with_line_comment.
  cbn [js_inTemplateLiteralMultiline js_inBlockComment fst snd].
  destruct oc as [c|].
  - rewrite (js_scan_plain Hp) by lia.
    rewrite length_app, Nat.add_comm, Nat.add_sub. cbn [app length js_scan].
    cbn. now rewrite ?app_nil_r.
  - rewrite <- (app_nil_r p) at 1 2. rewrite (js_scan_plain Hp) by lia.
    rewrite js_scan_nil. cbn. now rewrite ?app_nil_r.
Qed.

Lemma rust_line_commented {rt : GoRuntime} (depth : Z) (p : text) (oc : option text) (last : bool) :
  Forall (fun c => slash_plain c = true) p ->
  rust_line (false, depth) last (with_line_comment [SLASH; SLASH] (p, oc))
  = Some (TrimRight p ++ eol last, (false, depth)).
Proof.
  intros Hp. unfold rust_line, rust_normal, with_line_comment. cbn [fst snd].
  destruct oc as [c|].
  - set (room := rune_cap _ - _).
    rewrite (@rust_scan_plain room depth p Hp _ ([SLASH; SLASH] ++ c)
               (or_intror (ex_intro _ (SLASH :: c) eq_refl))) by lia.
    rewrite length_app, Nat.add_comm, Nat.add_sub. cbn [app length rust_scan].
    cbn. now rewrite ?app_nil_r.
  - set (room := rune_cap _ - _).
    rewrite <- (app_nil_r p) at 1 2.
    rewrite (@rust_scan_plain room depth p Hp _ [] (or_introl eq_refl)) by lia.
    rewrite rust_scan_nil. cbn. now rewrite ?app_nil_r.
Qed.

Lemma py_scan_hash (room : nat) (n : nat) (c : text) :
  py_scan room (S n) false 0%Z false (HASH :: c) = Some ([], (false, [])).
Proof.
  cbn [py_scan]. unfold is_triple. cbn [has_prefix].
  change (SQUOTE == HASH) with false. change (DQUOTE == HASH) with false.
  change (HASH == BSLASH) with false. change (HASH == DQUOTE) with false.
  change (HASH == SQUOTE) with false. change (HASH == HASH) with true.
  cbn [andb orb negb]. now rewrite andb_false_r.
Qed.

Lemma py_line_commented {rt : GoRuntime} (p : text) (oc : option text) (last : bool) :
  Forall (fun c => hash_plain c = true) p ->
  py_line (false, []) last (with_line_comment [HASH] (p, oc))
  = Some (TrimRight p ++ eol last, (false, [])).
Proof.
  intros Hp. unfold py_line, with_line_comment. cbn [fst snd].
  destruct oc as [c|].
  - set (room := rune_cap _ - _).
    rewrite (py_scan_plain room Hp) by lia.
    rewrite length_app, Nat.add_comm, Nat.add_sub. cbn [app length].
    rewrite py_scan_hash. cbn. now rewrite ?app_nil_r.
  - set (room := rune_cap _ - _).
    rewrite <- (app_nil_r p) at 1 2. rewrite (py_scan_plain room Hp) by lia.
    rewrite py_scan_nil. cbn. now rewrite ?app_nil_r.
Qed.

Lemma yaml_scan_hash (c : text) : yaml_scan false 0%Z false (HASH :: c) = [].
Proof. cbn. now destruct c. Qed.

Lemma yaml_line_commented (p : text) (oc : option text) (last : bool) :
  Forall (fun c => hash_plain c = true) p ->
  yaml_line tt last (with_line_comment [HASH] (p, oc)) = (TrimRight p ++ eol last, tt).
Proof.
  intros Hp. unfold yaml_line, with_line_comment. cbn [fst snd].
  destruct oc as [c|].
  - cbn [app]. now rewrite (yaml_scan_plain Hp), yaml_scan_hash, app_nil_r.
  - rewrite <- (app_nil_r p) at 1. rewrite (yaml_scan_plain Hp). cbn.
    now rewrite app_nil_r.
Qed.

Lemma for_lines_const (St X : Type) (body : St -> bool -> text -> text * St) (st : St)
    (render keep : X -> text) (ls : list X) :
  ls <> [] ->
  Forall (fun x => forall last, body st last (render x) = (keep x ++ eol last, st)) ls ->
  for_lines body st (map render ls) = (doc (map keep ls), st).
Proof.
  intros Hne Hall.
  pose proof (for_lines_as_opt body (map render ls) st) as Ho.
  rewrite (@for_lines_opt_const St X (fun s last line => Some (body s last line))
             st render keep ls Hne) in Ho.
  - congruence.
  - clear Ho Hne. induction Hall as [|x l Hx _ IH]; constructor; auto.
    intros last. now rewrite Hx.
Qed.

Lemma map_not_nil (A B : Type) (f : A -> B) (l : list A) : l <> [] -> map f l <> [].
Proof. destruct l; [contradiction|discriminate]. Qed.

Lemma go_commented_doc (ls : list (text * option text)) :
  commented_code slash_plain ls ->
  removeGoComments (doc (map (with_line_comment [SLASH; SLASH]) ls))
  = doc (map (fun l => TrimRight (fst l)) ls).
Proof.
  intros H. destruct ls as [|l0 ls0] eqn:El; [reflexivity|]. rewrite <- El in *.
  assert (Hne : ls <> []) by (rewrite El; discriminate). clear El.
  unfold removeGoComments, go_run.
  rewrite Split_doc;
    [|now apply map_not_nil
     |exact (with_line_comment_no_nl slash_plain_not_nl slashes_no_nl H)].
  rewrite (@for_lines_const go_state _ go_line (GoState false false)
             (with_line_comment [SLASH; SLASH]) (fun l => TrimRight (fst l)) ls Hne);
    [reflexivity|].
  clear Hne. induction H as [|[p oc] ls' [Hp _] _ IH]; constructor; auto.
  intros last. now apply go_line_commented.
Qed.

Lemma js_commented_doc (ls : list (text * option text)) :
  commented_code slash_plain ls ->
  removeJSComments (doc (map (with_line_comment [SLASH; SLASH]) ls))
  = doc (map (fun l => TrimRight (fst l)) ls).
Proof.
  intros H. destruct ls as [|l0 ls0] eqn:El; [reflexivity|]. rewrite <- El in *.
  assert (Hne : ls <> []) by (rewrite El; discriminate). clear El.
  unfold removeJSComments, js_run.
  rewrite Split_doc;
    [|now apply map_not_nil
     |exact (with_line_comment_no_nl slash_plain_not_nl slashes_no_nl H)].
  rewrite (@for_lines_const js_state _ js_line (JsState false false)
             (with_line_comment [SLASH; SLASH]) (fun l => TrimRight (fst l)) ls Hne);
    [reflexivity|].
  clear Hne. induction H as [|[p oc] ls' [Hp _] _ IH]; constructor; auto.
  intros last. now apply js_line_commented.
Qed.

Lemma rust_commented_doc {rt : GoRuntime} (ls : list (text * option text)) :
  commented_code slash_plain ls ->
  removeRustComments (doc (map (with_line_comment [SLASH; SLASH]) ls))
  = Some (doc (map (fun l => TrimRight (fst l)) ls)).
Proof.
  intros H. destruct ls as [|l0 ls0] eqn:El; [reflexivity|]. rewrite <- El in *.
  assert (Hne : ls <> []) by (rewrite El; discriminate). clear El.
  unfold removeRustComments, rust_run.
  rewrite Split_doc;
    [|now apply map_not_nil
     |exact (with_line_comment_no_nl slash_plain_not_nl slashes_no_nl H)].
  rewrite (@for_lines_opt_const rust_state _ rust_line (false, 0%Z)
             (with_line_comment [SLASH; SLASH]) (fun l => TrimRight (fst l)) ls Hne);
    [reflexivity|].
  clear Hne. induction H as [|[p oc] ls' [Hp _] _ IH]; constructor; auto.
  intros last. now apply rust_line_commented.
Qed.

Lemma py_commented_doc {rt : GoRuntime} (ls : list (text * option text)) :
  commented_code hash_plain ls ->
  removePythonComments (doc (map (with_line_comment [HASH]) ls))
  = Some (doc (map (fun l => TrimRight (fst l)) ls)).
Proof.
  intros H. destruct ls as [|l0 ls0] eqn:El; [reflexivity|]. rewrite <- El in *.
  assert (Hne : ls <> []) by (rewrite El; discriminate). clear El.
  unfold removePythonComments, py_run.
  rewrite Split_doc;
    [|now apply map_not_nil
     |exact (with_line_comment_no_nl hash_plain_not_nl hash_no_nl H)].
  rewrite (@for_lines_opt_const py_state _ py_line (false, [])
             (with_line_comment [HASH]) (fun l => TrimRight (fst l)) ls Hne);
    [reflexivity|].
  clear Hne. induction H as [|[p oc] ls' [Hp _] _ IH]; constructor; auto.
  intros last. now apply py_line_commented.
Qed.

Lemma yaml_commented_doc (ls : list (text * option text)) :
  commented_code hash_plain ls ->
  removeYAMLComments (doc (map (with_line_comment [HASH]) ls))
  = doc (map (fun l => TrimRight (fst l)) ls).
Proof.
  intros H. destruct ls as [|l0 ls0] eqn:El; [reflexivity|]. rewrite <- El in *.
  assert (Hne : ls <> []) by (rewrite El; discriminate). clear El.
  unfold removeYAMLComments.
  rewrite Split_doc;
    [|now apply map_not_nil
     |exact (with_line_comment_no_nl hash_plain_not_nl hash_no_nl H)].
  rewrite (@for_lines_const unit _ yaml_line tt
             (with_line_comment [HASH]) (fun l => TrimRight (fst l)) ls Hne);
    [reflexivity|].
  clear Hne. induction H as [|[p oc] ls' [Hp _] _ IH]; constructor; auto.
  intros last. now apply yaml_line_commented.
Qed.

Lemma tf_step_plain (c : rune) (tl : text) :
  tf_plain c = true -> tf_step (c :: tl) = Some ([c], tl).
Proof.
  unfold tf_plain. intros H. apply negb_true_iff in H.
  repeat (apply orb_false_iff in H as [H ?]).
  unfold tf_step, tf_tail. cbn [has_prefix].
  rewrite H, (Z.eqb_sym LESS c), (Z.eqb_sym SLASH c).
  repeat match goal with E : _ = false |- _ => rewrite E; clear E end.
  cbn [andb]. now rewrite andb_false_r.
Qed.

Lemma tf_plain_prefix (p rest : text) :
  Forall (fun c => tf_plain c = true) p ->
  removeTerraformComments (p ++ rest)
  = option_map (app p) (removeTerraformComments rest).
Proof.
  induction 1 as [|c p Hc _ IH]; cbn [app].
  - now destruct (removeTerraformComments rest).
  - rewrite (@removeTerraformComments_step (c :: p ++ rest) [c] (p ++ rest)
               ltac:(discriminate) (@tf_step_plain c (p ++ rest) Hc)).
    rewrite IH. now destruct (removeTerraformComments rest).
Qed.

Lemma dropWhile_not_nl_line (c rest : text) :
  no_nl c -> rest = [] \/ (exists r, rest = NL :: r) ->
  dropWhile not_nl (c ++ rest) = rest.
Proof.
  intros Hc Hr. induction Hc as [|x c Hx _ IH]; cbn [app].
  - destruct Hr as [->|[r ->]]; reflexivity.
  - cbn [dropWhile]. unfold not_nl at 1.
    destruct (Z.eqb_spec x NL); [contradiction|exact IH].
Qed.

Lemma tf_line_comment (marker c rest : text) :
  marker = [HASH] \/ marker = [SLASH; SLASH] ->
  no_nl c -> rest = [] \/ (exists r, rest = NL :: r) ->
  removeTerraformComments (marker ++ c ++ rest) = removeTerraformComments rest.
Proof.
  intros Hm Hc Hr.
  assert (Hstep : tf_step (marker ++ c ++ rest) = Some ([], rest)).
  { destruct Hm as [->| ->]; cbn [app]; unfold tf_step, tf_tail.
    - change (HASH == DQUOTE) with false. cbn [has_prefix].
      change (LESS == HASH) with false. rewrite andb_false_r.
      change (HASH == HASH) with true. cbn [andb].
      change (dropWhile not_nl (HASH :: c ++ rest)) with (dropWhile not_nl (c ++ rest)).
      now rewrite dropWhile_not_nl_line.
    - change (SLASH == DQUOTE) with false. cbn [has_prefix].
      change (LESS == SLASH) with false. rewrite andb_false_r.
      change (SLASH == HASH) with false. rewrite !Z.eqb_refl. cbn [andb].
      change (dropWhile not_nl (SLASH :: SLASH :: c ++ rest))
        with (dropWhile not_nl (c ++ rest)).
      now rewrite dropWhile_not_nl_line. }
  rewrite (@removeTerraformComments_step (marker ++ c ++ rest) [] rest).
  - now destruct (removeTerraformComments rest).
  - destruct Hm as [->| ->]; discriminate.
  - exact Hstep.
Qed.

(* ------------------------------------------------------------------ *)
(** ** Block comments inside a line *)

(** The first [*/] after a text without [*/] is the one right behind it. *)
Lemma index_close_after (c q : text) :
  index [STAR; SLASH] c = None ->
  index [STAR; SLASH] (c ++ STAR :: SLASH :: q) = Some (length c).
Proof.
  induction c as [|x c IH]; intros H; [reflexivity|].
  revert H. cbn [app index length].
  destruct (has_prefix [STAR; SLASH] (x :: c)) eqn:E1; [discriminate|].
  destruct (index [STAR; SLASH] c) eqn:E2; [discriminate|]. intros _.
  rewrite (IH eq_refl). cbn [option_map].
  assert (E3 : has_prefix [STAR; SLASH] (x :: c ++ STAR :: SLASH :: q) = false).
  { revert E1. cbn [has_prefix]. destruct (STAR == x); [|reflexivity]. cbn [andb].
    destruct c as [|y c]; [reflexivity|]. cbn [app]. rewrite !andb_true_r. tauto. }
  now rewrite E3.
Qed.

Lemma byte_index_close_after (c q : text) :
  index [STAR; SLASH] c = None ->
  byte_index [STAR; SLASH] (c ++ STAR :: SLASH :: q) = Some (byte_len c).
Proof.
  intros H. unfold byte_index. rewrite (@index_close_after c q H). cbn [option_map].
  now rewrite firstn_app, Nat.sub_diag, firstn_all, app_nil_r.
Qed.

Lemma skipn_past_comment (c q : text) :
  skipn (byte_len c + 4) (SLASH :: STAR :: c ++ STAR :: SLASH :: q)
  = skipn (byte_len c - length c) q.
Proof.
  pose proof (byte_len_ge c) as Hge.
  replace (byte_len c + 4) with (S (S ((2 + (byte_len c - length c)) + length c))) by lia.
  cbn [skipn].
  rewrite <- skipn_skipn, skipn_app, Nat.sub_diag, skipn_all.
  reflexivity.
Qed.

Lemma go_scan_block_comment (fuel : nat) (c q : text) :
  index [STAR; SLASH] c = None ->
  go_scan (S fuel) false false false false (SLASH :: STAR :: c ++ STAR :: SLASH :: q)
  = go_scan fuel false false false false (skipn (byte_len c - length c) q).
Proof.
  intros H. cbn [go_scan has_prefix].
  change (SLASH == BSLASH) with false. change (SLASH == BTICK) with false.
  change (SLASH == SQUOTE) with false. change (SLASH == DQUOTE) with false.
  rewrite !Z.eqb_refl. cbn [andb orb negb].
  change (skipn 2 (SLASH :: STAR :: c ++ STAR :: SLASH :: q))
    with (c ++ STAR :: SLASH :: q).
  rewrite (@byte_index_close_after c q H). now rewrite skipn_past_comment.
Qed.

Lemma js_scan_block_comment (fuel : nat) (c q : text) :
  index [STAR; SLASH] c = None ->
  js_scan (S fuel) false false 0%Z false (SLASH :: STAR :: c ++ STAR :: SLASH :: q)
  = js_scan fuel false false 0%Z false (skipn (byte_len c - length c) q).
Proof.
  intros H. cbn [js_scan has_prefix].
  change (SLASH == BSLASH) with false. change (SLASH == BTICK) with false.
  change (SLASH == SQUOTE) with false. change (SLASH == DQUOTE) with false.
  rewrite !Z.eqb_refl. cbn [andb orb negb].
  change (skipn 2 (SLASH :: STAR :: c ++ STAR :: SLASH :: q))
    with (c ++ STAR :: SLASH :: q).
  rewrite (@byte_index_close_after c q H). now rewrite skipn_past_comment.
Qed.

Lemma go_scan_enough (fuel : nat) (runes : text) :
  length runes <= fuel ->
  go_scan fuel false false false false runes
  = go_scan (length runes) false false false false runes.
Proof. intros H. now apply (@go_scan_fuel_n (length runes)). Qed.

Lemma js_scan_enough (fuel : nat) (runes : text) :
  length runes <= fuel ->
  js_scan fuel false false 0%Z false runes
  = js_scan (length runes) false false 0%Z false runes.
Proof. intros H. now apply (@js_scan_fuel_n (length runes)). Qed.

Lemma go_line_block_comment (p c q : text) (last : bool) :
  Forall (fun r => slash_plain r = true) p ->
  index [STAR; SLASH] c = None ->
  go_line (GoState false false) last (p ++ SLASH :: STAR :: c ++ STAR :: SLASH :: q)
  = go_line (GoState false false) last (p ++ skipn (byte_len c - length c) q).
Proof.
  intros Hp Hc. unfold go_line, go_block, go_normal.
  cbn [go_inRawStringMultiline go_inBlockComment].
  rewrite !(go_scan_plain Hp) by lia.
  rewrite !length_app, !(Nat.add_comm (length p)), !Nat.add_sub.
  cbn [length]. rewrite (@go_scan_block_comment _ c q Hc).
  rewrite go_scan_enough; [reflexivity|].
  rewrite length_app, length_skipn. cbn [length]. lia.
Qed.

Lemma js_line_block_comment (p c q : text) (last : bool) :
  Forall (fun r => slash_plain r = true) p ->
  index [STAR; SLASH] c = None ->
  js_line (JsState false false) last (p ++ SLASH :: STAR :: c ++ STAR :: SLASH :: q)
  = js_line (JsState false false) last (p ++ skipn (byte_len c - length c) q).
Proof.
  intros Hp Hc. unfold js_line, js_normal.
  cbn [js_inTemplateLiteralMultiline js_inBlockComment].
  rewrite !(js_scan_plain Hp) by lia.
  rewrite !length_app, !(Nat.add_comm (length p)), !Nat.add_sub.
  cbn [length]. rewrite (@js_scan_block_comment _ c q Hc).
  rewrite js_scan_enough; [reflexivity|].
  rewrite length_app, length_skipn. cbn [length]. lia.
Qed.

(* ------------------------------------------------------------------ *)
(** ** Go raw strings over several lines *)

Lemma for_lines_inner (St : Type) (body : St -> bool -> text -> text * St)
    (st : St) (l : text) (rest : list text) :
  rest <> [] ->
  for_lines body st (l :: rest)
  = (fst (body st false l) ++ fst (for_lines body (snd (body st false l)) rest),
     snd (for_lines body (snd (body st false l)) rest)).
Proof.
  intros Hne. cbn [for_lines]. destruct rest as [|l2 rest]; [contradiction|].
  destruct (body st false l) as [out st1]. cbn [fst snd].
  now destruct (for_lines body st1 (l2 :: rest)).
Qed.

Lemma doc_cons (l : text) (rest : list text) :
  rest <> [] -> doc (l :: rest) = l ++ NL :: doc rest.
Proof. destruct rest; [contradiction|reflexivity]. Qed.

Lemma go_line_opens_raw_string (p a : text) (last : bool) :
  Forall (fun r => slash_plain r = true) p ->
  index [BTICK] a = None ->
  go_line (GoState false false) last (p ++ BTICK :: a)
  = (TrimRight (p ++ BTICK :: a) ++ eol last, GoState false true).
Proof.
  intros Hp Ha. unfold go_line, go_block, go_normal.
  cbn [go_inRawStringMultiline go_inBlockComment].
  rewrite (go_scan_plain Hp) by lia.
  rewrite length_app, Nat.add_comm, Nat.add_sub. cbn [length go_scan].
  change (BTICK == BSLASH) with false. rewrite Z.eqb_refl. cbn [andb orb negb].
  rewrite Ha. reflexivity.
Qed.

Lemma snoc_not_nil (A : Type) (l : list A) (x : A) : l ++ [x] <> [].
Proof. destruct l; discriminate. Qed.

Lemma go_raw_body (body : list text) (closing : text) :
  Forall (fun l => index [BTICK] l = None) body ->
  for_lines go_line (GoState false true) (body ++ [closing])
  = (doc (body ++ [fst (go_line (GoState false true) true closing)]),
     snd (go_line (GoState false true) true closing)).
Proof.
  induction 1 as [|l body Hl _ IH].
  - cbn [app for_lines doc].
    destruct (go_line (GoState false true) true closing) as [out st].
    cbn [fst snd]. now rewrite app_nil_r.
  - cbn [app]. rewrite for_lines_inner by apply snoc_not_nil.
    assert (Hline : go_line (GoState false true) false l
                    = (l ++ [NL], GoState false true)).
    { unfold go_line. cbn [go_inRawStringMultiline]. now rewrite Hl. }
    rewrite Hline. cbn [fst snd]. rewrite IH. cbn [fst snd].
    rewrite doc_cons by apply snoc_not_nil. now rewrite <- app_assoc.
Qed.

Lemma removeGoComments_line (q : text) :
  no_nl q -> removeGoComments q = fst (go_line (GoState false false) true q).
Proof.
  intros Hq. unfold removeGoComments, go_run. rewrite (@Split_single q Hq).
  cbn [for_lines]. destruct (go_line (GoState false false) true q).
  cbn [fst]. apply app_nil_r.
Qed.

Lemma go_raw_string_doc (p a c q : text) (body : list text) :
  Forall (fun r => slash_plain r = true) p ->
  index [BTICK] a = None -> no_nl a ->
  Forall (fun l => index [BTICK] l = None) body -> Forall no_nl body ->
  index [BTICK] c = None -> no_nl c -> no_nl q ->
  removeGoComments (doc ((p ++ BTICK :: a) :: body ++ [c ++ BTICK :: q]))
  = doc (TrimRight (p ++ BTICK :: a) :: body ++ [c ++ BTICK :: removeGoComments q]).
Proof.
  intros Hp Ha Han Hb Hbn Hc Hcn Hq.
  unfold removeGoComments at 1. unfold go_run.
  rewrite Split_doc; [|discriminate|].
  - rewrite for_lines_inner by apply snoc_not_nil.
    rewrite (@go_line_opens_raw_string p a false Hp Ha). cbn [fst snd eol].
    change (@cons (list rune)) with (@cons text).
    change (@nil (list rune)) with (@nil text).
    rewrite (@go_raw_body body (c ++ BTICK :: q) Hb). cbn [fst].
    rewrite (@go_line_closes_raw_string c q true Hc). cbn [fst].
    rewrite <- (@removeGoComments_line q Hq).
    rewrite doc_cons by apply snoc_not_nil. now rewrite <- app_assoc.
  - constructor.
    + apply Forall_app. split; [exact (@plain_no_nl slash_plain p slash_plain_not_nl Hp)|].
      constructor; [discriminate|exact Han].
    + apply Forall_app. split; [exact Hbn|]. constructor; [|constructor].
      apply Forall_app. split; [exact Hcn|]. constructor; [discriminate|exact Hq].
Qed.

(* ------------------------------------------------------------------ *)
(** ** What the newline normaliser deletes *)

Lemma non_space_app (a b : text) : non_space (a ++ b) = non_space a ++ non_space b.
Proof. apply filter_app. Qed.

Lemma non_space_spaces (ws : text) :
  Forall (fun c => re_space c = true) ws -> non_space ws = [].
Proof.
  induction 1 as [|c ws Hc _ IH]; [reflexivity|].
  unfold non_space in *. cbn [filter]. now rewrite Hc.
Qed.

Lemma re_match_here_non_space (s r : text) :
  re_match_here s = Some r -> non_space s = non_space r.
Proof.
  destruct s as [|c [|c1 tl]]; cbn [re_match_here]; try discriminate.
  destruct (Z.eqb_spec c NL) as [->|]; [|discriminate].
  destruct (re_space c1) eqn:Ec1; [|discriminate]. cbn [andb].
  intros H. destruct (re_spaces_nl_sound _ H) as (ws & Hws & ->).
  change (NL :: c1 :: ws ++ NL :: r) with ([NL; c1] ++ ws ++ [NL] ++ r).
  rewrite !non_space_app, (non_space_spaces Hws).
  unfold non_space at 1 2. cbn [filter]. rewrite Ec1. reflexivity.
Qed.

Lemma re_match_here_count_nl (s r : text) :
  re_match_here s = Some r -> count_nl r < count_nl s.
Proof.
  destruct s as [|c [|c1 tl]]; cbn [re_match_here]; try discriminate.
  destruct (Z.eqb_spec c NL) as [->|]; [|discriminate].
  destruct (re_space c1) eqn:Ec1; [|discriminate]. cbn [andb].
  intros H. destruct (re_spaces_nl_sound _ H) as (ws & Hws & ->).
  change (NL :: c1 :: ws ++ NL :: r) with ([NL] ++ [c1] ++ ws ++ [NL] ++ r).
  rewrite !count_nl_app. change (count_nl [NL]) with 1. lia.
Qed.

Lemma re_ReplaceAll_non_space (fuel : nat) :
  forall s, non_space (re_ReplaceAll fuel s) = non_space s.
Proof.
  induction fuel as [|fuel IH]; intros s; [reflexivity|].
  destruct s as [|c tl]; [reflexivity|]. cbn [re_ReplaceAll].
  destruct (re_match_here (c :: tl)) as [r|] eqn:E.
  - rewrite (re_match_here_non_space _ E).
    change (NL :: re_ReplaceAll fuel r) with ([NL] ++ re_ReplaceAll fuel r).
    rewrite non_space_app, IH. reflexivity.
  - change (c :: re_ReplaceAll fuel tl) with ([c] ++ re_ReplaceAll fuel tl).
    change (c :: tl) with ([c] ++ tl).
    now rewrite !non_space_app, IH.
Qed.

Lemma re_ReplaceAll_count_nl (fuel : nat) :
  forall s, count_nl (re_ReplaceAll fuel s) <= count_nl s.
Proof.
  induction fuel as [|fuel IH]; intros s; [apply le_n|].
  destruct s as [|c tl]; [apply le_n|]. cbn [re_ReplaceAll].
  destruct (re_match_here (c :: tl)) as [r|] eqn:E.
  - apply re_match_here_count_nl in E. specialize (IH r).
    change (NL :: re_ReplaceAll fuel r) with ([NL] ++ re_ReplaceAll fuel r).
    rewrite count_nl_app. change (count_nl [NL]) with 1. lia.
  - specialize (IH tl).
    change (c :: re_ReplaceAll fuel tl) with ([c] ++ re_ReplaceAll fuel tl).
    change (c :: tl) with ([c] ++ tl).
    rewrite !count_nl_app. lia.
Qed.

Lemma collapse_loop_keeps (fuel : nat) :
  forall content,
    non_space (collapse_loop fuel content) = non_space content
    /\ length (collapse_loop fuel content) <= length content
    /\ count_nl (collapse_loop fuel content) <= count_nl content.
Proof.
  induction fuel as [|fuel IH]; intros content; [repeat split; apply le_n|].
  cbn [collapse_loop]. destruct (re_Match content); [|repeat split; apply le_n].
  destruct (IH (re_ReplaceAll (length content) content)) as (H1 & H2 & H3).
  rewrite H1, re_ReplaceAll_non_space.
  pose proof (re_ReplaceAll_length (length content) content).
  pose proof (re_ReplaceAll_count_nl (length content) content).
  repeat split; lia.
Qed.

Lemma collapse_unchanged_iff (t : text) :
  collapseExcessiveNewlines t = t <-> ~ nl_ws_nl_occurs t.
Proof.
  split.
  - intros H Hocc. apply re_Match_complete in Hocc.
    pose proof (collapse_no_match t) as Hn. rewrite H in Hn. congruence.
  - intros H. apply collapse_fixed.
    destruct (re_Match t) eqn:E; [|reflexivity].
    exfalso. apply H. now apply re_Match_sound.
Qed.

(* ------------------------------------------------------------------ *)
(** ** Paths and extensions *)

Lemma list_ascii_of_string_app (a b : string) :
  list_ascii_of_string (a ++ b)%string
  = list_ascii_of_string a ++ list_ascii_of_string b.
Proof. induction a as [|c a IH]; cbn; [reflexivity|now rewrite IH]. Qed.

Lemma ext_from_end_dot (r : list ascii) :
  forall b acc, forallb ext_char r = true ->
    ext_from_end (r ++ "."%char :: b) acc = "."%char :: rev r ++ acc.
Proof.
  induction r as [|c r IH]; intros b acc H; [reflexivity|].
  cbn [forallb] in H. apply andb_true_iff in H as [Hc Hr].
  unfold ext_char in Hc. apply andb_true_iff in Hc as [H1 H2].
  apply negb_true_iff in H1, H2.
  cbn [app ext_from_end]. rewrite H1, H2, (IH b (c :: acc) Hr).
  cbn [rev]. now rewrite <- app_assoc.
Qed.

Lemma ext_from_end_none (r : list ascii) :
  forall b acc, forallb ext_char r = true ->
    ext_from_end (r ++ "/"%char :: b) acc = [] /\ ext_from_end r acc = [].
Proof.
  induction r as [|c r IH]; intros b acc H; [split; reflexivity|].
  cbn [forallb] in H. apply andb_true_iff in H as [Hc Hr].
  unfold ext_char in Hc. apply andb_true_iff in Hc as [H1 H2].
  apply negb_true_iff in H1, H2.
  cbn [app ext_from_end]. rewrite H1, H2. apply IH, Hr.
Qed.

Lemma forallb_rev (A : Type) (f : A -> bool) (l : list A) :
  forallb f (rev l) = forallb f l.
Proof.
  induction l as [|x l IH]; [reflexivity|].
  cbn [rev forallb]. rewrite forallb_app, IH. cbn [forallb].
  rewrite andb_true_r. apply andb_comm.
Qed.

(** The extension of a path that ends in a dot and a text without dots and
    separators is that ending. *)
Lemma Ext_suffix (x s : string) :
  ext_free s = true -> Ext (x ++ String "."%char s) = String "."%char s.
Proof.
  intros H. unfold Ext. rewrite list_ascii_of_string_app.
  cbn [list_ascii_of_string]. rewrite rev_app_distr. cbn [rev].
  rewrite <- app_assoc. cbn [app].
  rewrite ext_from_end_dot by (now rewrite forallb_rev).
  rewrite rev_involutive, app_nil_r. cbn [string_of_list_ascii].
  now rewrite string_of_list_ascii_of_string.
Qed.

(** A path whose last element has no dot has no extension. *)
Lemma Ext_none (dir name : string) :
  ext_free name = true ->
  Ext (dir ++ String "/"%char name) = EmptyString /\ Ext name = EmptyString.
Proof.
  intros H. unfold Ext. rewrite list_ascii_of_string_app.
  cbn [list_ascii_of_string]. rewrite rev_app_distr. cbn [rev].
  rewrite <- app_assoc. cbn [app].
  destruct (@ext_from_end_none (rev (list_ascii_of_string name))
              (rev (list_ascii_of_string dir)) []) as [H1 H2];
    [now rewrite forallb_rev|].
  now rewrite H1, H2.
Qed.

Lemma Ext_supported (x e : string) :
  In e supported_extensions -> Ext (x ++ e) = e.
Proof.
  unfold supported_extensions. cbn [In].
  intros H. repeat destruct H as [<-|H]; try contradiction;
    now apply Ext_suffix.
Qed.

(* ------------------------------------------------------------------ *)
(** ** processFile, the file loop and formatFile *)

Lemma formatter_command_none (file : string) :
  formatter_command file = None <-> ~ In (Ext file) supported_extensions.
Proof.
  unfold formatter_command, supported_extensions.
  generalize (Ext file) as ext. intros ext.
  repeat match goal with
  | |- context [String.eqb ext ?s] =>
      destruct (String.eqb_spec ext s) as [->|?];
      [ cbn [orb]; split; [discriminate|intros H; exfalso; apply H; simpl; tauto] | ]
  end.
  cbn [orb]. split; [|reflexivity].
  intros _ H. simpl in H. repeat destruct H as [H|H]; try congruence.
Qed.

Lemma formatter_command_file (file : string) (cmd : list string) :
  formatter_command file = Some cmd -> last cmd EmptyString = file.
Proof.
  unfold formatter_command.
  repeat match goal with
         | |- context [if ?b then _ else _] => destruct b
         end; intros H; try discriminate; injection H as <-; reflexivity.
Qed.

Lemma processFile_frame {rt : GoRuntime} (w w' : world) (inputPath : string) (e : option error) :
  processFile w inputPath = Returns (e, w') ->
  (forall p, p <> inputPath -> contents w' p = contents w p)
  /\ writable w' = writable w
  /\ (e <> None -> w' = w).
Proof.
  unfold processFile.
  destruct (contents w inputPath) as [content|];
    [|intros H; injection H as <- <-; repeat split].
  destruct (clean_by_ext (Ext inputPath) content) as [[err|cleaned]|];
    [intros H; injection H as <- <-; repeat split| |discriminate].
  destruct (writable w inputPath);
    intros H; injection H as <- <-; repeat split; try congruence.
  intros p Hp. cbn [write_file contents].
  destruct (String.eqb_spec p inputPath); [contradiction|reflexivity].
Qed.

Section RunFiles.

Variable ignored : string -> bool.
Variable wanted : string -> bool.

(** What the file loop adds to [processedFiles] and what it leaves alone. *)
Lemma run_files_spec {rt : GoRuntime} (files : list string) :
  forall w processedFiles skippedFiles processed' skipped' w',
    run_files ignored wanted w files processedFiles skippedFiles
    = Returns (processed', skipped', w') ->
    (exists added,
        processed' = processedFiles ++ added
        /\ Forall (fun f => In f files /\ ignored f = false
                            /\ wanted f = true
                            /\ In (Ext f) supported_extensions) added
        /\ length added + skipped' <= length files + skippedFiles)
    /\ skippedFiles <= skipped'
    /\ writable w' = writable w
    /\ (forall f, ignored f = true \/ wanted f = false \/ ~ In f files ->
                  contents w' f = contents w f).
Proof.
  induction files as [|file rest IH]; intros w processed skipped processed' skipped' w' H.
  - cbn in H. injection H as <- <- <-.
    split; [exists []; rewrite app_nil_r; repeat split; [constructor|cbn; lia]|].
    repeat split; auto.
  - revert H. cbn [run_files].
    destruct (ignored file) eqn:Eig.
    { intros H. destruct (IH _ _ _ _ _ _ H) as ((added & -> & Hall & Hlen) & Hs & Hw & Hc).
      split; [exists added; repeat split; [|cbn [length]; lia]|].
      - eapply Forall_impl; [|exact Hall]. cbn. intuition.
      - repeat split; [lia|exact Hw|].
        intros f Hf. apply Hc. cbn [In] in Hf. intuition. }
    destruct (wanted file) eqn:Esp; cbn [negb].
    2:{ intros H. destruct (IH _ _ _ _ _ _ H) as ((added & -> & Hall & Hlen) & Hs & Hw & Hc).
        split; [exists added; repeat split; [|cbn [length]; lia]|].
        - eapply Forall_impl; [|exact Hall]. cbn. intuition.
        - repeat split; [lia|exact Hw|].
          intros f Hf. apply Hc. cbn [In] in Hf. intuition. }
    destruct (processFile w file) as [[e w1]|] eqn:Ep; [|discriminate].
    destruct (processFile_frame _ _ Ep) as (Hframe & Hw1 & Herr).
    assert (Hkeep : forall f, ignored f = true \/ wanted f = false
                              \/ ~ In f (file :: rest) ->
                              contents w1 f = contents w f
                              /\ (ignored f = true \/ wanted f = false
                                  \/ ~ In f rest)).
    { intros f Hf. split.
      - apply Hframe. intros ->. cbn [In] in Hf.
        destruct Hf as [Hf|[Hf|Hf]]; [congruence|congruence|tauto].
      - cbn [In] in Hf. intuition. }
    destruct e as [[| ext |]|].
    + intros H. destruct (IH _ _ _ _ _ _ H) as ((added & -> & Hall & Hlen) & Hs & Hw & Hc).
      split; [exists added; repeat split; [|cbn [length]; lia]|].
      * eapply Forall_impl; [|exact Hall]. cbn. intuition.
      * repeat split; [lia|congruence|].
        intros f Hf. destruct (Hkeep f Hf) as [E1 E2]. rewrite <- E1. now apply Hc.
    + intros H. destruct (IH _ _ _ _ _ _ H) as ((added & -> & Hall & Hlen) & Hs & Hw & Hc).
      split; [exists added; repeat split; [|cbn [length]; lia]|].
      * eapply Forall_impl; [|exact Hall]. cbn. intuition.
      * repeat split; [lia|congruence|].
        intros f Hf. destruct (Hkeep f Hf) as [E1 E2]. rewrite <- E1. now apply Hc.
    + intros H. destruct (IH _ _ _ _ _ _ H) as ((added & -> & Hall & Hlen) & Hs & Hw & Hc).
      split; [exists added; repeat split; [|cbn [length]; lia]|].
      * eapply Forall_impl; [|exact Hall]. cbn. intuition.
      * repeat split; [lia|congruence|].
        intros f Hf. destruct (Hkeep f Hf) as [E1 E2]. rewrite <- E1. now apply Hc.
    + intros H. destruct (IH _ _ _ _ _ _ H) as ((added & -> & Hall & Hlen) & Hs & Hw & Hc).
      assert (Hsup : In (Ext file) supported_extensions).
      { unfold processFile in Ep.
        destruct (contents w file) as [content|]; [|discriminate].
        destruct (clean_by_ext (Ext file) content) as [[err|cleaned]|] eqn:Ec;
          [discriminate| |discriminate].
        destruct (in_dec string_dec (Ext file) supported_extensions) as [Hi|Hn];
          [exact Hi|].
        assert (Hu : clean_by_ext (Ext file) content
                     = Returns (inl (ErrUnsupportedFileType (Ext file))))
          by now apply clean_by_ext_unsupported.
        congruence. }
      split; [exists (file :: added); repeat split|].
      * now rewrite <- app_assoc.
      * constructor; [cbn [In]; intuition|].
        eapply Forall_impl; [|exact Hall]. cbn. intuition.
      * cbn [length] in *. lia.
      * repeat split; [lia|congruence|].
        intros f Hf. destruct (Hkeep f Hf) as [E1 E2]. rewrite <- E1. now apply Hc.
Qed.

End RunFiles.

(* ------------------------------------------------------------------ *)
(** ** Batches *)

Lemma chunks_partition (A : Type) (n : nat) :
  0 < n ->
  forall fuel (l : list A), length l <= fuel -> partition_by n l (chunks fuel n l).
Proof.
  intros Hn. induction fuel as [|fuel IH]; intros l Hl.
  - destruct l; [|cbn in Hl; lia]. repeat split; constructor.
  - destruct l as [|x l]; [repeat split; constructor|].
    cbn [chunks]. set (l0 := x :: l) in *.
    assert (Hlen : length (skipn n l0) <= fuel).
    { rewrite length_skipn. subst l0. cbn [length] in *. lia. }
    destruct (IH (skipn n l0) Hlen) as (Hc & Hf & Hr).
    unfold partition_by. cbn [concat]. rewrite Hc, firstn_skipn.
    split; [reflexivity|]. split.
    + constructor; [|exact Hf]. split.
      * intros E0. apply (f_equal (@length A)) in E0.
        rewrite length_firstn in E0. subst l0. cbn [length] in E0. lia.
      * rewrite length_firstn. lia.
    + destruct (chunks fuel n (skipn n l0)) as [|b rest] eqn:Ec; [constructor|].
      change (removelast (firstn n l0 :: b :: rest))
        with (firstn n l0 :: removelast (b :: rest)).
      constructor; [|exact Hr].
      rewrite length_firstn.
      assert (Hs : skipn n l0 <> []).
      { intros E0. rewrite E0 in Ec. now destruct fuel. }
      assert (n < length l0).
      { destruct (Nat.lt_ge_cases n (length l0)) as [|Hge]; [assumption|].
        now rewrite skipn_all2 in Hs. }
      lia.
Qed.

Lemma chunks_fuel2 (A : Type) (n : nat) :
  0 < n ->
  forall f1 f2 (l : list A), length l <= f1 -> length l <= f2 ->
    chunks f1 n l = chunks f2 n l.
Proof.
  intros Hn. induction f1 as [|f1 IH]; intros f2 l H1 H2.
  - destruct l; [now destruct f2|cbn in H1; lia].
  - destruct l as [|x l]; [now destruct f2|].
    destruct f2 as [|f2]; [cbn in H2; lia|].
    cbn [chunks]. f_equal.
    apply IH; rewrite length_skipn; cbn [length] in *; lia.
Qed.

Lemma chunks_fuel (A : Type) (n fuel : nat) (l : list A) :
  0 < n -> length l <= fuel -> chunks fuel n l = batches_of n l.
Proof. intros Hn Hl. now apply chunks_fuel2. Qed.

Lemma batches_of_partition (A : Type) (n : nat) (l : list A) :
  0 < n -> partition_by n l (batches_of n l).
Proof. intros Hn. now apply chunks_partition. Qed.

Lemma firstn_min (A : Type) (n : nat) (l : list A) :
  firstn (Nat.min n (length l)) l = firstn n l.
Proof.
  destruct (Nat.le_ge_cases n (length l)) as [H|H].
  - now rewrite Nat.min_l.
  - rewrite Nat.min_r by exact H. now rewrite !firstn_all2.
Qed.

Section BatchesProofs.

Variable St E : Type.
Variable processBatch : St -> list string -> option E * St.
Variable markProcessed : St -> string -> St.
Variable save : St -> St.

Lemma processBatches_loop_spec (n : nat) (files : list string) :
  0 < n ->
  forall fuel k st,
    length files - k < fuel ->
    processBatches_loop processBatch markProcessed save fuel files
      (Z.of_nat n) (Z.of_nat k) st
    = Returns (run_batches processBatch markProcessed save
                 (batches_of n (skipn k files)) st).
Proof.
  intros Hn. induction fuel as [|fuel IH]; intros k st Hfuel; [lia|].
  cbn [processBatches_loop].
  destruct (Z.ltb_spec (Z.of_nat k) (Z.of_nat (length files))) as [Hlt|Hge].
  - assert (Hk' : k < length files) by lia.
    set (m := Nat.min n (length files - k)).
    assert (Hend : (Z.min (Z.of_nat k + Z.of_nat n) (Z.of_nat (length files))
                    = Z.of_nat (k + m))%Z) by (subst m; lia).
    rewrite Hend.
    destruct (Z.ltb_spec (Z.of_nat (k + m)) (Z.of_nat k)) as [Hbad|_]; [lia|].
    destruct (Z.eqb_spec (Z.of_nat n) 0) as [Hz|_]; [lia|].
    replace (Z.to_nat (Z.of_nat (k + m) - Z.of_nat k)) with m by lia.
    rewrite Nat2Z.id.
    assert (Hm : firstn m (skipn k files) = firstn n (skipn k files)).
    { subst m. rewrite <- (length_skipn k files). apply firstn_min. }
    rewrite Hm.
    unfold batches_of.
    destruct (skipn k files) as [|x r] eqn:Es.
    { apply (f_equal (@length string)) in Es. rewrite length_skipn in Es.
      cbn in Es. lia. }
    cbn [length chunks run_batches]. rewrite <- Es.
    destruct (processBatch st (firstn n (skipn k files))) as [[err|] st'];
      [reflexivity|].
    replace (Z.of_nat k + Z.of_nat n)%Z with (Z.of_nat (n + k)) by lia.
    rewrite IH by lia. rewrite skipn_skipn.
    rewrite (@chunks_fuel _ n (length r) (skipn (n + k) files) Hn); [reflexivity|].
    rewrite length_skipn.
    apply (f_equal (@length string)) in Es. rewrite length_skipn in Es.
    cbn [length] in Es. lia.
  - rewrite skipn_all2 by lia. reflexivity.
Qed.

Lemma processBatches_spec (n : nat) (files : list string) (st : St) :
  0 < n ->
  processBatches processBatch markProcessed save files (Z.of_nat n) st
  = Returns (run_batches processBatch markProcessed save (batches_of n files) st).
Proof.
  intros Hn. unfold processBatches.
  change 0%Z with (Z.of_nat 0).
  rewrite processBatches_loop_spec by (auto; lia). reflexivity.
Qed.

Lemma processBatches_bad_size (batchSize : Z) (files : list string) (st : St) :
  (batchSize <= 0)%Z -> files <> [] ->
  processBatches processBatch markProcessed save files batchSize st = Panics.
Proof.
  intros Hb Hf. unfold processBatches. cbn [processBatches_loop].
  destruct files as [|f files]; [contradiction|].
  destruct (Z.ltb_spec 0 (Z.of_nat (length (f :: files)))) as [_|H];
    [|cbn [length] in H; lia].
  destruct (Z.ltb_spec (Z.min (0 + batchSize) (Z.of_nat (length (f :: files)))) 0)
    as [_|H]; [reflexivity|].
  destruct (Z.eqb_spec batchSize 0) as [_|Hne]; [reflexivity|]. lia.
Qed.

Lemma processBatches_no_files (batchSize : Z) (st : St) :
  processBatches processBatch markProcessed save [] batchSize st = Returns (None, st).
Proof. reflexivity. Qed.

(** More fuel than files never changes the result. *)
Lemma processBatches_loop_fuel (n : nat) (files : list string) (fuel : nat) (st : St) :
  0 < n -> length files < fuel ->
  processBatches_loop processBatch markProcessed save fuel files (Z.of_nat n) 0 st
  = processBatches processBatch markProcessed save files (Z.of_nat n) st.
Proof.
  intros Hn Hf. rewrite processBatches_spec by exact Hn.
  change 0%Z with (Z.of_nat 0).
  rewrite processBatches_loop_spec by (auto; lia). reflexivity.
Qed.

End BatchesProofs.

(* ------------------------------------------------------------------ *)
(** ** The timestamp cache *)

Section CacheProofs.

Variable toRelativePath : string -> option string.

Lemma markProcessed_then_shouldProcess (ModTime : string -> option Z)
    (c c' : FileCache) (f : string) :
  markProcessed ModTime toRelativePath c f = (None, c') ->
  exists modTime relPath,
    ModTime f = Some modTime /\ toRelativePath f = Some relPath
    /\ ProcessedFiles c' relPath = Some modTime
    /\ (forall k, k <> relPath -> ProcessedFiles c' k = ProcessedFiles c k)
    /\ shouldProcess ModTime toRelativePath c' f = (false, None)
    /\ forall ModTime' modTime',
         ModTime' f = Some modTime' ->
         shouldProcess ModTime' toRelativePath c' f = ((modTime <? modTime')%Z, None).
Proof.
  unfold markProcessed, shouldProcess.
  destruct (ModTime f) as [mt|] eqn:Em; [|discriminate].
  destruct (toRelativePath f) as [rel|] eqn:Er; [|discriminate].
  intros H. injection H as <-. exists mt, rel. cbn [ProcessedFiles].
  rewrite String.eqb_refl, Z.ltb_irrefl.
  repeat split; auto.
  - intros k Hk. now destruct (String.eqb_spec k rel).
  - intros mt' m' Hm. now rewrite Hm.
Qed.

Lemma markProcessed_error (ModTime : string -> option Z)
    (c c' : FileCache) (f : string) (e : cache_error) :
  markProcessed ModTime toRelativePath c f = (Some e, c') -> c' = c.
Proof.
  unfold markProcessed.
  destruct (ModTime f); [|now intros [= _ <-]].
  destruct (toRelativePath f); [discriminate|now intros [= _ <-]].
Qed.

Lemma markProcessed_other (ModTime : string -> option Z)
    (c c' : FileCache) (f g : string) :
  markProcessed ModTime toRelativePath c f = (None, c') ->
  toRelativePath g <> toRelativePath f ->
  forall ModTime', shouldProcess ModTime' toRelativePath c' g
                   = shouldProcess ModTime' toRelativePath c g.
Proof.
  intros H Hne mt'.
  destruct (markProcessed_then_shouldProcess _ _ _ H)
    as (mt & rel & _ & Hr & _ & Hother & _).
  unfold shouldProcess. destruct (mt' g); [|reflexivity].
  destruct (toRelativePath g) as [rg|] eqn:Eg; [|reflexivity].
  rewrite Hother; [reflexivity|]. congruence.
Qed.

Lemma shouldProcess_empty (ModTime : string -> option Z) (f : string) (mt : Z) (rel : string) :
  ModTime f = Some mt -> toRelativePath f = Some rel ->
  shouldProcess ModTime toRelativePath empty_cache f = (true, None).
Proof. intros Hm Hr. unfold shouldProcess. now rewrite Hm, Hr. Qed.

End CacheProofs.

Section CacheOnlyProofs.

Variable ModTime : string -> option Z.
Variable toRelativePath : string -> option string.
Variable ignored : string -> bool.

(** Two paths with the same relative path are the same file. *)
Hypothesis same_file : forall f g r,
  toRelativePath f = Some r -> toRelativePath g = Some r -> ModTime f = ModTime g.

Lemma run_cache_only_loop_count (files : list string) :
  forall c n,
    snd (run_cache_only_loop ModTime toRelativePath ignored c files n)
    = n + length (filter (cacheable ModTime toRelativePath ignored) files).
Proof.
  induction files as [|f rest IH]; intros c n; [cbn; lia|].
  cbn [run_cache_only_loop filter]. unfold markProcessed.
  assert (Hc : cacheable ModTime toRelativePath ignored f
               = negb (ignored f)
                 && match ModTime f with Some _ => true | None => false end
                 && match toRelativePath f with Some _ => true | None => false end)
    by reflexivity.
  rewrite Hc. clear Hc.
  destruct (ignored f); cbn [negb andb]; [apply IH|].
  destruct (ModTime f); cbn [andb]; [|apply IH].
  destruct (toRelativePath f); cbn [andb]; [|apply IH].
  rewrite IH. cbn [length]. lia.
Qed.

Lemma run_cache_only_loop_keeps (files : list string) :
  forall c n r v,
    ProcessedFiles c r = Some v ->
    (forall g, toRelativePath g = Some r -> ModTime g = Some v) ->
    ProcessedFiles (fst (run_cache_only_loop ModTime toRelativePath ignored c files n)) r
    = Some v.
Proof.
  induction files as [|f rest IH]; intros c n r v Hc Hv; [exact Hc|].
  cbn [run_cache_only_loop]. unfold markProcessed.
  destruct (ignored f); [now apply IH|].
  destruct (ModTime f) as [mt|] eqn:Em; [|now apply IH].
  destruct (toRelativePath f) as [rf|] eqn:Er; [|now apply IH].
  apply IH; [|exact Hv]. cbn [ProcessedFiles].
  destruct (String.eqb_spec r rf) as [->|]; [|exact Hc].
  rewrite <- Em. now apply Hv.
Qed.

Lemma run_cache_only_loop_records (files : list string) :
  forall c n f mt r,
    In f files -> ignored f = false ->
    ModTime f = Some mt -> toRelativePath f = Some r ->
    ProcessedFiles (fst (run_cache_only_loop ModTime toRelativePath ignored c files n)) r
    = Some mt.
Proof.
  induction files as [|f0 rest IH]; intros c n f mt r Hin Hig Hm Hr; [contradiction|].
  assert (Hv : forall g, toRelativePath g = Some r -> ModTime g = Some mt).
  { intros g Hg. rewrite <- Hm. exact (same_file Hg Hr). }
  destruct Hin as [->|Hin].
  - cbn [run_cache_only_loop]. unfold markProcessed. rewrite Hig, Hm, Hr.
    apply run_cache_only_loop_keeps; [|exact Hv].
    cbn [ProcessedFiles]. now rewrite String.eqb_refl.
  - cbn [run_cache_only_loop].
    destruct (ignored f0); [now apply IH with (f := f)|].
    destruct (markProcessed ModTime toRelativePath c f0) as [[e|] c1];
      now apply IH with (f := f).
Qed.

Lemma run_cache_only_spec (save : FileCache -> bool) (cache : FileCache)
    (files : list string) :
  (forall e saved,
      run_cache_only ModTime toRelativePath ignored save cache files = (e, saved) ->
      (e = Some ErrNoFilesCached
       <-> Forall (fun f => cacheable ModTime toRelativePath ignored f = false) files))
  /\ (forall c',
        run_cache_only ModTime toRelativePath ignored save cache files = (None, Some c') ->
        forall f, In f files ->
                  cacheable ModTime toRelativePath ignored f = true ->
                  shouldProcess ModTime toRelativePath c' f = (false, None)
                  /\ run_shouldProcess ModTime toRelativePath false c' f = false).
Proof.
  unfold run_cache_only.
  pose proof (run_cache_only_loop_count files cache 0) as Hcount.
  pose proof (fun f mt r => @run_cache_only_loop_records files cache 0 f mt r) as Hrec.
  destruct (run_cache_only_loop ModTime toRelativePath ignored cache files 0)
    as [c n] eqn:El.
  cbn [fst snd] in *.
  assert (Hzero : n = 0
                  <-> Forall (fun f => cacheable ModTime toRelativePath ignored f = false)
                        files).
  { rewrite Hcount. cbn [Nat.add]. clear.
    induction files as [|f rest IH]; cbn [filter length];
      [split; [constructor|reflexivity]|].
    destruct (cacheable ModTime toRelativePath ignored f) eqn:E; cbn [length].
    - split; [discriminate|]. intros H. inversion H; congruence.
    - rewrite IH. split; [now constructor|]. intros H. now inversion H. }
  split.
  - intros e saved. destruct (Nat.eqb_spec n 0) as [Hn|Hn].
    + intros [= <- <-]. split; [intros _; now apply Hzero|reflexivity].
    + destruct (save c); intros [= <- <-].
      * split; [discriminate|]. intros H. apply Hzero in H. contradiction.
      * split; [discriminate|]. intros H. apply Hzero in H. contradiction.
  - intros c'. destruct (n =? 0); [discriminate|].
    destruct (save c); [|discriminate]. intros [= <-] f Hin Hc.
    unfold cacheable in Hc. apply andb_true_iff in Hc as [Hc Hr].
    apply andb_true_iff in Hc as [Hi Hm]. apply negb_true_iff in Hi.
    destruct (ModTime f) as [mt|] eqn:Em; [|discriminate].
    destruct (toRelativePath f) as [r|] eqn:Er; [|discriminate].
    specialize (Hrec f mt r Hin Hi Em Er).
    assert (Hs : shouldProcess ModTime toRelativePath c f = (false, None)).
    { unfold shouldProcess. now rewrite Em, Er, Hrec, Z.ltb_irrefl. }
    split; [exact Hs|]. unfold run_shouldProcess. now rewrite Hs.
Qed.

End CacheOnlyProofs.

(* ------------------------------------------------------------------ *)
(** ** getStagedFiles *)

Lemma TrimLeftFunc_spec (cut : rune -> bool) (s : text) :
  exists ws, Forall (fun c => cut c = true) ws
             /\ s = ws ++ TrimLeftFunc cut s
             /\ match TrimLeftFunc cut s with
                | [] => True
                | c :: _ => cut c = false
                end.
Proof.
  induction s as [|c s (ws & Hws & Hs & Hh)]; [exists []; repeat split; constructor|].
  cbn [TrimLeftFunc]. destruct (cut c) eqn:Ec.
  - exists (c :: ws). repeat split; [now constructor|cbn; now f_equal|exact Hh].
  - exists []. repeat split; [constructor|exact Ec].
Qed.

Lemma TrimLeftFunc_fixed (cut : rune -> bool) (c : rune) (s : text) :
  cut c = false -> TrimLeftFunc cut (c :: s) = c :: s.
Proof. intros H. cbn. now rewrite H. Qed.

Lemma TrimRightFunc_cons_keep (cut : rune -> bool) (c : rune) (s : text) :
  cut c = false -> exists t, TrimRightFunc cut (c :: s) = c :: t.
Proof.
  intros H. cbn [TrimRightFunc]. destruct (TrimRightFunc cut s) as [|y t].
  - rewrite H. now exists [].
  - now exists (y :: t).
Qed.

Lemma TrimRightFunc_spaces (cut : rune -> bool) (ws : text) :
  Forall (fun c => cut c = true) ws -> TrimRightFunc cut ws = [].
Proof.
  induction 1 as [|c ws Hc _ IH]; [reflexivity|].
  cbn [TrimRightFunc]. now rewrite IH, Hc.
Qed.

Lemma TrimRightFunc_app_spaces (cut : rune -> bool) (s ws : text) :
  Forall (fun c => cut c = true) ws ->
  TrimRightFunc cut (s ++ ws) = TrimRightFunc cut s.
Proof.
  intros H. induction s as [|c s IH]; cbn [app].
  - cbn [TrimRightFunc]. now apply TrimRightFunc_spaces.
  - cbn [TrimRightFunc]. now rewrite IH.
Qed.

Lemma TrimLeftFunc_spaces (cut : rune -> bool) (ws s : text) :
  Forall (fun c => cut c = true) ws ->
  TrimLeftFunc cut (ws ++ s) = TrimLeftFunc cut s.
Proof.
  induction 1 as [|c ws Hc _ IH]; [reflexivity|].
  cbn [app TrimLeftFunc]. now rewrite Hc.
Qed.

Lemma TrimSpace_idem (s : text) : TrimSpace (TrimSpace s) = TrimSpace s.
Proof.
  unfold TrimSpace.
  destruct (TrimLeftFunc_spec IsSpace s) as (ws & _ & _ & Hh).
  destruct (TrimLeftFunc IsSpace s) as [|c t] eqn:E; [reflexivity|].
  destruct (@TrimRightFunc_cons_keep IsSpace c t Hh) as [u Hu]. rewrite Hu.
  rewrite (@TrimLeftFunc_fixed IsSpace c u Hh). rewrite <- Hu. apply TrimRightFunc_idem.
Qed.

Lemma TrimSpace_nil_iff (s : text) : TrimSpace s = [] <-> all_space s.
Proof.
  unfold TrimSpace, all_space.
  destruct (TrimLeftFunc_spec IsSpace s) as (ws & Hws & Hs & Hh).
  destruct (TrimLeftFunc IsSpace s) as [|c t] eqn:E.
  - rewrite app_nil_r in Hs. subst ws. split; [intros _; exact Hws|reflexivity].
  - destruct (@TrimRightFunc_cons_keep IsSpace c t Hh) as [u Hu]. rewrite Hu.
    split; [discriminate|]. intros Hall. rewrite Hs in Hall.
    apply Forall_app in Hall as [_ Hall]. inversion Hall; congruence.
Qed.

Lemma TrimSpace_no_nl (s : text) : no_nl s -> no_nl (TrimSpace s).
Proof.
  intros H. unfold TrimSpace. apply TrimRightFunc_Forall.
  destruct (TrimLeftFunc_spec IsSpace s) as (ws & _ & Hs & _).
  unfold no_nl in H. rewrite Hs in H. now apply Forall_app in H.
Qed.

Lemma is_empty_false (s : text) : negb (is_empty s) = true <-> s <> [].
Proof. destruct s; cbn; split; congruence. Qed.

(** Whatever git prints, the names returned are trimmed and on one line. *)
Lemma getStagedFiles_names (output : text) (files : list text) :
  getStagedFiles (Some output) = inr files ->
  files <> [] /\ Forall (fun f => trimmed f /\ no_nl f) files.
Proof.
  unfold getStagedFiles.
  set (fs := filter _ _).
  assert (Hall : Forall (fun f => trimmed f /\ no_nl f) fs).
  { subst fs. apply Forall_forall. intros f Hf.
    apply filter_In in Hf as [Hin Hne]. apply is_empty_false in Hne.
    apply in_map_iff in Hin as (l & <- & Hl).
    repeat split; [exact Hne|apply TrimSpace_idem|].
    apply TrimSpace_no_nl.
    pose proof (Split_no_nl (TrimSpace output)) as Hs.
    rewrite Forall_forall in Hs. now apply Hs. }
  destruct fs as [|f fs']; [discriminate|].
  intros [= <-]. split; [discriminate|exact Hall].
Qed.

Lemma TrimLeftFunc_length (cut : rune -> bool) (s : text) :
  length (TrimLeftFunc cut s) <= length s.
Proof.
  induction s as [|c s IH]; [apply le_n|].
  cbn [TrimLeftFunc]. destruct (cut c); cbn [length]; lia.
Qed.

Lemma TrimRightFunc_length (cut : rune -> bool) (s : text) :
  length (TrimRightFunc cut s) <= length s.
Proof.
  destruct (TrimRightFunc_prefix cut s) as [r Hr].
  rewrite Hr at 2. rewrite length_app. lia.
Qed.

(** A trimmed text begins and ends with a rune that is not white space. *)
Lemma trimmed_head (s : text) :
  trimmed s -> exists c t, s = c :: t /\ IsSpace c = false.
Proof.
  intros [Hne Ht]. destruct s as [|c t]; [contradiction|].
  exists c, t. split; [reflexivity|].
  destruct (IsSpace c) eqn:Ec; [|reflexivity]. exfalso.
  apply (f_equal (@length rune)) in Ht. unfold TrimSpace in Ht.
  pose proof (TrimRightFunc_length IsSpace (TrimLeftFunc IsSpace (c :: t))) as H1.
  cbn [TrimLeftFunc] in *. rewrite Ec in *.
  pose proof (TrimLeftFunc_length IsSpace t) as H2. cbn [length] in Ht. lia.
Qed.

Lemma trimmed_TrimRight (s : text) : trimmed s -> TrimRightFunc IsSpace s = s.
Proof.
  intros H. destruct (trimmed_head H) as (c & t & -> & Hc).
  destruct H as [_ Ht]. unfold TrimSpace in Ht.
  now rewrite (@TrimLeftFunc_fixed IsSpace c t Hc) in Ht.
Qed.

Lemma doc_last (ns : list text) :
  ns <> [] -> exists pre, doc ns = pre ++ last ns [].
Proof.
  induction ns as [|n ns IH]; intros Hne; [contradiction|].
  destruct ns as [|n2 ns]; [now exists []|].
  destruct (IH ltac:(discriminate)) as [pre Hpre].
  exists (n ++ NL :: pre).
  change (doc (n :: n2 :: ns)) with (n ++ NL :: doc (n2 :: ns)).
  rewrite Hpre, <- app_assoc. reflexivity.
Qed.

Lemma TrimRightFunc_app_fixed (cut : rune -> bool) (pre s : text) :
  s <> [] -> TrimRightFunc cut s = s -> TrimRightFunc cut (pre ++ s) = pre ++ s.
Proof.
  intros Hne Hs. induction pre as [|c pre IH]; [exact Hs|].
  cbn [app TrimRightFunc]. rewrite IH.
  destruct (pre ++ s) eqn:E; [|reflexivity].
  apply app_eq_nil in E as [_ E]. contradiction.
Qed.

Lemma TrimSpace_names (ns : list text) :
  ns <> [] -> Forall (fun f => trimmed f /\ no_nl f) ns ->
  TrimSpace (doc ns ++ [NL]) = doc ns.
Proof.
  intros Hne Hall. unfold TrimSpace.
  assert (Hhead : exists c t, doc ns = c :: t /\ IsSpace c = false).
  { destruct ns as [|n ns]; [contradiction|].
    inversion Hall as [|? ? [Hn _] _]; subst.
    destruct (trimmed_head Hn) as (c & t & -> & Hc).
    destruct ns as [|n2 ns2]; [now exists c, t|].
    exists c, (t ++ NL :: doc (n2 :: ns2)). split; [reflexivity|exact Hc]. }
  destruct Hhead as (c & t & Hd & Hc).
  rewrite Hd. cbn [app]. rewrite (@TrimLeftFunc_fixed IsSpace c (t ++ [NL]) Hc).
  change (c :: t ++ [NL]) with ((c :: t) ++ [NL]).
  rewrite TrimRightFunc_app_spaces by (repeat constructor).
  rewrite <- Hd.
  destruct (doc_last Hne) as [pre Hpre]. rewrite Hpre.
  assert (Hlast : trimmed (last ns [])).
  { rewrite Forall_forall in Hall.
    destruct ns as [|n ns']; [contradiction|].
    apply (Hall (last (n :: ns') [])).
    apply (@exists_last _ (n :: ns')) in Hne as (l' & a & E).
    rewrite E, last_last. apply in_or_app. right. now left. }
  apply TrimRightFunc_app_fixed; [apply Hlast|now apply trimmed_TrimRight].
Qed.

(** The names git prints, one per line, are the names returned. *)
Lemma getStagedFiles_lines (ns : list text) :
  ns <> [] -> Forall (fun f => trimmed f /\ no_nl f) ns ->
  getStagedFiles (Some (doc ns ++ [NL])) = inr ns.
Proof.
  intros Hne Hall. unfold getStagedFiles.
  rewrite (TrimSpace_names Hne Hall).
  rewrite Split_doc; [|exact Hne|eapply Forall_impl; [|exact Hall]; cbn; tauto].
  assert (Hmap : map TrimSpace ns = ns).
  { clear Hne. induction Hall as [|n ns [[_ Hn] _] _ IH]; [reflexivity|].
    cbn [map]. now rewrite Hn, IH. }
  rewrite Hmap.
  assert (Hf : filter (fun line => negb (is_empty line)) ns = ns).
  { clear Hne Hmap. induction Hall as [|n ns [[Hn _] _] _ IH]; [reflexivity|].
    cbn [filter]. destruct n; [contradiction|]. cbn. now rewrite IH. }
  rewrite Hf. destruct ns; [contradiction|reflexivity].
Qed.

Lemma Split_head (c : rune) (t : text) :
  c <> NL -> exists l ls, Split (c :: t) = (c :: l) :: ls.
Proof.
  intros Hc. cbn [Split]. destruct (Z.eqb_spec c NL); [contradiction|].
  destruct (Split t) as [|l ls]; eauto.
Qed.

(** getStagedFiles finds no file exactly when git printed white space
    only. *)
Lemma getStagedFiles_none (output : text) :
  getStagedFiles (Some output) = inl ErrNoStagedFiles <-> all_space output.
Proof.
  unfold getStagedFiles. split.
  - intros H. apply TrimSpace_nil_iff.
    destruct (TrimSpace output) as [|c t] eqn:E; [reflexivity|]. exfalso.
    assert (Hc : IsSpace c = false).
    { unfold TrimSpace in E.
      destruct (TrimLeftFunc_spec IsSpace output) as (ws & _ & _ & Hh).
      destruct (TrimLeftFunc IsSpace output) as [|c0 t0]; [discriminate|].
      destruct (@TrimRightFunc_cons_keep IsSpace c0 t0 Hh) as [u Hu].
      rewrite Hu in E. now injection E as <- _. }
    assert (Hnl : c <> NL) by (intros ->; discriminate).
    destruct (Split_head t Hnl) as (l & ls & Hs). rewrite Hs in H.
    cbn [map filter] in H.
    assert (Hl : TrimSpace (c :: l) <> []).
    { intros E0. apply TrimSpace_nil_iff in E0. inversion E0; congruence. }
    destruct (TrimSpace (c :: l)); [contradiction|]. discriminate.
  - intros H. apply TrimSpace_nil_iff in H. now rewrite H.
Qed.

(* ------------------------------------------------------------------ *)
(** ** findGitRoot *)

Section GitRootProofs.

Variable isDir : list string -> bool.
Variable cwd : list string.

Lemma removelast_firstn_S (k : nat) :
  k < length cwd -> removelast (firstn (S k) cwd) = firstn k cwd.
Proof.
  intros H. rewrite removelast_firstn by exact H. reflexivity.
Qed.

Lemma findGitRoot_loop_spec (k : nat) :
  forall fuel, k <= length cwd -> k < fuel ->
    match findGitRoot_loop isDir fuel (firstn k cwd) with
    | Some root =>
        exists j, j <= k /\ root = firstn j cwd
                  /\ isDir (root ++ [".git"%string]) = true
                  /\ forall i, j < i -> i <= k ->
                               isDir (firstn i cwd ++ [".git"%string]) = false
    | None => forall i, i <= k -> isDir (firstn i cwd ++ [".git"%string]) = false
    end.
Proof.
  induction k as [|k IH]; intros fuel Hk Hf.
  - destruct fuel as [|fuel]; [lia|]. cbn [findGitRoot_loop firstn].
    destruct (isDir ([] ++ [".git"%string])) eqn:E.
    + exists 0. repeat split; auto. intros i H1 H2. lia.
    + cbn [removelast]. destruct (list_eq_dec string_dec [] []); [|contradiction].
      intros i Hi. replace i with 0 by lia. exact E.
  - destruct fuel as [|fuel]; [lia|]. cbn [findGitRoot_loop].
    destruct (isDir (firstn (S k) cwd ++ [".git"%string])) eqn:E.
    + exists (S k). repeat split; auto. intros i H1 H2. lia.
    + rewrite removelast_firstn_S by lia.
      destruct (list_eq_dec string_dec (firstn k cwd) (firstn (S k) cwd)) as [Heq|_].
      { apply (f_equal (@length string)) in Heq. rewrite !length_firstn in Heq. lia. }
      specialize (IH fuel ltac:(lia) ltac:(lia)).
      destruct (findGitRoot_loop isDir fuel (firstn k cwd)) as [root|].
      * destruct IH as (j & Hj & Hr & Hd & Hn). exists j.
        repeat split; auto. intros i H1 H2.
        destruct (Nat.eq_dec i (S k)) as [->|]; [exact E|]. apply Hn; lia.
      * intros i Hi. destruct (Nat.eq_dec i (S k)) as [->|]; [exact E|].
        apply IH. lia.
Qed.

End GitRootProofs.

Lemma lines_subseq_whole (a b : text) :
  Forall2 subseq (Split a) (Split b) -> subseq a b.
Proof.
  intros H. rewrite <- (doc_Split a), <- (doc_Split b). now apply doc_subseq.
Qed.

Lemma lines_prefix_subseq (os ls : list text) :
  Forall2 is_prefix os ls -> Forall2 subseq os ls.
Proof. induction 1; constructor; auto using is_prefix_subseq. Qed.

(* ------------------------------------------------------------------ *)
(** ** Strings between code *)

Lemma go_whole_plain (p tail : text) :
  Forall (fun c => slash_plain c = true) p ->
  go_whole (p ++ tail) = emits p (go_whole tail).
Proof.
  intros Hp. unfold go_whole. rewrite (go_scan_plain Hp) by lia.
  now rewrite length_app, Nat.add_comm, Nat.add_sub.
Qed.

Lemma go_whole_dq (s tail : text) :
  dq_literal s -> go_whole (s ++ tail) = emits s (go_whole tail).
Proof.
  intros (items & Hi & ->). unfold go_whole.
  rewrite dq_line_shape. cbn [length].
  change (go_scan (S ?n) false false false false (DQUOTE :: ?tl))
    with (emit DQUOTE (go_scan n true false false false tl)).
  rewrite (go_scan_in_string Hi) by lia.
  rewrite <- (Nat.add_0_r (length (str_body items ++ _))), dq_fuel. cbn [length Nat.add].
  rewrite Nat.add_0_r.
  change (go_scan (S ?n) true false false false (DQUOTE :: ?tl))
    with (emit DQUOTE (go_scan n false false false false tl)).
  unfold dq_string, emit, emits. cbn [fst snd app]. now rewrite <- app_assoc.
Qed.

Lemma go_whole_end (oc : option text) :
  go_whole (match oc with Some c => [SLASH; SLASH] ++ c | None => [] end)
  = ([], GoState false false).
Proof. destruct oc as [c|]; reflexivity. Qed.

Lemma with_line_comment_shape (marker code : text) (oc : option text) :
  with_line_comment marker (code, oc)
  = code ++ match oc with Some c => marker ++ c | None => [] end.
Proof. destruct oc; cbn; [reflexivity|now rewrite app_nil_r]. Qed.

Lemma go_line_string (l : string_line) (last : bool) :
  Forall (fun c => slash_plain c = true) (sl_before l) ->
  sl_literal l = [] \/ dq_literal (sl_literal l) ->
  Forall (fun c => slash_plain c = true) (sl_after l) ->
  go_line (GoState false false) last (sl_render [SLASH; SLASH] l)
  = (TrimRight (sl_code l) ++ eol last, GoState false false).
Proof.
  intros Hp Hs Hq. unfold go_line, go_block, go_normal.
  cbn [go_inRawStringMultiline go_inBlockComment].
  change (go_scan (length ?r) false false false false ?r) with (go_whole r).
  unfold sl_render, sl_code. rewrite with_line_comment_shape, <- !app_assoc.
  rewrite (go_whole_plain _ Hp).
  assert (Hlit : forall tail, go_whole (sl_literal l ++ tail)
                              = emits (sl_literal l) (go_whole tail)).
  { intros tail. destruct Hs as [->|Hs]; [now rewrite emits_nil|now apply go_whole_dq]. }
  rewrite Hlit, (go_whole_plain _ Hq), go_whole_end.
  unfold emits. cbn [fst snd app]. now rewrite !app_nil_r.
Qed.

Lemma js_whole_plain (p tail : text) :
  Forall (fun c => slash_plain c = true) p ->
  js_whole (p ++ tail) = emits p (js_whole tail).
Proof.
  intros Hp. unfold js_whole. rewrite (js_scan_plain Hp) by lia.
  now rewrite length_app, Nat.add_comm, Nat.add_sub.
Qed.

Lemma js_whole_dq (s tail : text) :
  dq_literal s -> js_whole (s ++ tail) = emits s (js_whole tail).
Proof.
  intros (items & Hi & ->). unfold js_whole.
  rewrite dq_line_shape. cbn [length].
  change (js_scan (S ?n) false false 0%Z false (DQUOTE :: ?tl))
    with (emit DQUOTE (js_scan n true false DQUOTE false tl)).
  rewrite (js_scan_in_string Hi) by lia.
  rewrite <- (Nat.add_0_r (length (str_body items ++ _))), dq_fuel. cbn [length Nat.add].
  rewrite Nat.add_0_r.
  change (js_scan (S ?n) true false DQUOTE false (DQUOTE :: ?tl))
    with (emit DQUOTE (js_scan n false false 0%Z false tl)).
  unfold dq_string, emit, emits. cbn [fst snd app]. now rewrite <- app_assoc.
Qed.

Lemma js_whole_esc_sq (s tail : text) :
  esc_sq_literal s -> js_whole (s ++ tail) = emits s (js_whole tail).
Proof.
  intros (items & Hi & ->). unfold js_whole.
  rewrite esc_sq_line_shape. cbn [length].
  change (js_scan (S ?n) false false 0%Z false (SQUOTE :: ?tl))
    with (emit SQUOTE (js_scan n true false SQUOTE false tl)).
  rewrite (js_scan_in_sq_string Hi) by lia.
  rewrite <- (Nat.add_0_r (length (str_body items ++ _))), dq_fuel. cbn [length Nat.add].
  rewrite Nat.add_0_r.
  change (js_scan (S ?n) true false SQUOTE false (SQUOTE :: ?tl))
    with (emit SQUOTE (js_scan n false false 0%Z false tl)).
  unfold esc_sq_string, emit, emits. cbn [fst snd app]. now rewrite <- app_assoc.
Qed.

Lemma js_whole_end (oc : option text) :
  js_whole (match oc with Some c => [SLASH; SLASH] ++ c | None => [] end)
  = ([], JsState false false).
Proof. destruct oc as [c|]; reflexivity. Qed.

Lemma js_line_string (l : string_line) (last : bool) :
  Forall (fun c => slash_plain c = true) (sl_before l) ->
  sl_literal l = [] \/ (dq_literal (sl_literal l) \/ esc_sq_literal (sl_literal l)) ->
  Forall (fun c => slash_plain c = true) (sl_after l) ->
  js_line (JsState false false) last (sl_render [SLASH; SLASH] l)
  = (TrimRight (sl_code l) ++ eol last, JsState false false).
Proof.
  intros Hp Hs Hq. unfold js_line, js_normal.
  cbn [js_inTemplateLiteralMultiline js_inBlockComment].
  change (js_scan (length ?r) false false 0%Z false ?r) with (js_whole r).
  unfold sl_render, sl_code. rewrite with_line_comment_shape, <- !app_assoc.
  rewrite (js_whole_plain _ Hp).
  assert (Hlit : forall tail, js_whole (sl_literal l ++ tail)
                              = emits (sl_literal l) (js_whole tail)).
  { intros tail. destruct Hs as [->|[Hs|Hs]];
      [now rewrite emits_nil|now apply js_whole_dq|now apply js_whole_esc_sq]. }
  rewrite Hlit, (js_whole_plain _ Hq), js_whole_end.
  unfold emits. cbn [fst snd app js_inTemplateLiteralMultiline]. now rewrite !app_nil_r.
Qed.

Lemma rust_raw_open_safe (p tail : text) :
  Forall (fun c => slash_plain c = true) p ->
  (forall n, p <> repeat HASH n) ->
  rust_raw_open (p ++ tail) = None.
Proof.
  intros Hp Hn. unfold rust_raw_open. rewrite skipn_takeWhile.
  assert (Hd : match dropWhile (fun c => c == HASH) (p ++ tail) with
               | [] => True
               | q :: _ => (q == DQUOTE) = false
               end).
  { induction Hp as [|c p Hc _ IH]; [now specialize (Hn 0)|].
    cbn [app dropWhile]. destruct (Z.eqb_spec c HASH) as [->|Hne].
    - apply IH. intros n E. apply (Hn (S n)). cbn [repeat]. now rewrite E.
    - now destruct (slash_plain_inv c Hc) as (-> & _). }
  destruct (dropWhile _ (p ++ tail)); [reflexivity|now rewrite Hd].
Qed.

Lemma no_raw_prefix_tail (c : rune) (p : text) : no_raw_prefix (c :: p) -> no_raw_prefix p.
Proof. intros H q n E. apply (H (c :: q) n). cbn [app]. now rewrite E. Qed.

Lemma rust_scan_plain_safe (room : nat) (depth : Z) (p : text) :
  Forall (fun c => slash_plain c = true) p -> no_raw_prefix p ->
  forall fuel tail,
    length (p ++ tail) <= fuel ->
    rust_scan room fuel false false false false depth (p ++ tail)
    = emits_opt p (rust_scan room (fuel - length p) false false false false depth tail).
Proof.
  induction 1 as [|c p Hc Hp IH]; intros Hsafe fuel tail Hfuel.
  - cbn [app length]. now rewrite Nat.sub_0_r, emits_opt_nil.
  - destruct (slash_plain_inv c Hc) as (Hdq & Hsq & Hbt & Hsl & Hsl' & _).
    cbn [app length] in *.
    destruct fuel as [|fuel]; [lia|].
    assert (Hraw : (if negb false && negb false && (c == LOWER_R)
                       && (1 <? length (c :: p ++ tail))
                    then rust_raw_open (p ++ tail) else None) = None).
    { destruct (Z.eqb_spec c LOWER_R) as [->|Hne];
        [|now rewrite andb_false_r].
      destruct (_ && _); [|reflexivity].
      apply rust_raw_open_safe; [exact Hp|].
      intros n E. apply (Hsafe [] n). cbn [app]. now rewrite E. }
    cbn [rust_scan has_prefix]. rewrite Hraw.
    rewrite Hdq, Hsq, Hsl'. cbn [andb orb negb].
    rewrite andb_false_r. cbn [Nat.sub].
    rewrite (IH (no_raw_prefix_tail Hsafe)) by lia.
    now rewrite emit_emits_opt.
Qed.

Lemma rust_whole_plain_safe (room : nat) (depth : Z) (p tail : text) :
  Forall (fun c => slash_plain c = true) p -> no_raw_prefix p ->
  rust_whole room depth (p ++ tail) = emits_opt p (rust_whole room depth tail).
Proof.
  intros Hp Hs. unfold rust_whole. rewrite (rust_scan_plain_safe room depth Hp Hs) by lia.
  now rewrite length_app, Nat.add_comm, Nat.add_sub.
Qed.

Lemma rust_whole_dq (room : nat) (depth : Z) (s tail : text) :
  dq_literal s -> rust_whole room depth (s ++ tail) = emits_opt s (rust_whole room depth tail).
Proof.
  intros (items & Hi & ->). unfold rust_whole.
  rewrite dq_line_shape. cbn [length].
  change (rust_scan ?r (S ?n) false false false false ?d (DQUOTE :: ?tl))
    with (emit_opt DQUOTE (rust_scan r n true false false false d tl)).
  rewrite (rust_scan_in_string room depth Hi) by lia.
  rewrite <- (Nat.add_0_r (length (str_body items ++ _))), dq_fuel. cbn [length Nat.add].
  rewrite Nat.add_0_r.
  change (rust_scan ?r (S ?n) true false false false ?d (DQUOTE :: ?tl))
    with (emit_opt DQUOTE (rust_scan r n false false false false d tl)).
  destruct (rust_scan room (length tail) false false false false depth tail) as [[o st]|];
    [|reflexivity].
  unfold dq_string, emit_opt, emits_opt, emit, emits.
  cbn [option_map fst snd app]. now rewrite <- app_assoc.
Qed.

Lemma rust_whole_plain_end (room : nat) (depth : Z) (q : text) (oc : option text) :
  Forall (fun c => slash_plain c = true) q ->
  rust_whole room depth (q ++ match oc with Some c => [SLASH; SLASH] ++ c | None => [] end)
  = Some (q, (false, depth)).
Proof.
  intros Hq. unfold rust_whole. destruct oc as [c|].
  - rewrite (@rust_scan_plain room depth q Hq _ ([SLASH; SLASH] ++ c)
               (or_intror (ex_intro _ (SLASH :: c) eq_refl))) by apply Nat.le_refl.
    rewrite length_app, Nat.add_comm, Nat.add_sub. cbn [app length rust_scan].
    cbn. unfold emits. cbn [fst snd]. now rewrite app_nil_r.
  - rewrite (@rust_scan_plain room depth q Hq _ [] (or_introl eq_refl))
      by apply Nat.le_refl.
    rewrite rust_scan_nil. cbn. unfold emits. cbn [fst snd]. now rewrite !app_nil_r.
Qed.

Lemma rust_line_string {rt : GoRuntime} (depth : Z) (l : string_line) (last : bool) :
  Forall (fun c => slash_plain c = true) (sl_before l) ->
  no_raw_prefix (sl_before l) ->
  sl_literal l = [] \/ dq_literal (sl_literal l) ->
  Forall (fun c => slash_plain c = true) (sl_after l) ->
  rust_line (false, depth) last (sl_render [SLASH; SLASH] l)
  = Some (TrimRight (sl_code l) ++ eol last, (false, depth)).
Proof.
  intros Hp Hsafe Hs Hq. unfold rust_line, rust_normal.
  set (room := rune_cap _ - _).
  change (rust_scan room (length ?r) false false false false ?d ?r)
    with (rust_whole room d r).
  unfold sl_render, sl_code. rewrite with_line_comment_shape, <- !app_assoc.
  rewrite (rust_whole_plain_safe room depth _ Hp Hsafe).
  assert (Hlit : forall tail, rust_whole room depth (sl_literal l ++ tail)
                              = emits_opt (sl_literal l) (rust_whole room depth tail)).
  { intros tail. destruct Hs as [->|Hs]; [now rewrite emits_opt_nil|now apply rust_whole_dq]. }
  rewrite Hlit, (rust_whole_plain_end room depth _ Hq).
  unfold emits_opt, emits. cbn [option_map fst snd]. reflexivity.
Qed.

Lemma py_whole_plain (room : nat) (p tail : text) :
  Forall (fun c => hash_plain c = true) p ->
  py_whole room (p ++ tail) = emits_opt p (py_whole room tail).
Proof.
  intros Hp. unfold py_whole. rewrite (py_scan_plain room Hp) by lia.
  now rewrite length_app, Nat.add_comm, Nat.add_sub.
Qed.

(** The opening quote of a one-line string is not the start of a triple
    quote when the string is not empty or when no quote follows it. *)
Lemma string_not_triple (q : rune) (items : list str_item) (tail : text) :
  q = DQUOTE \/ q = SQUOTE ->
  Forall (fun i => match i with Plain c => c <> q | Escaped _ => True end) items ->
  has_prefix [q] tail = false ->
  is_triple (q :: str_body items ++ q :: tail) = false.
Proof.
  intros Hq Hi Ht. unfold is_triple.
  destruct Hi as [|i items Hi _].
  - cbn [str_body flat_map app has_prefix] in *.
    destruct tail as [|c tail]; [now rewrite !andb_false_r|].
    rewrite andb_true_r in Ht.
    destruct Hq as [-> | ->]; rewrite !Z.eqb_refl, Ht; reflexivity.
  - unfold str_body. cbn [flat_map]. rewrite <- app_assoc.
    destruct i as [c|c]; cbn [render_item app has_prefix].
    + destruct (Z.eqb_spec q c) as [E|E]; [now subst c|].
      destruct Hq as [-> | ->]; rewrite ?Z.eqb_refl; cbn [andb orb];
        destruct (Z.eqb_spec SQUOTE c); destruct (Z.eqb_spec DQUOTE c);
        try reflexivity; congruence.
    + destruct Hq as [-> | ->]; reflexivity.
Qed.

Lemma py_whole_dq (room : nat) (s tail : text) :
  dq_literal s -> has_prefix [DQUOTE] tail = false ->
  py_whole room (s ++ tail) = emits_opt s (py_whole room tail).
Proof.
  intros (items & Hi & ->) Ht. unfold py_whole.
  rewrite dq_line_shape. cbn [length].
  assert (Hopen : forall n,
             py_scan room (S n) false 0%Z false (DQUOTE :: str_body items ++ DQUOTE :: tail)
             = emit_opt DQUOTE
                 (py_scan room n true DQUOTE false (str_body items ++ DQUOTE :: tail))).
  { intros n. cbn [py_scan].
    rewrite (@string_not_triple DQUOTE items tail (or_introl eq_refl)); [|
      |exact Ht].
    - rewrite !andb_false_r. reflexivity.
    - eapply Forall_impl; [|exact Hi]. intros [c|c]; cbn; tauto. }
  rewrite Hopen.
  rewrite (py_scan_in_string room Hi) by lia.
  rewrite <- (Nat.add_0_r (length (str_body items ++ _))), dq_fuel. cbn [length Nat.add].
  rewrite Nat.add_0_r.
  change (py_scan room (S ?n) true DQUOTE false (DQUOTE :: ?tl))
    with (emit_opt DQUOTE (py_scan room n false 0%Z false tl)).
  destruct (py_scan room (length tail) false 0%Z false tail) as [[o st]|]; [|reflexivity].
  unfold dq_string, emit_opt, emits_opt, emit, emits.
  cbn [option_map fst snd app]. now rewrite <- app_assoc.
Qed.

Lemma py_whole_esc_sq (room : nat) (s tail : text) :
  esc_sq_literal s -> has_prefix [SQUOTE] tail = false ->
  py_whole room (s ++ tail) = emits_opt s (py_whole room tail).
Proof.
  intros (items & Hi & ->) Ht. unfold py_whole.
  rewrite esc_sq_line_shape. cbn [length].
  assert (Hopen : forall n,
             py_scan room (S n) false 0%Z false (SQUOTE :: str_body items ++ SQUOTE :: tail)
             = emit_opt SQUOTE
                 (py_scan room n true SQUOTE false (str_body items ++ SQUOTE :: tail))).
  { intros n. cbn [py_scan].
    rewrite (@string_not_triple SQUOTE items tail (or_intror eq_refl)); [|
      |exact Ht].
    - rewrite !andb_false_r. reflexivity.
    - eapply Forall_impl; [|exact Hi]. intros [c|c]; cbn; tauto. }
  rewrite Hopen.
  rewrite (py_scan_in_sq_string room Hi) by lia.
  rewrite <- (Nat.add_0_r (length (str_body items ++ _))), dq_fuel. cbn [length Nat.add].
  rewrite Nat.add_0_r.
  change (py_scan room (S ?n) true SQUOTE false (SQUOTE :: ?tl))
    with (emit_opt SQUOTE (py_scan room n false 0%Z false tl)).
  destruct (py_scan room (length tail) false 0%Z false tail) as [[o st]|]; [|reflexivity].
  unfold esc_sq_string, emit_opt, emits_opt, emit, emits.
  cbn [option_map fst snd app]. now rewrite <- app_assoc.
Qed.

Lemma py_whole_end (room : nat) (oc : option text) :
  py_whole room (match oc with Some c => [HASH] ++ c | None => [] end)
  = Some ([], (false, [])).
Proof. destruct oc as [c|]; [apply py_scan_hash|reflexivity]. Qed.

(** No quote follows plain code and the end of the line or a comment. *)
Lemma no_quote_next (q : rune) (after : text) (oc : option text) :
  q = DQUOTE \/ q = SQUOTE ->
  Forall (fun c => hash_plain c = true) after ->
  has_prefix [q] (after ++ match oc with Some c => [HASH] ++ c | None => [] end) = false.
Proof.
  intros Hq Ha. destruct Ha as [|c after Hc _].
  - destruct oc as [c|]; destruct Hq as [-> | ->]; reflexivity.
  - destruct (hash_plain_inv c Hc) as (_ & _ & _ & Hdq & Hsq & _).
    cbn [app has_prefix]. destruct Hq as [-> | ->]; [now rewrite Hdq|now rewrite Hsq].
Qed.

Lemma py_line_string {rt : GoRuntime} (l : string_line) (last : bool) :
  Forall (fun c => hash_plain c = true) (sl_before l) ->
  sl_literal l = [] \/ (dq_literal (sl_literal l) \/ esc_sq_literal (sl_literal l)) ->
  Forall (fun c => hash_plain c = true) (sl_after l) ->
  py_line (false, []) last (sl_render [HASH] l)
  = Some (TrimRight (sl_code l) ++ eol last, (false, [])).
Proof.
  intros Hp Hs Hq. unfold py_line.
  set (room := rune_cap _ - _).
  change (py_scan room (length ?r) false 0%Z false ?r) with (py_whole room r).
  unfold sl_render, sl_code. rewrite with_line_comment_shape, <- !app_assoc.
  rewrite (py_whole_plain room _ Hp).
  assert (Hlit : forall oc,
             py_whole room (sl_literal l ++ sl_after l
                            ++ match oc with Some c => [HASH] ++ c | None => [] end)
             = emits_opt (sl_literal l)
                 (py_whole room (sl_after l
                    ++ match oc with Some c => [HASH] ++ c | None => [] end))).
  { intros oc. destruct Hs as [->|[Hs|Hs]]; [now rewrite emits_opt_nil| |].
    - apply py_whole_dq; [exact Hs|]. now apply no_quote_next; [left|].
    - apply py_whole_esc_sq; [exact Hs|]. now apply no_quote_next; [right|]. }
  rewrite Hlit, (py_whole_plain room _ Hq), py_whole_end.
  unfold emits_opt, emits. cbn [option_map fst snd]. now rewrite !app_nil_r.
Qed.

Lemma yaml_scan_dq (s tail : text) :
  dq_literal s ->
  yaml_scan false 0%Z false (s ++ tail) = s ++ yaml_scan false 0%Z false tail.
Proof.
  intros (items & Hi & ->). rewrite dq_line_shape.
  assert (Hopen : forall tl, yaml_scan false 0%Z false (DQUOTE :: tl)
                             = DQUOTE :: yaml_scan true DQUOTE false tl)
    by (intros [|c1 tl1]; reflexivity).
  assert (Hclose : forall tl, yaml_scan true DQUOTE false (DQUOTE :: tl)
                              = DQUOTE :: yaml_scan false 0%Z false tl)
    by (intros [|c1 tl1]; reflexivity).
  rewrite Hopen, (yaml_scan_in_dq _ Hi), Hclose.
  unfold dq_string. cbn [app]. now rewrite <- app_assoc.
Qed.

Lemma yaml_scan_sq (s tail : text) :
  sq_literal s -> has_prefix [SQUOTE] tail = false ->
  yaml_scan false 0%Z false (s ++ tail) = s ++ yaml_scan false 0%Z false tail.
Proof.
  intros (items & Hi & ->) Ht.
  assert (Hshape : sq_string items ++ tail = SQUOTE :: sq_body items ++ SQUOTE :: tail).
  { unfold sq_string. cbn [app]. now rewrite <- app_assoc. }
  rewrite Hshape.
  assert (Hopen : forall tl, yaml_scan false 0%Z false (SQUOTE :: tl)
                             = SQUOTE :: yaml_scan true SQUOTE false tl)
    by (intros [|c1 tl1]; reflexivity).
  assert (Hclose : yaml_scan true SQUOTE false (SQUOTE :: tail)
                   = SQUOTE :: yaml_scan false 0%Z false tail).
  { destruct tail as [|c1 tl1]; [reflexivity|].
    cbn [has_prefix] in Ht. rewrite andb_true_r in Ht.
    cbn [yaml_scan]. eval_const_eqb. rewrite (Z.eqb_sym c1 SQUOTE), Ht. reflexivity. }
  rewrite Hopen, (yaml_scan_in_sq _ Hi), Hclose.
  unfold sq_string. cbn [app]. now rewrite <- app_assoc.
Qed.

Lemma yaml_scan_end (oc : option text) :
  yaml_scan false 0%Z false (match oc with Some c => [HASH] ++ c | None => [] end) = [].
Proof. destruct oc as [c|]; [apply yaml_scan_hash|reflexivity]. Qed.

Lemma yaml_line_string (l : string_line) (last : bool) :
  Forall (fun c => hash_plain c = true) (sl_before l) ->
  sl_literal l = [] \/ (dq_literal (sl_literal l) \/ sq_literal (sl_literal l)) ->
  Forall (fun c => hash_plain c = true) (sl_after l) ->
  yaml_line tt last (sl_render [HASH] l) = (TrimRight (sl_code l) ++ eol last, tt).
Proof.
  intros Hp Hs Hq. unfold yaml_line.
  unfold sl_render, sl_code. rewrite with_line_comment_shape, <- !app_assoc.
  rewrite (yaml_scan_plain Hp).
  assert (Hlit : forall oc,
             yaml_scan false 0%Z false
               (sl_literal l ++ sl_after l
                ++ match oc with Some c => [HASH] ++ c | None => [] end)
             = sl_literal l
               ++ yaml_scan false 0%Z false
                    (sl_after l ++ match oc with Some c => [HASH] ++ c | None => [] end)).
  { intros oc. destruct Hs as [->|[Hs|Hs]]; [reflexivity|now apply yaml_scan_dq|].
    apply yaml_scan_sq; [exact Hs|]. now apply no_quote_next; [right|]. }
  rewrite Hlit, (yaml_scan_plain Hq), yaml_scan_end. now rewrite !app_nil_r.
Qed.

Lemma tf_string_prefix (s rest : text) :
  dq_literal s ->
  removeTerraformComments (s ++ rest) = option_map (app s) (removeTerraformComments rest).
Proof.
  intros (items & Hi & ->).
  assert (H1 : tf_step (dq_string items ++ rest) = Some (dq_string items, rest)).
  { rewrite dq_line_shape. unfold tf_step. eval_const_eqb.
    now rewrite (tf_string_body _ Hi). }
  assert (N1 : dq_string items ++ rest <> []) by (rewrite dq_line_shape; discriminate).
  rewrite (removeTerraformComments_step N1 H1).
  now destruct (removeTerraformComments rest).
Qed.

(** Terraform: plain text, a string, plain text and a comment. *)
Lemma tf_string_comment (p s q marker comment rest : text) :
  Forall (fun c => tf_plain c = true) p -> dq_literal s ->
  Forall (fun c => tf_plain c = true) q ->
  marker = [HASH] \/ marker = [SLASH; SLASH] ->
  no_nl comment -> rest = [] \/ (exists r, rest = NL :: r) ->
  removeTerraformComments (p ++ s ++ q ++ marker ++ comment ++ rest)
  = option_map (app (p ++ s ++ q)) (removeTerraformComments rest).
Proof.
  intros Hp Hs Hq Hm Hc Hr.
  rewrite (tf_plain_prefix _ Hp), (tf_string_prefix _ Hs), (tf_plain_prefix _ Hq).
  rewrite (tf_line_comment Hm Hc Hr).
  destruct (removeTerraformComments rest) as [o|]; [|reflexivity].
  cbn [option_map]. now rewrite <- !app_assoc.
Qed.

Lemma dq_literal_no_nl (s : text) : dq_literal s -> no_nl s.
Proof.
  intros (items & Hi & ->). rewrite <- (app_nil_r (dq_string items)).
  apply dq_line_no_nl; [exact Hi|constructor].
Qed.

Lemma esc_sq_literal_no_nl (s : text) : esc_sq_literal s -> no_nl s.
Proof.
  intros (items & Hi & ->). rewrite <- (app_nil_r (esc_sq_string items)).
  apply esc_sq_line_no_nl; [exact Hi|constructor].
Qed.

Lemma sq_literal_no_nl (s : text) : sq_literal s -> no_nl s.
Proof.
  intros (items & Hi & ->). unfold sq_string. constructor; [discriminate|].
  apply Forall_app. split; [now apply sq_body_no_nl|]. repeat constructor. discriminate.
Qed.

Lemma string_lines_no_nl (plain : rune -> bool) (before_ok literal : text -> Prop)
    (marker : text) (ls : list string_line) :
  (forall c, plain c = true -> c <> NL) -> (forall s, literal s -> no_nl s) ->
  no_nl marker -> string_lines plain before_ok literal ls ->
  Forall no_nl (map (sl_render marker) ls).
Proof.
  intros Hp Hlit Hm H.
  induction H as [|l ls (Hb & _ & Hs & Ha & Hc) _ IH]; cbn [map]; constructor; auto.
  unfold sl_render, sl_code. rewrite with_line_comment_shape.
  repeat (apply Forall_app; split).
  - exact (plain_no_nl plain Hp Hb).
  - destruct Hs as [->|Hs]; [constructor|now apply Hlit].
  - exact (plain_no_nl plain Hp Ha).
  - destruct (sl_comment l) as [c|]; [|constructor].
    apply Forall_app. split; [exact Hm|now apply Hc].
Qed.

Lemma go_string_doc (ls : list string_line) :
  string_lines slash_plain (fun _ => True) dq_literal ls ->
  removeGoComments (doc (map (sl_render [SLASH; SLASH]) ls))
  = doc (map (fun l => TrimRight (sl_code l)) ls).
Proof.
  intros H. destruct ls as [|l0 ls0] eqn:El; [reflexivity|]. rewrite <- El in *.
  assert (Hne : ls <> []) by (rewrite El; discriminate). clear El.
  unfold removeGoComments, go_run.
  rewrite Split_doc;
    [|now apply map_not_nil
     |exact (string_lines_no_nl slash_plain_not_nl dq_literal_no_nl slashes_no_nl H)].
  rewrite (@for_lines_const go_state _ go_line (GoState false false)
             (sl_render [SLASH; SLASH]) (fun l => TrimRight (sl_code l)) ls Hne);
    [reflexivity|].
  clear Hne. induction H as [|l ls' (Hb & _ & Hs & Ha & _) _ IH]; constructor; auto.
  intros last. now apply go_line_string.
Qed.

Lemma js_literal_no_nl (s : text) : dq_literal s \/ esc_sq_literal s -> no_nl s.
Proof. intros [H|H]; [now apply dq_literal_no_nl|now apply esc_sq_literal_no_nl]. Qed.

Lemma yaml_literal_no_nl (s : text) : dq_literal s \/ sq_literal s -> no_nl s.
Proof. intros [H|H]; [now apply dq_literal_no_nl|now apply sq_literal_no_nl]. Qed.

Lemma js_string_doc (ls : list string_line) :
  string_lines slash_plain (fun _ => True) (fun s => dq_literal s \/ esc_sq_literal s) ls ->
  removeJSComments (doc (map (sl_render [SLASH; SLASH]) ls))
  = doc (map (fun l => TrimRight (sl_code l)) ls).
Proof.
  intros H. destruct ls as [|l0 ls0] eqn:El; [reflexivity|]. rewrite <- El in *.
  assert (Hne : ls <> []) by (rewrite El; discriminate). clear El.
  unfold removeJSComments, js_run.
  rewrite Split_doc;
    [|now apply map_not_nil
     |exact (string_lines_no_nl slash_plain_not_nl js_literal_no_nl slashes_no_nl H)].
  rewrite (@for_lines_const js_state _ js_line (JsState false false)
             (sl_render [SLASH; SLASH]) (fun l => TrimRight (sl_code l)) ls Hne);
    [reflexivity|].
  clear Hne. induction H as [|l ls' (Hb & _ & Hs & Ha & _) _ IH]; constructor; auto.
  intros last. now apply js_line_string.
Qed.

Lemma rust_string_doc {rt : GoRuntime} (ls : list string_line) :
  string_lines slash_plain no_raw_prefix dq_literal ls ->
  removeRustComments (doc (map (sl_render [SLASH; SLASH]) ls))
  = Some (doc (map (fun l => TrimRight (sl_code l)) ls)).
Proof.
  intros H. destruct ls as [|l0 ls0] eqn:El; [reflexivity|]. rewrite <- El in *.
  assert (Hne : ls <> []) by (rewrite El; discriminate). clear El.
  unfold removeRustComments, rust_run.
  rewrite Split_doc;
    [|now apply map_not_nil
     |exact (string_lines_no_nl slash_plain_not_nl dq_literal_no_nl slashes_no_nl H)].
  rewrite (@for_lines_opt_const rust_state _ rust_line (false, 0%Z)
             (sl_render [SLASH; SLASH]) (fun l => TrimRight (sl_code l)) ls Hne);
    [reflexivity|].
  clear Hne. induction H as [|l ls' (Hb & Hsafe & Hs & Ha & _) _ IH]; constructor; auto.
  intros last. now apply rust_line_string.
Qed.

Lemma py_string_doc {rt : GoRuntime} (ls : list string_line) :
  string_lines hash_plain (fun _ => True) (fun s => dq_literal s \/ esc_sq_literal s) ls ->
  removePythonComments (doc (map (sl_render [HASH]) ls))
  = Some (doc (map (fun l => TrimRight (sl_code l)) ls)).
Proof.
  intros H. destruct ls as [|l0 ls0] eqn:El; [reflexivity|]. rewrite <- El in *.
  assert (Hne : ls <> []) by (rewrite El; discriminate). clear El.
  unfold removePythonComments, py_run.
  rewrite Split_doc;
    [|now apply map_not_nil
     |exact (string_lines_no_nl hash_plain_not_nl js_literal_no_nl hash_no_nl H)].
  rewrite (@for_lines_opt_const py_state _ py_line (false, [])
             (sl_render [HASH]) (fun l => TrimRight (sl_code l)) ls Hne);
    [reflexivity|].
  clear Hne. induction H as [|l ls' (Hb & _ & Hs & Ha & _) _ IH]; constructor; auto.
  intros last. now apply py_line_string.
Qed.

Lemma yaml_string_doc (ls : list string_line) :
  string_lines hash_plain (fun _ => True) (fun s => dq_literal s \/ sq_literal s) ls ->
  removeYAMLComments (doc (map (sl_render [HASH]) ls))
  = doc (map (fun l => TrimRight (sl_code l)) ls).
Proof.
  intros H. destruct ls as [|l0 ls0] eqn:El; [reflexivity|]. rewrite <- El in *.
  assert (Hne : ls <> []) by (rewrite El; discriminate). clear El.
  unfold removeYAMLComments.
  rewrite Split_doc;
    [|now apply map_not_nil
     |exact (string_lines_no_nl hash_plain_not_nl yaml_literal_no_nl hash_no_nl H)].
  rewrite (@for_lines_const unit _ yaml_line tt
             (sl_render [HASH]) (fun l => TrimRight (sl_code l)) ls Hne);
    [reflexivity|].
  clear Hne. induction H as [|l ls' (Hb & _ & Hs & Ha & _) _ IH]; constructor; auto.
  intros last. now apply yaml_line_string.
Qed.

(* ------------------------------------------------------------------ *)
(** ** A triple-quoted string that closes on its line *)

Lemma index_Q3_after (c q : text) :
  Forall (fun x => x <> DQUOTE) c ->
  index Q3 (c ++ Q3 ++ q) = Some (length c).
Proof.
  induction 1 as [|x c Hx _ IH]; [reflexivity|].
  cbn [app index length]. rewrite IH. cbn [option_map].
  unfold Q3 at 1. cbn [has_prefix].
  destruct (Z.eqb_spec DQUOTE x) as [E|E]; [now subst x|reflexivity].
Qed.

Lemma byte_index_Q3_after (c q : text) :
  Forall (fun x => x <> DQUOTE) c ->
  byte_index Q3 (c ++ Q3 ++ q) = Some (byte_len c).
Proof.
  intros H. unfold byte_index. rewrite (index_Q3_after q H). cbn [option_map].
  now rewrite firstn_app, Nat.sub_diag, firstn_all, app_nil_r.
Qed.

Lemma py_scan_enough (room fuel : nat) (runes : text) :
  length runes <= fuel ->
  py_scan room fuel false 0%Z false runes = py_whole room runes.
Proof. intros H. now apply (@py_scan_fuel_n room (length runes)). Qed.

Lemma py_whole_triple (room : nat) (c q : text) :
  Forall (fun x => x <> DQUOTE) c ->
  py_whole room (Q3 ++ c ++ Q3 ++ q)
  = if byte_len c - length c <=? length q then
      emits_opt (Q3 ++ c ++ Q3 ++ firstn (byte_len c - length c) q)
        (py_whole room (skipn (byte_len c - length c) q))
    else if byte_len c - length c - length q <=? room then
      Some (Q3 ++ c ++ Q3 ++ q ++ repeat 0%Z (byte_len c - length c - length q),
            (false, []))
    else None.
Proof.
  intros Hc. pose proof (byte_len_ge c) as Hge.
  set (k := byte_len c - length c).
  set (line := Q3 ++ c ++ Q3 ++ q).
  assert (Hlen : length line = 6 + length c + length q).
  { unfold line, Q3. cbn [app length]. rewrite !length_app. cbn [length]. lia. }
  assert (Hstep : forall n,
             py_scan room (S n) false 0%Z false line
             = match slice_to room line (3 + byte_len c + 3) with
               | Some s => emits_opt s
                             (py_scan room n false 0%Z false
                                (skipn (3 + byte_len c + 3) line))
               | None => None
               end).
  { intros n. unfold line, Q3. cbn [app py_scan].
    change (DQUOTE == BSLASH) with false. cbn [andb negb firstn skipn].
    change (c ++ DQUOTE :: DQUOTE :: DQUOTE :: q) with (c ++ Q3 ++ q).
    change [DQUOTE; DQUOTE; DQUOTE] with Q3.
    set (rest := c ++ Q3 ++ q).
    change (2 <? length (DQUOTE :: DQUOTE :: DQUOTE :: rest)) with true.
    change (is_triple (DQUOTE :: DQUOTE :: DQUOTE :: rest)) with true.
    cbn [andb]. subst rest.
    now rewrite (byte_index_Q3_after q Hc). }
  unfold py_whole. rewrite Hlen. cbn [Nat.add]. rewrite Hstep.
  unfold slice_to. rewrite Hlen.
  assert (Hsplit : line = (Q3 ++ c ++ Q3) ++ q) by (unfold line; now rewrite <- !app_assoc).
  assert (Hl3 : length (Q3 ++ c ++ Q3) = 6 + length c).
  { unfold Q3. cbn [app length]. rewrite length_app. cbn [length]. lia. }
  destruct (Nat.leb_spec k (length q)) as [Hk|Hk].
  - destruct (Nat.leb_spec (3 + byte_len c + 3) (6 + length c + length q)) as [_|H];
      [|unfold k in Hk; lia].
    replace (3 + byte_len c + 3) with (length (Q3 ++ c ++ Q3) + k)
      by (rewrite Hl3; unfold k; lia).
    rewrite Hsplit, firstn_app_2, skipn_app.
    rewrite skipn_all2 by lia. cbn [app].
    replace (length (Q3 ++ c ++ Q3) + k - length (Q3 ++ c ++ Q3)) with k by lia.
    rewrite py_scan_enough by (rewrite length_skipn; lia).
    now rewrite <- !app_assoc.
  - destruct (Nat.leb_spec (3 + byte_len c + 3) (6 + length c + length q)) as [H|_];
      [unfold k in Hk; lia|].
    replace (3 + byte_len c + 3 - (6 + length c + length q)) with (k - length q)
      by (unfold k; lia).
    destruct (Nat.leb_spec (k - length q) room) as [Hr|Hr]; [|reflexivity].
    rewrite skipn_all2 by (rewrite Hlen; unfold k in Hk; lia).
    rewrite py_scan_nil. unfold emits_opt, emits. cbn [option_map fst snd].
    rewrite app_nil_r. unfold line. now rewrite <- !app_assoc.
Qed.

(* ================================================================== *)
(** * The claims *)

(** C1 (the code at the failing input).  A Rust raw string opened with
    r, hash, quote on the first line and closed on the third: the line between them
    is scanned as ordinary code, so the [// b] inside the raw string is
    removed.  Likewise the line that opens a multi-line JS template literal
    is not written at all, so the [//] inside it is lost. *)
Theorem C1_multiline_literals_not_preserved {rt : GoRuntime} :
  removeRustComments rust_raw_doc
    = Some (doc [T "let s = r#" ++ [DQUOTE] ++ T "a"; []; [DQUOTE] ++ T "#;"])
  /\ removeJSComments js_template_doc = doc [[]; T "/* still not */`;"].
Proof. split; vm_compute; reflexivity. Qed.

(** C3 (counterexample).  [removeRustComments] is not idempotent: the first
    pass removes the block comment between [r] and the quote, which turns
    the escaped string of the input into a raw string for the second pass,
    and the second pass then removes [// x]. *)
Lemma C3_rust_not_idempotent :
  (forall rt : GoRuntime,
      removeRustComments rust_reparse_doc
      = Some (T "r" ++ [DQUOTE] ++ T "a\" ++ [DQUOTE] ++ T "// x"))
  /\ (forall rt : GoRuntime,
        removeRustComments (T "r" ++ [DQUOTE] ++ T "a\" ++ [DQUOTE] ++ T "// x")
        = Some (T "r" ++ [DQUOTE] ++ T "a\" ++ [DQUOTE]))
  /\ (forall rt : GoRuntime,
        ~ (forall d out, removeRustComments d = Some out ->
                         removeRustComments out = Some out)).
Proof.
  assert (H1 : forall rt : GoRuntime,
             removeRustComments rust_reparse_doc
             = Some (T "r" ++ [DQUOTE] ++ T "a\" ++ [DQUOTE] ++ T "// x"))
    by (intros rt; vm_compute; reflexivity).
  assert (H2 : forall rt : GoRuntime,
             removeRustComments (T "r" ++ [DQUOTE] ++ T "a\" ++ [DQUOTE] ++ T "// x")
             = Some (T "r" ++ [DQUOTE] ++ T "a\" ++ [DQUOTE]))
    by (intros rt; vm_compute; reflexivity).
  split; [exact H1|split; [exact H2|]].
  intros rt H. specialize (H _ _ (H1 rt)). rewrite H2 in H. discriminate.
Qed.

(** C3 (amended).  The newline normaliser is idempotent, and so are the
    YAML remover and the Go remover: stripping the output again changes
    nothing. *)
Theorem C3_idempotence_normaliser_yaml_go :
  (forall t, collapseExcessiveNewlines (collapseExcessiveNewlines t)
             = collapseExcessiveNewlines t)
  /\ (forall d, removeYAMLComments (removeYAMLComments d) = removeYAMLComments d)
  /\ (forall d, removeGoComments (removeGoComments d) = removeGoComments d).
Proof.
  split; [exact collapse_idempotent|split].
  - exact removeYAMLComments_idempotent.
  - exact removeGoComments_idempotent.
Qed.

(** C4.  Rust block comments nest: the document [/* a /* b */ c */], newline,
    [x] becomes an empty line and [x], and an unclosed [/* a /* b] leaves the
    depth counter at 2.  JS/TS block comments do not nest: the first [*/]
    closes the comment, leaving [ c */] and [ tail */] behind. *)
Theorem C4_block_comment_nesting {rt : GoRuntime} :
  removeRustComments nested_doc = Some (doc [[]; T "x"])
  /\ rust_run (T "/* a /* b") = Some ([], (true, 2%Z))
  /\ removeJSComments nested_doc = doc [T " c */"; T "x"]
  /\ removeJSComments (T "/* outer /* inner */ tail */") = T " tail */".
Proof. repeat split; vm_compute; reflexivity. Qed.





(** C2 (counterexample).  removeTerraformComments drops the newline inside a
    block comment that spans two lines: the input has one newline, the
    output none. *)
Lemma C2_terraform_block_comment_joins_lines :
  removeTerraformComments tf_block_doc = Some (T "a  b")
  /\ count_nl tf_block_doc = 1
  /\ count_nl (T "a  b") = 0
  /\ ~ (forall d out, removeTerraformComments d = Some out -> count_nl out = count_nl d).
Proof.
  assert (H1 : removeTerraformComments tf_block_doc = Some (T "a  b"))
    by (vm_compute; reflexivity).
  split; [exact H1|]. split; [reflexivity|]. split; [reflexivity|].
  intros H. specialize (H _ _ H1). discriminate.
Qed.

(** C2 (amended).  The YAML remover keeps the number of newlines of every
    document.  The Python remover keeps it whenever it returns, and it
    returns on every ASCII document (it panics only when the byte offset
    of a closing triple quote lies beyond the capacity of the rune slice).
    The Go and JS/TS removers keep it for every document that does not end
    inside an unclosed block comment, also when block comments span
    several lines; so does the Rust remover whenever it returns, and it
    returns on every ASCII document.  The Terraform remover never adds a
    newline and keeps the number when the document contains no block
    comment opener. *)
Theorem C2_line_count_preserved {rt : GoRuntime} :
  (forall d, count_nl (removeYAMLComments d) = count_nl d)
  /\ (forall d out, removePythonComments d = Some out -> count_nl out = count_nl d)
  /\ (forall d, ascii_text d ->
                exists out, removePythonComments d = Some out /\ count_nl out = count_nl d)
  /\ (forall d, go_inBlockComment (snd (go_run d)) = false ->
                count_nl (removeGoComments d) = count_nl d)
  /\ (forall d, js_inBlockComment (snd (js_run d)) = false ->
                count_nl (removeJSComments d) = count_nl d)
  /\ (forall d out st, rust_run d = Some (out, st) -> fst st = false ->
                       count_nl out = count_nl d)
  /\ (forall d, ascii_text d ->
                exists out st, rust_run d = Some (out, st)
                               /\ (fst st = false -> count_nl out = count_nl d))
  /\ (forall d out, removeTerraformComments d = Some out ->
                    count_nl out <= count_nl d
                    /\ (index [SLASH; STAR] d = None -> count_nl out = count_nl d)).
Proof.
  split; [exact removeYAMLComments_count|].
  split; [exact removePythonComments_count|].
  split.
  { intros d Ha. destruct (removePythonComments d) as [out|] eqn:E;
      [|now apply py_run_returns in E].
    exists out. split; [reflexivity|now apply removePythonComments_count]. }
  split; [exact removeGoComments_count|].
  split; [exact removeJSComments_count|].
  split; [exact rust_run_count|].
  split.
  { intros d Ha. destruct (rust_run d) as [[out st]|] eqn:E;
      [|now apply rust_run_returns in E].
    exists out, st. split; [reflexivity|]. intros Hst. now apply (rust_run_count _ E). }
  intros d out H. destruct (tf_main_count _ _ H) as [Hle Heq].
  split; [exact Hle|]. intros Hi. now apply Heq.
Qed.

(** C2 (witness): a Go document with a block comment over three lines. *)
Lemma C2_line_count_preserved_witness :
  count_nl (removeGoComments go_block_doc) = count_nl go_block_doc.
Proof.
  apply (proj1 (proj2 (proj2 (proj2 (@C2_line_count_preserved small_buffer))))).
  vm_compute. reflexivity.
Defined.

(** C8 (counterexample).  removeTerraformComments does not trim: removing
    the comment of [a = 1 # c] leaves the space before it. *)
Lemma C8_terraform_keeps_trailing_space :
  removeTerraformComments (T "a = 1 # c") = Some (T "a = 1" ++ [SP])
  /\ ~ no_trailing_blank (T "a = 1" ++ [SP]).
Proof.
  split; [vm_compute; reflexivity|].
  intros H. specialize (H (T "a = 1") SP eq_refl). discriminate.
Qed.

(** C8 (amended).  In the Go, JS/TS, Python, Rust and YAML removers, what is
    written for a line that is entered in Normal context is a text without
    a trailing space or tab, followed by the line terminator (for Python
    and Rust: whenever the line loop returns, which it does on every ASCII
    line); and no line of the output of the YAML remover ends in a space
    or a tab. *)
Theorem C8_trailing_blanks_trimmed {rt : GoRuntime} :
  (forall last line, trimmed_line (fst (go_line (GoState false false) last line)) last)
  /\ (forall last line, trimmed_line (fst (js_line (JsState false false) last line)) last)
  /\ (forall last line out st,
        py_line (false, []) last line = Some (out, st) -> trimmed_line out last)
  /\ (forall last line, ascii_text line ->
        exists out st, py_line (false, []) last line = Some (out, st)
                       /\ trimmed_line out last)
  /\ (forall last depth line out st,
        rust_line (false, depth) last line = Some (out, st) -> trimmed_line out last)
  /\ (forall last depth line, ascii_text line ->
        exists out st, rust_line (false, depth) last line = Some (out, st)
                       /\ trimmed_line out last)
  /\ (forall last line, trimmed_line (fst (yaml_line tt last line)) last)
  /\ (forall d, Forall no_trailing_blank (Split (removeYAMLComments d))).
Proof.
  split; [exact go_line_trimmed|].
  split; [exact js_line_trimmed|].
  split; [exact py_line_trimmed|].
  split.
  { intros last line Ha. destruct (py_line (false, []) last line) as [[out st]|] eqn:E;
      [|now apply py_line_returns in E].
    exists out, st. split; [reflexivity|now apply (py_line_trimmed _ _ E)]. }
  split; [exact rust_line_trimmed|].
  split.
  { intros last depth line Ha.
    destruct (rust_line (false, depth) last line) as [[out st]|] eqn:E;
      [|now apply rust_line_returns in E].
    exists out, st. split; [reflexivity|now apply (rust_line_trimmed _ _ _ E)]. }
  split; [exact yaml_line_trimmed|exact removeYAMLComments_lines_trimmed].
Qed.

(** C8 (witness): a Python line with a trailing comment. *)
Lemma C8_trailing_blanks_trimmed_witness :
  trimmed_line (T "x = 5") true.
Proof.
  apply (proj1 (proj2 (proj2 (@C8_trailing_blanks_trimmed small_buffer)))
           true (T "x = 5  # c") (T "x = 5") (false, [])).
  vm_compute. reflexivity.
Defined.

(** C6 (counterexample).  removePythonComments copies the line that closes
    a triple-quoted string whole: the comment after the closing quotes
    stays in the output (and the line that opened the string is not
    written). *)
Lemma C6_python_closing_line_copied_whole :
  (forall rt : GoRuntime,
      removePythonComments py_closing_doc = Some (doc [[]; T "b" ++ Q3 ++ T " # c"]))
  /\ (forall rt : GoRuntime,
        py_line (true, Q3) true (T "b" ++ Q3 ++ T " # c")
        = Some (T "b" ++ Q3 ++ T " # c", (false, [])))
  /\ (forall rt : GoRuntime,
        py_line (true, Q3) true (T "b" ++ Q3 ++ T " # c")
        <> Some (T "b" ++ Q3, (false, []))).
Proof.
  repeat split; intros rt; try (vm_compute; reflexivity). vm_compute. discriminate.
Qed.

(** C6 (amended).  In removeGoComments, a line that closes a multi-line raw
    string is written verbatim up to and including the first backtick, and
    the rest of the line is handled exactly like a whole line entered in
    Normal context; so a line comment after the closing backtick is
    removed.  In removePythonComments every line of a multi-line string,
    the closing one included, is written whole. *)
Theorem C6_resumption_after_raw_string {rt : GoRuntime} :
  (forall pre post last,
      index [BTICK] pre = None ->
      go_line (GoState false true) last (pre ++ BTICK :: post)
      = (pre ++ BTICK :: fst (go_line (GoState false false) last post),
         snd (go_line (GoState false false) last post)))
  /\ (forall pre comment last,
        index [BTICK] pre = None ->
        go_line (GoState false true) last (pre ++ BTICK :: SP :: SLASH :: SLASH :: comment)
        = (pre ++ [BTICK] ++ eol last, GoState false false))
  /\ (forall delim line last,
        exists st, py_line (true, delim) last line = Some (line ++ eol last, st)).
Proof.
  split; [exact go_line_closes_raw_string|].
  split; [exact go_line_comment_after_raw_string|].
  intros delim line last. unfold py_line. eauto.
Qed.

(** C6 (witness): the closing line of a Go raw string with a comment after
    the backtick. *)
Lemma C6_resumption_after_raw_string_witness :
  go_line (GoState false true) false (T "def" ++ BTICK :: SP :: SLASH :: SLASH :: T " yes")
  = (T "def" ++ [BTICK] ++ eol false, GoState false false).
Proof.
  apply (proj1 (proj2 (@C6_resumption_after_raw_string small_buffer))).
  vm_compute. reflexivity.
Defined.




(** C7 (counterexample).  In removeRustComments a single quote before the
    string opens a character literal that the line never closes, as the
    quote of a lifetime does: in [let s: &'static str = ...; // c] the
    string with its escaped quotes is kept, but so is the comment after
    it.  So the trailing comment is not removed after every string. *)
Lemma C7_rust_quote_before_string :
  (forall rt : GoRuntime, removeRustComments rust_lifetime_line = Some rust_lifetime_line)
  /\ rust_lifetime_line
     = T "let s: &'static str = " ++ dq_string he_said ++ [59%Z; SP; SLASH; SLASH; SP; 99%Z]
  /\ dq_literal (dq_string he_said)
  /\ (forall rt : GoRuntime,
        ~ (forall before s comment,
             no_nl before -> dq_literal s -> no_nl comment ->
             removeRustComments (before ++ s ++ [59%Z; SP; SLASH; SLASH] ++ comment)
             = Some (before ++ s ++ [59%Z]))).
Proof.
  assert (H1 : forall rt : GoRuntime,
             removeRustComments rust_lifetime_line = Some rust_lifetime_line)
    by (intros rt; vm_compute; reflexivity).
  assert (Hlit : dq_literal (dq_string he_said)).
  { exists he_said. split; [|reflexivity]. unfold he_said. cbn [T map app].
    repeat (constructor; [cbn; repeat split; discriminate|]). constructor. }
  split; [exact H1|]. split; [reflexivity|]. split; [exact Hlit|].
  intros rt H.
  specialize (H (T "let s: &'static str = ") (dq_string he_said) [SP; 99%Z]
                ltac:(repeat constructor; discriminate) Hlit
                ltac:(repeat constructor; discriminate)).
  change (T "let s: &'static str = " ++ dq_string he_said
          ++ [59%Z; SP; SLASH; SLASH] ++ [SP; 99%Z])
    with rust_lifetime_line in H.
  rewrite H1 in H. vm_compute in H. discriminate.
Qed.

(** C7 (amended).  A document whose lines are made of plain code, a
    one-line string literal or none, and plain code again, each followed
    or not by a line comment, comes out of the Go, JS/TS, Rust, Python and
    YAML removers with every line reduced to its code, the whole string
    included, without trailing spaces and tabs: the string is not ended at
    an escaped quote (a backslash escape in a double-quoted string and in
    a single-quoted JS/TS or Python string, a doubled quote in a
    single-quoted YAML string), comment tokens inside it stay, and the
    comment after it goes.  Plain code holds no quote and no comment
    token; in Rust the code before the string must not end in [r] and
    hashes, which would open a raw string.  The Terraform remover does the
    same at any place of the text, and leaves the white space before the
    comment. *)
Theorem C7_escape_correctness {rt : GoRuntime} :
  (forall ls,
      string_lines slash_plain (fun _ => True) dq_literal ls ->
      removeGoComments (doc (map (sl_render [SLASH; SLASH]) ls))
      = doc (map (fun l => TrimRight (sl_code l)) ls))
  /\ (forall ls,
        string_lines slash_plain (fun _ => True)
          (fun s => dq_literal s \/ esc_sq_literal s) ls ->
        removeJSComments (doc (map (sl_render [SLASH; SLASH]) ls))
        = doc (map (fun l => TrimRight (sl_code l)) ls))
  /\ (forall ls,
        string_lines slash_plain no_raw_prefix dq_literal ls ->
        removeRustComments (doc (map (sl_render [SLASH; SLASH]) ls))
        = Some (doc (map (fun l => TrimRight (sl_code l)) ls)))
  /\ (forall ls,
        string_lines hash_plain (fun _ => True)
          (fun s => dq_literal s \/ esc_sq_literal s) ls ->
        removePythonComments (doc (map (sl_render [HASH]) ls))
        = Some (doc (map (fun l => TrimRight (sl_code l)) ls)))
  /\ (forall ls,
        string_lines hash_plain (fun _ => True)
          (fun s => dq_literal s \/ sq_literal s) ls ->
        removeYAMLComments (doc (map (sl_render [HASH]) ls))
        = doc (map (fun l => TrimRight (sl_code l)) ls))
  /\ (forall p s q marker comment rest,
        Forall (fun c => tf_plain c = true) p -> dq_literal s ->
        Forall (fun c => tf_plain c = true) q ->
        marker = [HASH] \/ marker = [SLASH; SLASH] ->
        no_nl comment -> rest = [] \/ (exists r, rest = NL :: r) ->
        removeTerraformComments (p ++ s ++ q ++ marker ++ comment ++ rest)
        = option_map (app (p ++ s ++ q)) (removeTerraformComments rest)).
Proof.
  split; [exact go_string_doc|].
  split; [exact js_string_doc|].
  split; [exact rust_string_doc|].
  split; [exact py_string_doc|].
  split; [exact yaml_string_doc|exact tf_string_comment].
Qed.

(** C7 (witness): the two strings of the claim and a single-quoted Python
    string with an escaped quote, each with code before it, in documents
    of two lines. *)
Lemma C7_escape_correctness_witness :
  removeJSComments (doc (map (sl_render [SLASH; SLASH]) [he_said_line; code_line]))
  = doc [T "const s = " ++ dq_string he_said ++ T ";"; T "x = 1"]
  /\ removeYAMLComments (doc (map (sl_render [HASH]) [code_line; it_s_line]))
     = doc [T "x = 1"; T "key: " ++ sq_string it_s]
  /\ removePythonComments (rt := small_buffer)
       (doc (map (sl_render [HASH]) [it_s_escaped_line; code_line]))
     = Some (doc [T "s = " ++ esc_sq_string it_s_escaped; T "x = 1"]).
Proof.
  assert (Hcode : forall plain,
             Forall (fun c => plain c = true) (T "x = 1 ") ->
             Forall (fun c => plain c = true) (sl_before code_line)
             /\ True
             /\ (sl_literal code_line = [] \/ False)
             /\ Forall (fun c => plain c = true) (sl_after code_line)
             /\ forall c, sl_comment code_line = Some c -> no_nl c).
  { intros plain Hp. repeat split; [constructor|now left|exact Hp|].
    intros c [= <-]. repeat constructor; discriminate. }
  split; [|split].
  - change (doc [T "const s = " ++ dq_string he_said ++ T ";"; T "x = 1"])
      with (doc (map (fun l => TrimRight (sl_code l)) [he_said_line; code_line])).
    apply (proj1 (proj2 (@C7_escape_correctness small_buffer))).
    constructor; [|constructor; [|constructor]].
    + repeat split; [repeat constructor| |repeat constructor|].
      * right. left. exists he_said. split; [|reflexivity].
        unfold he_said. cbn [T map app].
        repeat (constructor; [cbn; repeat split; discriminate|]). constructor.
      * intros c [= <-]. repeat constructor; discriminate.
    + destruct (Hcode slash_plain ltac:(repeat constructor)) as (A & B & [C|[]] & D & E).
      repeat split; [exact A|now left|exact D|exact E].
  - change (doc [T "x = 1"; T "key: " ++ sq_string it_s])
      with (doc (map (fun l => TrimRight (sl_code l)) [code_line; it_s_line])).
    apply (proj1 (proj2 (proj2 (proj2 (proj2 (@C7_escape_correctness small_buffer)))))).
    constructor; [|constructor; [|constructor]].
    + destruct (Hcode hash_plain ltac:(repeat constructor)) as (A & B & [C|[]] & D & E).
      repeat split; [exact A|now left|exact D|exact E].
    + repeat split; [repeat constructor| |repeat constructor|].
      * right. right. exists it_s. split; [|reflexivity].
        unfold it_s. cbn [T map app].
        repeat (constructor; [cbn; try exact I; repeat split; discriminate|]). constructor.
      * intros c [= <-]. repeat constructor; discriminate.
  - change (doc [T "s = " ++ esc_sq_string it_s_escaped; T "x = 1"])
      with (doc (map (fun l => TrimRight (sl_code l)) [it_s_escaped_line; code_line])).
    apply (proj1 (proj2 (proj2 (proj2 (@C7_escape_correctness small_buffer))))).
    constructor; [|constructor; [|constructor]].
    + repeat split; [repeat constructor| |repeat constructor|].
      * right. right. exists it_s_escaped. split; [|reflexivity].
        unfold it_s_escaped. cbn [T map app].
        repeat (constructor; [cbn; repeat split; discriminate|]). constructor.
      * intros c [= <-]. repeat constructor; discriminate.
    + destruct (Hcode hash_plain ltac:(repeat constructor)) as (A & B & [C|[]] & D & E).
      repeat split; [exact A|now left|exact D|exact E].
Defined.

(* ================================================================== *)
(** * More properties of the program *)

(** X1.  removeGoComments and removeJSComments only delete: for a document
    that does not end inside an unclosed block comment, every line of the
    output is the corresponding line of the input with some runes deleted
    (nothing is added, replaced or reordered), so the output as a whole is
    the input with runes deleted. *)
Theorem X1_go_js_only_delete :
  (forall d, go_inBlockComment (snd (go_run d)) = false ->
     Forall2 subseq (Split (removeGoComments d)) (Split d)
     /\ subseq (removeGoComments d) d)
  /\ (forall d, js_inBlockComment (snd (js_run d)) = false ->
     Forall2 subseq (Split (removeJSComments d)) (Split d)
     /\ subseq (removeJSComments d) d).
Proof.
  split; intros d H.
  - pose proof (go_lines_subseq d H) as Hl.
    split; [exact Hl|now apply lines_subseq_whole].
  - pose proof (js_lines_subseq d H) as Hl.
    split; [exact Hl|now apply lines_subseq_whole].
Qed.

(** X1 (witness): a Go document with a block comment over three lines. *)
Lemma X1_go_js_only_delete_witness :
  Forall2 subseq (Split (removeGoComments go_block_doc)) (Split go_block_doc)
  /\ subseq (removeGoComments go_block_doc) go_block_doc.
Proof.
  apply (proj1 X1_go_js_only_delete). vm_compute. reflexivity.
Defined.

(** X2.  removeRustComments deletes, and adds only zero runes: when it
    returns for a document that does not end inside an unclosed block
    comment, every line of the output is the corresponding line of the
    input, followed by zero runes (no more of them than the line has bytes
    beyond its runes), with some runes deleted.  On an ASCII document it
    returns, and every line of the output is the corresponding line of the
    input with some runes deleted, and so is the output as a whole. *)
Theorem X2_rust_only_deletes {rt : GoRuntime} (d : text) :
  (forall out st, rust_run d = Some (out, st) -> fst st = false ->
     Forall2 (padded subseq) (Split out) (Split d))
  /\ (ascii_text d ->
      exists out st, rust_run d = Some (out, st)
        /\ (fst st = false -> Forall2 subseq (Split out) (Split d) /\ subseq out d)).
Proof.
  split; [intros out st; apply rust_lines_kept|].
  intros Ha. destruct (rust_run d) as [[out st]|] eqn:E;
    [|now apply rust_run_returns in E].
  exists out, st. split; [reflexivity|]. intros Hst.
  pose proof (rust_lines_subseq Ha E Hst) as Hl.
  split; [exact Hl|now apply lines_subseq_whole].
Qed.

(** X2 (witness): the nested block comment followed by a line of code. *)
Lemma X2_rust_only_deletes_witness :
  exists out st, rust_run (rt := small_buffer) nested_doc = Some (out, st)
    /\ (fst st = false -> Forall2 subseq (Split out) (Split nested_doc)
                           /\ subseq out nested_doc).
Proof.
  apply (proj2 (@X2_rust_only_deletes small_buffer nested_doc)).
  apply ascii_text_check. vm_compute. reflexivity.
Defined.

(** X3.  removeYAMLComments only truncates lines: every line of the output
    is a prefix of the corresponding line of the input. *)
Theorem X3_yaml_truncates_lines (d : text) :
  Forall2 is_prefix (Split (removeYAMLComments d)) (Split d).
Proof. apply yaml_lines_prefix. Qed.

(** X4.  removePythonComments truncates lines, and adds only zero runes:
    when it returns, every line of the output is a prefix of the
    corresponding line of the input followed by zero runes, no more of
    them than the line has bytes beyond its runes (the empty text for a
    line that is not written).  On an ASCII document it returns, and every
    line of the output is a prefix of the corresponding line of the
    input. *)
Theorem X4_python_truncates_lines {rt : GoRuntime} (d : text) :
  (forall out, removePythonComments d = Some out ->
     Forall2 (padded is_prefix) (Split out) (Split d))
  /\ (ascii_text d ->
      exists out, removePythonComments d = Some out
                  /\ Forall2 is_prefix (Split out) (Split d)).
Proof.
  split; [intros out; apply py_lines_kept|].
  intros Ha. destruct (removePythonComments d) as [out|] eqn:E;
    [|now apply py_run_returns in E].
  exists out. split; [reflexivity|now apply py_lines_prefix].
Qed.

(** X4 (witness): a triple-quoted string over two lines. *)
Lemma X4_python_truncates_lines_witness :
  exists out, removePythonComments (rt := small_buffer) py_closing_doc = Some out
              /\ Forall2 is_prefix (Split out) (Split py_closing_doc).
Proof.
  apply (proj2 (@X4_python_truncates_lines small_buffer py_closing_doc)).
  apply ascii_text_check. vm_compute. reflexivity.
Defined.

(** X5.  removeTerraformComments only deletes: when it returns, the output
    is the input with some runes deleted, so it is never longer. *)
Theorem X5_terraform_only_deletes (d out : text) :
  removeTerraformComments d = Some out -> subseq out d /\ length out <= length d.
Proof.
  intros H. assert (Hs : subseq out d) by (eapply tf_main_subseq; exact H).
  split; [exact Hs|now apply subseq_length].
Qed.

(** X5 (witness): a block comment over two lines. *)
Lemma X5_terraform_only_deletes_witness :
  subseq (T "a  b") tf_block_doc /\ length (T "a  b") <= length tf_block_doc.
Proof.
  apply (@X5_terraform_only_deletes tf_block_doc). vm_compute. reflexivity.
Defined.

(** X6.  Line comments in Go and JS/TS: for a document whose lines are
    plain code (no quote, backtick or slash), each followed or not by a
    [//] comment, removeGoComments and removeJSComments return the code of
    every line without its trailing spaces and tabs; in particular a
    document of plain code comes back with only trailing blanks removed. *)
Theorem X6_go_js_line_comments (ls : list (text * option text)) :
  commented_code slash_plain ls ->
  removeGoComments (doc (map (with_line_comment [SLASH; SLASH]) ls))
    = doc (map (fun l => TrimRight (fst l)) ls)
  /\ removeJSComments (doc (map (with_line_comment [SLASH; SLASH]) ls))
    = doc (map (fun l => TrimRight (fst l)) ls).
Proof.
  intros H. split; [now apply go_commented_doc|now apply js_commented_doc].
Qed.

(** X6 (witness): three lines, two of them with a comment. *)
Lemma X6_go_js_line_comments_witness :
  removeGoComments (doc [T "x := 1   // set x"; T "y := x + 2"; T "//done"])
    = doc [T "x := 1"; T "y := x + 2"; []]
  /\ removeJSComments (doc [T "x := 1   // set x"; T "y := x + 2"; T "//done"])
    = doc [T "x := 1"; T "y := x + 2"; []].
Proof.
  apply (@X6_go_js_line_comments commented_go_lines).
  repeat constructor; try (intros ? [= <-]); try discriminate;
    repeat constructor; discriminate.
Defined.

(** X7.  Line comments in Rust: for a document whose lines are plain code,
    each followed or not by a [//] comment, removeRustComments returns the
    code of every line without its trailing spaces and tabs. *)
Theorem X7_rust_line_comments {rt : GoRuntime} (ls : list (text * option text)) :
  commented_code slash_plain ls ->
  removeRustComments (doc (map (with_line_comment [SLASH; SLASH]) ls))
    = Some (doc (map (fun l => TrimRight (fst l)) ls)).
Proof. apply rust_commented_doc. Qed.

(** X7 (witness). *)
Lemma X7_rust_line_comments_witness :
  removeRustComments (rt := small_buffer) (doc [T "x := 1   // set x"; T "y := x + 2"; T "//done"])
    = Some (doc [T "x := 1"; T "y := x + 2"; []]).
Proof.
  apply (@X7_rust_line_comments small_buffer commented_go_lines).
  repeat constructor; try (intros ? [= <-]); try discriminate;
    repeat constructor; discriminate.
Defined.

(** X8.  Line comments in YAML: for a document whose lines are plain text
    (no quote, no hash), each followed or not by a [#] comment,
    removeYAMLComments returns the text of every line without its trailing
    spaces and tabs. *)
Theorem X8_yaml_line_comments (ls : list (text * option text)) :
  commented_code hash_plain ls ->
  removeYAMLComments (doc (map (with_line_comment [HASH]) ls))
    = doc (map (fun l => TrimRight (fst l)) ls).
Proof. apply yaml_commented_doc. Qed.

(** X8 (witness). *)
Lemma X8_yaml_line_comments_witness :
  removeYAMLComments (doc [T "x = 1  # set x"; T "y = x + 2"; T "#done"])
    = doc [T "x = 1"; T "y = x + 2"; []].
Proof.
  apply (@X8_yaml_line_comments commented_py_lines).
  repeat constructor; try (intros ? [= <-]); try discriminate;
    repeat constructor; discriminate.
Defined.

(** X9.  Line comments in Python: for a document whose lines are plain code
    (no quote, no hash), each followed or not by a [#] comment,
    removePythonComments returns the code of every line without its
    trailing spaces and tabs. *)
Theorem X9_python_line_comments {rt : GoRuntime} (ls : list (text * option text)) :
  commented_code hash_plain ls ->
  removePythonComments (doc (map (with_line_comment [HASH]) ls))
    = Some (doc (map (fun l => TrimRight (fst l)) ls)).
Proof. apply py_commented_doc. Qed.

(** X9 (witness). *)
Lemma X9_python_line_comments_witness :
  removePythonComments (rt := small_buffer) (doc [T "x = 1  # set x"; T "y = x + 2"; T "#done"])
    = Some (doc [T "x = 1"; T "y = x + 2"; []]).
Proof.
  apply (@X9_python_line_comments small_buffer commented_py_lines).
  repeat constructor; try (intros ? [= <-]); try discriminate;
    repeat constructor; discriminate.
Defined.

(** X10.  Terraform: a text without double quote, hash, slash and [<] comes
    back unchanged; and after plain text, a [#] or [//] comment is dropped
    up to the end of its line, the plain text before it is kept as it is
    (blanks included), and the rest of the document is handled on its
    own. *)
Theorem X10_terraform_line_comments :
  (forall d, Forall (fun c => tf_plain c = true) d -> removeTerraformComments d = Some d)
  /\ (forall p marker comment rest,
        Forall (fun c => tf_plain c = true) p ->
        marker = [HASH] \/ marker = [SLASH; SLASH] ->
        no_nl comment ->
        rest = [] \/ (exists r, rest = NL :: r) ->
        removeTerraformComments (p ++ marker ++ comment ++ rest)
        = option_map (app p) (removeTerraformComments rest)).
Proof.
  split.
  - intros d H. rewrite <- (app_nil_r d) at 1.
    rewrite (tf_plain_prefix [] H). cbn. now rewrite app_nil_r.
  - intros p marker comment rest Hp Hm Hc Hr.
    rewrite (tf_plain_prefix (marker ++ comment ++ rest) Hp).
    now rewrite (tf_line_comment Hm Hc Hr).
Qed.

(** X10 (witness): a line with a comment, and a line after it. *)
Lemma X10_terraform_line_comments_witness :
  removeTerraformComments (T "a = 1 " ++ [HASH] ++ T " c" ++ NL :: T "b = 2")
  = option_map (app (T "a = 1 ")) (removeTerraformComments (NL :: T "b = 2")).
Proof.
  apply (proj2 X10_terraform_line_comments).
  - repeat constructor.
  - now left.
  - repeat constructor; discriminate.
  - right. now exists (T "b = 2").
Defined.

(** X11.  A block comment inside a line of Go or JS/TS code, after plain
    code: the scanner resumes [byte_len c - length c] runes after the
    closing token, where [c] is the text of the comment.  When the text of
    the comment is ASCII the line is handled as if the comment were not
    there; every rune of the comment that UTF-8 encodes with more than one
    byte makes the scanner skip runes that follow the comment, because the
    byte offset of the closing token is added to a rune index. *)
Theorem X11_inline_block_comment (p c q : text) (last : bool) :
  Forall (fun r => slash_plain r = true) p ->
  index [STAR; SLASH] c = None ->
  (go_line (GoState false false) last (p ++ SLASH :: STAR :: c ++ STAR :: SLASH :: q)
   = go_line (GoState false false) last (p ++ skipn (byte_len c - length c) q)
   /\ js_line (JsState false false) last (p ++ SLASH :: STAR :: c ++ STAR :: SLASH :: q)
      = js_line (JsState false false) last (p ++ skipn (byte_len c - length c) q))
  /\ (Forall (fun r => (0 <= r < 128)%Z) c ->
      go_line (GoState false false) last (p ++ SLASH :: STAR :: c ++ STAR :: SLASH :: q)
      = go_line (GoState false false) last (p ++ q)
      /\ js_line (JsState false false) last (p ++ SLASH :: STAR :: c ++ STAR :: SLASH :: q)
         = js_line (JsState false false) last (p ++ q)).
Proof.
  intros Hp Hc.
  assert (H : go_line (GoState false false) last
                (p ++ SLASH :: STAR :: c ++ STAR :: SLASH :: q)
              = go_line (GoState false false) last (p ++ skipn (byte_len c - length c) q)
              /\ js_line (JsState false false) last
                   (p ++ SLASH :: STAR :: c ++ STAR :: SLASH :: q)
                 = js_line (JsState false false) last
                     (p ++ skipn (byte_len c - length c) q)).
  { split; [now apply go_line_block_comment|now apply js_line_block_comment]. }
  split; [exact H|].
  intros Ha. rewrite (byte_len_ascii Ha), Nat.sub_diag in H. exact H.
Qed.

(** X11 (witness): the comment holds one two-byte rune, and the [y] after
    the comment is lost. *)
Lemma X11_inline_block_comment_witness :
  go_line (GoState false false) true
    (T "x " ++ SLASH :: STAR :: [233%Z] ++ STAR :: SLASH :: T "y z")
  = go_line (GoState false false) true (T "x " ++ T " z").
Proof.
  apply (proj1 (@X11_inline_block_comment (T "x ") [233%Z] (T "y z") true
                  ltac:(repeat constructor) eq_refl)).
Defined.

(** X12.  A Go raw string over several lines, opened after plain code: the
    line that opens it is written without its trailing spaces and tabs,
    every line between the opening and the closing line is written as it
    is, the closing line is written as it is up to the closing backtick,
    and what follows the backtick is stripped like a document of its
    own. *)
Theorem X12_go_raw_string_lines (p a c q : text) (body : list text) :
  Forall (fun r => slash_plain r = true) p ->
  index [BTICK] a = None -> no_nl a ->
  Forall (fun l => index [BTICK] l = None) body -> Forall no_nl body ->
  index [BTICK] c = None -> no_nl c -> no_nl q ->
  removeGoComments (doc ((p ++ BTICK :: a) :: body ++ [c ++ BTICK :: q]))
  = doc (TrimRight (p ++ BTICK :: a) :: body ++ [c ++ BTICK :: removeGoComments q]).
Proof. apply go_raw_string_doc. Qed.

(** X12 (witness): comment tokens inside the raw string stay, the comment
    after it goes, and the blanks that end the opening line go too. *)
Lemma X12_go_raw_string_lines_witness :
  removeGoComments go_raw_doc
  = doc [T "s := `a // kept"; T "  /* kept */ "; T "b`"].
Proof.
  assert (H : removeGoComments (T " // dropped") = []) by (vm_compute; reflexivity).
  assert (H2 : TrimRight (T "s := " ++ BTICK :: T "a // kept  ") = T "s := `a // kept")
    by (vm_compute; reflexivity).
  change (doc [T "s := `a // kept"; T "  /* kept */ "; T "b`"])
    with (doc (T "s := `a // kept" :: [T "  /* kept */ "] ++ [T "b" ++ BTICK :: []])).
  rewrite <- H, <- H2.
  apply (@X12_go_raw_string_lines (T "s := ") (T "a // kept  ") (T "b") (T " // dropped")
           [T "  /* kept */ "]);
    try reflexivity; repeat constructor; try discriminate; reflexivity.
Defined.

(** X13.  collapseExcessiveNewlines deletes white space only: the runes of
    the output that are not white space are those of the input, in the
    same order; the output is never longer and never has more newlines. *)
Theorem X13_collapse_deletes_white_space (t : text) :
  non_space (collapseExcessiveNewlines t) = non_space t
  /\ length (collapseExcessiveNewlines t) <= length t
  /\ count_nl (collapseExcessiveNewlines t) <= count_nl t.
Proof. apply collapse_loop_keeps. Qed.

(** X14.  collapseExcessiveNewlines returns its input unchanged exactly
    when the input has no newline followed by one or more white-space
    characters and a newline. *)
Theorem X14_collapse_unchanged_iff (t : text) :
  collapseExcessiveNewlines t = t <-> ~ nl_ws_nl_occurs t.
Proof. apply collapse_unchanged_iff. Qed.

(** X16.  The file type is read off the end of the path: a path that ends
    in one of the eleven supported extensions has that extension, whatever
    comes before it, and processFile then writes what the remover of that
    extension returns; a path whose last element has no dot has the empty
    extension, and processFile returns ErrUnsupportedFileType for it. *)
Theorem X16_extension_of_path {rt : GoRuntime} :
  (forall x e, In e supported_extensions -> Ext (x ++ e) = e)
  /\ (forall w x e content cleaned,
        In e supported_extensions ->
        contents w (x ++ e)%string = Some content ->
        writable w (x ++ e)%string = true ->
        clean_by_ext e content = Returns (inr cleaned) ->
        processFile w (x ++ e) = Returns (None, write_file w (x ++ e) cleaned))
  /\ (forall dir name,
        ext_free name = true ->
        Ext (dir ++ String "/"%char name) = EmptyString /\ Ext name = EmptyString)
  /\ (forall w p content,
        contents w p = Some content -> Ext p = EmptyString ->
        processFile w p = Returns (Some (ErrUnsupportedFileType EmptyString), w)).
Proof.
  split; [exact Ext_supported|]. split; [|split; [exact Ext_none|]].
  - intros w x e content cleaned He Hc Hw Hclean.
    unfold processFile. now rewrite Hc, (@Ext_supported x e He), Hclean, Hw.
  - intros w p content Hc He. unfold processFile. rewrite Hc, He. reflexivity.
Qed.

(** X16 (witness): a Go file in a directory whose name has a dot. *)
Lemma X16_extension_of_path_witness :
  Ext ("pkg.v2/main" ++ ".go") = ".go"%string.
Proof.
  apply (proj1 (@X16_extension_of_path small_buffer)). vm_compute. tauto.
Defined.

(** X17.  The file loop of run: the files it hands on to the batches are
    files of its list that git does not ignore, that the cache wants
    processed and whose extension is supported; every file is counted at
    most once, as handed on or as skipped; and a file that git ignores,
    that the cache does not want processed, or that is not in the list has
    the content it had before. *)
Theorem X17_run_files_safety {rt : GoRuntime} (isGitIgnored shouldProcess : string -> bool)
    (files : list string) (w w' : world) (processed : list string) (skipped : nat) :
  run_files isGitIgnored shouldProcess w files [] 0 = Returns (processed, skipped, w') ->
  Forall (fun f => In f files /\ isGitIgnored f = false /\ shouldProcess f = true
                   /\ In (Ext f) supported_extensions) processed
  /\ length processed + skipped <= length files
  /\ writable w' = writable w
  /\ (forall f, isGitIgnored f = true \/ shouldProcess f = false \/ ~ In f files ->
                contents w' f = contents w f).
Proof.
  intros H.
  destruct (@run_files_spec isGitIgnored shouldProcess _ files _ _ _ _ _ _ H)
    as ((added & -> & Hall & Hlen) & _ & Hw & Hc).
  cbn [app]. repeat split; auto. lia.
Qed.

(** X17 (witness): a Go file, a text file and an ignored Go file. *)
Lemma X17_run_files_safety_witness :
  Forall (fun f => In f ["a.go"; "b.txt"; "c.go"]%string
                   /\ (f =? "c.go")%string = false /\ true = true
                   /\ In (Ext f) supported_extensions) ["a.go"%string]
  /\ length ["a.go"%string] + 2 <= length ["a.go"; "b.txt"; "c.go"]%string
  /\ writable (write_file three_files "a.go" (T "x")) = writable three_files
  /\ (forall f, (f =? "c.go")%string = true \/ true = false
                \/ ~ In f ["a.go"; "b.txt"; "c.go"]%string ->
                contents (write_file three_files "a.go" (T "x")) f = contents three_files f).
Proof.
  apply (@X17_run_files_safety small_buffer (fun f => (f =? "c.go")%string) (fun _ => true)
           ["a.go"; "b.txt"; "c.go"]%string three_files
           (write_file three_files "a.go" (T "x")) ["a.go"%string] 2).
  vm_compute. reflexivity.
Defined.

(** X18.  formatFile knows a formatter for exactly the extensions that
    processFile supports: it builds no command, and returns nil without
    running anything, exactly when the extension of the file is none of
    the eleven; and the file is the last argument of the command it
    builds. *)
Theorem X18_formatter_for_supported_types :
  (forall file, formatter_command file = None <-> ~ In (Ext file) supported_extensions)
  /\ (forall run file, ~ In (Ext file) supported_extensions -> formatFile run file = None)
  /\ (forall file cmd, formatter_command file = Some cmd -> last cmd EmptyString = file).
Proof.
  split; [exact formatter_command_none|]. split; [|exact formatter_command_file].
  intros run file H. unfold formatFile.
  now rewrite (proj2 (@formatter_command_none file) H).
Qed.

(** X18 (witness): the command for a Python file. *)
Lemma X18_formatter_for_supported_types_witness :
  last ["ruff"; "format"; "tool/x.py"]%string EmptyString = "tool/x.py"%string.
Proof.
  apply (proj2 (proj2 X18_formatter_for_supported_types) "tool/x.py"%string).
  vm_compute. reflexivity.
Defined.

(** X19.  processBatches with a batch size of at least 1 hands
    processBatch consecutive pieces of the list of files, in order: all of
    them have [batchSize] files except the last, which has between 1 and
    [batchSize]; the pieces together are the list.  The batches run one
    after the other, the files of a batch are marked in the cache and the
    cache is saved after the batch succeeded, and the first batch that
    fails ends the run with its error. *)
Theorem X19_processBatches_partition (St E : Type)
    (processBatch : St -> list string -> option E * St)
    (markProcessed : St -> string -> St) (save : St -> St)
    (n : nat) (files : list string) (st : St) :
  0 < n ->
  partition_by n files (batches_of n files)
  /\ processBatches processBatch markProcessed save files (Z.of_nat n) st
     = Returns (run_batches processBatch markProcessed save (batches_of n files) st)
  /\ forall fuel, length files < fuel ->
       processBatches_loop processBatch markProcessed save fuel files (Z.of_nat n) 0 st
       = processBatches processBatch markProcessed save files (Z.of_nat n) st.
Proof.
  intros Hn. split; [now apply batches_of_partition|].
  split; [now apply processBatches_spec|].
  intros fuel Hf. now apply processBatches_loop_fuel.
Qed.

(** X19 (witness): five files in batches of two, the state being the list
    of the files marked so far. *)
Lemma X19_processBatches_partition_witness :
  partition_by 2 ["a"; "b"; "c"; "d"; "e"]%string
    (batches_of 2 ["a"; "b"; "c"; "d"; "e"]%string)
  /\ processBatches (E := unit) (fun st _ => (None, st)) (fun st f => st ++ [f])
       (fun st => st) ["a"; "b"; "c"; "d"; "e"]%string (Z.of_nat 2) []
     = Returns (run_batches (E := unit) (fun st _ => (None, st)) (fun st f => st ++ [f])
                  (fun st => st) (batches_of 2 ["a"; "b"; "c"; "d"; "e"]%string) [])
  /\ forall fuel, length ["a"; "b"; "c"; "d"; "e"]%string < fuel ->
       processBatches_loop (E := unit) (fun st _ => (None, st)) (fun st f => st ++ [f])
         (fun st => st) fuel ["a"; "b"; "c"; "d"; "e"]%string (Z.of_nat 2) 0 []
       = processBatches (E := unit) (fun st _ => (None, st)) (fun st f => st ++ [f])
           (fun st => st) ["a"; "b"; "c"; "d"; "e"]%string (Z.of_nat 2) [].
Proof.
  apply (@X19_processBatches_partition (list string) unit). lia.
Defined.

(** X20.  processBatches with a batch size of 0 or less panics as soon as
    there is a file: a negative size makes the slice [files[i:end]] end
    before it starts, and the size 0 is divided by in the progress
    message.  Without files it returns nil whatever the size is. *)
Theorem X20_processBatches_bad_size (St E : Type)
    (processBatch : St -> list string -> option E * St)
    (markProcessed : St -> string -> St) (save : St -> St)
    (batchSize : Z) (files : list string) (st : St) :
  ((batchSize <= 0)%Z -> files <> [] ->
   processBatches processBatch markProcessed save files batchSize st = Panics)
  /\ processBatches processBatch markProcessed save [] batchSize st = Returns (None, st).
Proof.
  split; [now apply processBatches_bad_size|reflexivity].
Qed.

(** X20 (witness): one file and the batch size 0. *)
Lemma X20_processBatches_bad_size_witness :
  processBatches (E := unit) (fun st _ => (None, st)) (fun st f => st ++ [f])
    (fun st => st) ["a"%string] 0 [] = Panics.
Proof.
  apply (proj1 (@X20_processBatches_bad_size (list string) unit
                  (fun st _ => (None, st)) (fun st f => st ++ [f]) (fun st => st)
                  0%Z ["a"%string] [])); [lia|discriminate].
Defined.

(** X21.  The timestamp cache, marking and asking: after markProcessed has
    succeeded for a file, the cache holds the modification time of the
    file under its relative path and nothing else has changed;
    shouldProcess then answers false as long as the file keeps that
    modification time, and, once the file has another modification time,
    true exactly when that time is later; the answer for a file with
    another relative path is what it was.  A markProcessed that fails
    leaves the cache as it was, and an empty cache wants every file
    processed. *)
Theorem X21_cache_round_trip (toRelativePath : string -> option string)
    (ModTime : string -> option Z) (c c' : FileCache) (f : string) :
  (markProcessed ModTime toRelativePath c f = (None, c') ->
   (exists modTime relPath,
       ModTime f = Some modTime /\ toRelativePath f = Some relPath
       /\ ProcessedFiles c' relPath = Some modTime
       /\ (forall k, k <> relPath -> ProcessedFiles c' k = ProcessedFiles c k)
       /\ shouldProcess ModTime toRelativePath c' f = (false, None)
       /\ forall ModTime' modTime',
            ModTime' f = Some modTime' ->
            shouldProcess ModTime' toRelativePath c' f = ((modTime <? modTime')%Z, None))
   /\ (forall g ModTime',
          toRelativePath g <> toRelativePath f ->
          shouldProcess ModTime' toRelativePath c' g
          = shouldProcess ModTime' toRelativePath c g))
  /\ (forall e, markProcessed ModTime toRelativePath c f = (Some e, c') -> c' = c)
  /\ (forall modTime relPath,
        ModTime f = Some modTime -> toRelativePath f = Some relPath ->
        shouldProcess ModTime toRelativePath empty_cache f = (true, None)).
Proof.
  split; [|split].
  - intros H. split; [now apply markProcessed_then_shouldProcess|].
    intros g mt' Hne. eapply markProcessed_other; eassumption.
  - intros e H. eapply markProcessed_error; eassumption.
  - intros mt rel Hm Hr. eapply shouldProcess_empty; eassumption.
Qed.

(** X21 (witness): a file marked in the empty cache at time 5. *)
Lemma X21_cache_round_trip_witness :
  shouldProcess (fun _ => Some 5%Z) (fun p => Some p)
    (snd (markProcessed (fun _ => Some 5%Z) (fun p => Some p) empty_cache "a.go"))
    "a.go"
  = (false, None).
Proof.
  destruct (proj1 (@X21_cache_round_trip (fun p => Some p) (fun _ => Some 5%Z)
                     empty_cache
                     (snd (markProcessed (fun _ => Some 5%Z) (fun p => Some p)
                             empty_cache "a.go"))
                     "a.go") eq_refl) as [(mt & rel & _ & _ & _ & _ & H & _) _].
  exact H.
Defined.

(** X22.  Cache-only mode of run: it returns the error that no file was
    cached exactly when no file of the list can be cached (each one is
    git-ignored or has no modification time or no relative path); and when
    it succeeds, provided two paths with the same relative path have the
    same modification time, shouldProcess answers false on the saved cache
    for every file of the list that can be cached, so that a later run
    without [-force] skips the file as long as it is not modified. *)
Theorem X22_cache_only_mode (ModTime : string -> option Z)
    (toRelativePath : string -> option string) (isGitIgnored : string -> bool)
    (save : FileCache -> bool) (cache : FileCache) (files : list string) :
  (forall f g r, toRelativePath f = Some r -> toRelativePath g = Some r ->
                 ModTime f = ModTime g) ->
  (forall e saved,
      run_cache_only ModTime toRelativePath isGitIgnored save cache files = (e, saved) ->
      (e = Some ErrNoFilesCached
       <-> Forall (fun f => cacheable ModTime toRelativePath isGitIgnored f = false) files))
  /\ (forall c',
        run_cache_only ModTime toRelativePath isGitIgnored save cache files
        = (None, Some c') ->
        forall f, In f files ->
                  cacheable ModTime toRelativePath isGitIgnored f = true ->
                  shouldProcess ModTime toRelativePath c' f = (false, None)
                  /\ run_shouldProcess ModTime toRelativePath false c' f = false).
Proof. intros H. now apply run_cache_only_spec. Qed.

(** X22 (witness): two files, one of them git-ignored; the other one is
    recorded and not wanted afterwards. *)
Lemma X22_cache_only_mode_witness :
  shouldProcess (fun _ => Some 5%Z) (fun p => Some p)
    (snd (markProcessed (fun _ => Some 5%Z) (fun p => Some p) empty_cache "a.go")) "a.go"
  = (false, None)
  /\ run_shouldProcess (fun _ => Some 5%Z) (fun p => Some p) false
       (snd (markProcessed (fun _ => Some 5%Z) (fun p => Some p) empty_cache "a.go")) "a.go"
     = false.
Proof.
  apply (proj2 (@X22_cache_only_mode (fun _ => Some 5%Z) (fun p => Some p)
                  (fun f => (f =? "c.go")%string) (fun _ => true) empty_cache
                  ["a.go"; "c.go"]%string ltac:(reflexivity))
           (snd (markProcessed (fun _ => Some 5%Z) (fun p => Some p) empty_cache "a.go"))
           eq_refl "a.go"%string).
  - now left.
  - reflexivity.
Defined.

(** X23.  getStagedFiles, whatever git prints: the names it returns are
    not empty, hold no newline and neither begin nor end with white space,
    and there is at least one; it returns the error that no staged file
    was found exactly when git printed nothing but white space. *)
Theorem X23_getStagedFiles_names (output : text) :
  (forall files, getStagedFiles (Some output) = inr files ->
                 files <> [] /\ Forall (fun f => trimmed f /\ no_nl f) files)
  /\ (getStagedFiles (Some output) = inl ErrNoStagedFiles <-> all_space output).
Proof.
  split; [intros files; apply getStagedFiles_names|apply getStagedFiles_none].
Qed.

(** X23 (witness): names with blank lines and blanks around them. *)
Lemma X23_getStagedFiles_names_witness :
  [T "a.go"; T "b c.py"] <> []
  /\ Forall (fun f => trimmed f /\ no_nl f) [T "a.go"; T "b c.py"].
Proof.
  apply (proj1 (X23_getStagedFiles_names (doc [T " a.go "; []; T "b c.py"; []]))).
  vm_compute. reflexivity.
Defined.

(** X24.  getStagedFiles on what git prints for names that are not empty,
    hold no newline and neither begin nor end with white space (one name
    per line, each line ended by a newline): it returns these names, in
    this order. *)
Theorem X24_getStagedFiles_lines (names : list text) :
  names <> [] -> Forall (fun f => trimmed f /\ no_nl f) names ->
  getStagedFiles (Some (doc names ++ [NL])) = inr names.
Proof. apply getStagedFiles_lines. Qed.

(** X24 (witness): two names, one with a space inside. *)
Lemma X24_getStagedFiles_lines_witness :
  getStagedFiles (Some (doc staged_names ++ [NL])) = inr staged_names.
Proof.
  apply X24_getStagedFiles_lines; [discriminate|].
  repeat constructor; try discriminate.
Defined.

(** X25.  findGitRoot returns the nearest directory, from the working
    directory upwards, that holds a directory [.git]: the root it returns
    is the working directory or one of its ancestors, it holds [.git], and
    no directory between it and the working directory does; it returns the
    error that this is no git repository exactly when neither the working
    directory nor any ancestor, the root directory included, holds
    [.git]. *)
Theorem X25_findGitRoot_nearest (isDir : list string -> bool) (cwd : list string) :
  match findGitRoot isDir (Some cwd) with
  | inr root =>
      exists j, j <= length cwd /\ root = firstn j cwd
                /\ isDir (root ++ [".git"%string]) = true
                /\ forall i, j < i -> i <= length cwd ->
                             isDir (firstn i cwd ++ [".git"%string]) = false
  | inl e =>
      e = ErrNotInGitRepository
      /\ forall i, i <= length cwd -> isDir (firstn i cwd ++ [".git"%string]) = false
  end.
Proof.
  unfold findGitRoot.
  pose proof (@findGitRoot_loop_spec isDir cwd (length cwd) (S (length cwd))
                (le_n _) (Nat.lt_succ_diag_r _)) as H.
  rewrite firstn_all in H.
  destruct (findGitRoot_loop isDir (S (length cwd)) cwd) as [root|];
    [exact H|split; [reflexivity|exact H]].
Qed.

(** X26.  A triple-quoted Python string that closes on the line where it
    opens, after plain code: the string is written whole, together with
    the [byte_len c - length c] runes that follow it, which are not
    scanned ([c] is the content of the string; the end of the slice is a
    byte offset), and the line is scanned on from there.  When fewer runes
    follow the string, the slice runs beyond the length of the line: the
    line is written whole, followed by one zero rune for every missing
    rune, as long as the slice ends within the capacity of the rune slice;
    beyond the capacity removePythonComments panics. *)
Theorem X26_python_triple_quote_on_one_line {rt : GoRuntime} (p c q : text) (last : bool) :
  Forall (fun x => hash_plain x = true) p ->
  Forall (fun x => x <> DQUOTE) c ->
  (forall room,
      py_whole room (p ++ Q3 ++ c ++ Q3 ++ q)
      = if byte_len c - length c <=? length q then
          emits_opt (p ++ Q3 ++ c ++ Q3 ++ firstn (byte_len c - length c) q)
            (py_whole room (skipn (byte_len c - length c) q))
        else if byte_len c - length c - length q <=? room then
          Some (p ++ Q3 ++ c ++ Q3 ++ q ++ repeat 0%Z (byte_len c - length c - length q),
                (false, []))
        else None)
  /\ (length q < byte_len c - length c ->
      py_line (false, []) last (p ++ Q3 ++ c ++ Q3 ++ q)
      = if byte_len c - length c - length q
           <=? rune_cap (length (p ++ Q3 ++ c ++ Q3 ++ q)) - length (p ++ Q3 ++ c ++ Q3 ++ q)
        then Some ((p ++ Q3 ++ c ++ Q3 ++ q)
                   ++ repeat 0%Z (byte_len c - length c - length q) ++ eol last,
                   (false, []))
        else None).
Proof.
  intros Hp Hc.
  assert (Hw : forall room,
      py_whole room (p ++ Q3 ++ c ++ Q3 ++ q)
      = if byte_len c - length c <=? length q then
          emits_opt (p ++ Q3 ++ c ++ Q3 ++ firstn (byte_len c - length c) q)
            (py_whole room (skipn (byte_len c - length c) q))
        else if byte_len c - length c - length q <=? room then
          Some (p ++ Q3 ++ c ++ Q3 ++ q ++ repeat 0%Z (byte_len c - length c - length q),
                (false, []))
        else None).
  { intros room. rewrite (py_whole_plain room _ Hp), (py_whole_triple room q Hc).
    destruct (_ <=? length q).
    - destruct (py_whole room (skipn _ q)) as [[o st]|]; [|reflexivity].
      unfold emits_opt, emits. cbn [option_map fst snd]. now rewrite <- !app_assoc.
    - destruct (_ <=? room); reflexivity. }
  split; [exact Hw|].
  intros Hk. unfold py_line.
  set (line := p ++ Q3 ++ c ++ Q3 ++ q) in *.
  set (room := rune_cap (length line) - length line).
  change (py_scan room (length line) false 0%Z false line) with (py_whole room line).
  unfold line at 1. rewrite Hw.
  destruct (Nat.leb_spec (byte_len c - length c) (length q)) as [H|_]; [lia|].
  destruct (_ <=? room); [|reflexivity].
  cbn [fst]. do 2 f_equal.
  remember (byte_len c - length c - length q) as m eqn:Em.
  destruct m as [|m]; [lia|].
  assert (Hz : repeat 0%Z (S m) = repeat 0%Z m ++ [0%Z]).
  { clear. induction m as [|m IH]; [reflexivity|]. cbn [repeat app] in *. now rewrite <- IH. }
  replace (p ++ Q3 ++ c ++ Q3 ++ q ++ repeat 0%Z (S m))
    with ((line ++ repeat 0%Z m) ++ [0%Z])
    by (unfold line; rewrite Hz, <- !app_assoc; reflexivity).
  rewrite TrimRight_snoc by reflexivity.
  rewrite Hz, <- !app_assoc. reflexivity.
Qed.

Lemma X26_python_triple_quote_on_one_line_witness :
  py_line (rt := small_buffer) (false, []) true e_acute_line
  = Some (e_acute_line ++ [0%Z], (false, []))
  /\ py_line (rt := small_buffer) (false, []) true euro_line = None.
Proof.
  split.
  - apply (proj2 (@X26_python_triple_quote_on_one_line small_buffer
                    (T "x = ") [233%Z] [] true
                    ltac:(repeat constructor) ltac:(repeat constructor; discriminate))).
    vm_compute. lia.
  - apply (proj2 (@X26_python_triple_quote_on_one_line small_buffer
                    [] (repeat 8364%Z 11) [] true
                    ltac:(constructor) ltac:(repeat constructor; discriminate))).
    vm_compute. lia.
Defined.
